(** * Verification of the bridge relayer core

    A shallow embedding of the relayer's bridge executor, leader topology,
    state-machine steps, signature broadcaster and batch processor, with the
    properties stated by the specification proved (or refuted) on it.

    Conventions of the embedding.
    - Go's [uint64]/[int64] values are integers in [Z]; every wrap-around of
      the source is written out through [U64.wrap] / [I64.wrap].
    - A Go pointer that may be [nil] is an [option]; a Go [(value, error)]
      result is a pair whose second component is [option error], [None]
      standing for the [nil] error.
    - A run-time panic (nil dereference) is the [Panics] outcome of [go].
    - Byte slices and [*big.Int] values live in an explicit [heap], so that
      two slice headers sharing one backing array are visible as such.

    The file is laid out in two parts: the embedding (definitions only), then
    the lemmas and theorems. *)

From Stdlib Require Import ZArith Lia Bool.
From Stdlib.Strings Require Import Byte.
From stdpp Require Import base option list gmap strings.

Local Open Scope Z_scope.

(* ===================================================================== *)
(** * Part I: the embedding *)
(* ===================================================================== *)

(** ** Machine integers *)

Module U64.
Definition modulus : Z := 2 ^ 64.
Definition max : Z := modulus - 1.
Definition wrap (z : Z) : Z := z mod modulus.
Definition add (a b : Z) : Z := wrap (a + b).
Definition in_range (z : Z) : Prop := 0 <= z < modulus.
End U64.

Module I64.
Definition min : Z := - 2 ^ 63.
Definition max : Z := 2 ^ 63 - 1.
Definition in_range (z : Z) : Prop := min <= z <= max.
(** Two's-complement reinterpretation of the low 64 bits. *)
Definition wrap (z : Z) : Z := (z + 2 ^ 63) mod 2 ^ 64 - 2 ^ 63.
(** Go's [/] on signed integers truncates toward zero. *)
Definition div (a b : Z) : Z := wrap (Z.quot a b).
End I64.

(** ** Outcomes of Go calls *)

Inductive panic : Type :=
  | NilPointerDereference
  | IndexOutOfRange
  | IntegerDivideByZero.

Inductive go (A : Type) : Type :=
  | Returns (a : A)
  | Panics (p : panic).
Arguments Returns {A} a.
Arguments Panics {A} p.

(** ** Memory: backing arrays of byte slices and big integers *)

Definition loc := positive.
Definition bytes := list byte.

#[global] Instance byte_eq_dec : EqDecision byte := Byte.byte_eq_dec.
#[global] Instance byte_countable : Countable byte :=
  inj_countable Byte.to_N Byte.of_N Byte.of_to_N.

(** [bytes.Equal]: equal lengths and equal contents, a [nil] slice being
    equal to an empty one. *)
Definition bytes_Equal (a b : bytes) : bool := bool_decide (a = b).

(** A slice header: backing array, offset of the first element, length. *)
Record slice : Type := mkSlice {
  sl_array : loc;
  sl_off : nat;
  sl_len : nat
}.

Record heap : Type := mkHeap {
  h_bytes : gmap loc bytes;
  h_bigint : gmap loc Z
}.

(** ** Data model ([clients] package)

    The fields of a deposit that the files at hand read.  [Amount] is a
    [*big.Int]; the byte slices are slice headers into the heap.  A batch
    holds pointers to its deposits; they are taken non-nil and the deposits
    are listed by value, no function embedded here writing to one.  Where a
    statement says when a function panics, the deposits are taken as the
    pointers they are ([batchProcessor.TransferBatchOfPointers]). *)

Module clients.

Record DepositTransfer : Type := mkDeposit {
  Nonce : Z;
  ToBytes : slice;
  ConvertedTokenBytes : slice;
  Amount : option loc
}.

Record TransferBatch : Type := mkBatch {
  ID : Z;
  Deposits : list DepositTransfer;
  Statuses : bytes
}.

End clients.

Import clients.

(** ** Errors

    The sentinel errors of the packages, an error wrapped with [fmt.Errorf]
    keeping the values it was formatted with, and [ErrExternal] for whatever
    error a collaborator (chain client, marshalizer, messenger) hands back. *)

Inductive error : Type :=
  | ErrNilBatch
  | ErrInvalidDepositNonce (dt : DepositTransfer) (expected : Z)
  | ErrPeerNotWhitelisted (publicKey : bytes)
  | ErrInvalidSignature
  | ErrNonceNotGreater
  | ErrExternal (code : Z).

(** [check.IfNil] on an interface value *)
Module check.
Definition IfNil {A : Type} (x : option A) : bool :=
  match x with
  | None => true
  | Some _ => false
  end.
End check.

(** ** Bridge executor ([ethToElrond/v2/bridge/bridgeExecutor.go]) *)

(** The chain clients are interfaces; a client is given by what each of its
    methods answers.  The [context.Context] argument is left out. *)

Module ElrondClient.
Record t : Type := mk {
  GetPending : option TransferBatch * option error;
  GetLastExecutedEthBatchID : Z * option error;
  GetLastExecutedEthTxID : Z * option error;
  GetActionIDForProposeTransfer : TransferBatch -> Z * option error;
  GetActionIDForSetStatusOnPendingTransfer : TransferBatch -> Z * option error;
  WasProposedTransfer : TransferBatch -> bool * option error;
  ProposeTransfer : TransferBatch -> string * option error;
  WasProposedSetStatus : TransferBatch -> bool * option error;
  ProposeSetStatus : TransferBatch -> string * option error;
  WasExecuted : Z -> bool * option error;
  Sign : Z -> string * option error;
  QuorumReached : Z -> bool * option error;
  PerformAction : Z -> TransferBatch -> string * option error;
  GetMaxNumberOfRetriesOnQuorumReached : Z
}.
End ElrondClient.

Module EthereumClient.
Record t : Type := mk {
  GetBatch : Z -> option TransferBatch * option error;
  GetTransactionsStatuses : Z -> bytes * option error;
  WasExecuted : Z -> bool * option error;
  GenerateMessageHash : TransferBatch -> bytes * option error;
  (* a [*big.Int], which may be [nil] *)
  GetQuorumSize : option Z * option error;
  ExecuteTransfer : bytes -> TransferBatch -> Z -> string * option error;
  IsQuorumReached : bytes -> bool * option error;
  GetMaxNumberOfRetriesOnQuorumReached : Z
}.
End EthereumClient.

Module TopologyProvider.
Record t : Type := mk { MyTurnAsLeader : bool }.
End TopologyProvider.

Module bridge.

(** The struct of the source; the logger and the confirmation timeout play
    no part in what follows and are left out. *)
Record bridgeExecutor : Type := mkExecutor {
  topologyProvider : TopologyProvider.t;
  elrondClient : ElrondClient.t;
  ethereumClient : EthereumClient.t;
  batch : option TransferBatch;
  actionID : Z;
  msgHash : bytes;
  retriesOnElrond : Z;
  retriesOnEthereum : Z
}.

Definition set_batch (executor : bridgeExecutor) (b : option TransferBatch) : bridgeExecutor :=
  mkExecutor (topologyProvider executor) (elrondClient executor) (ethereumClient executor)
    b (actionID executor) (msgHash executor)
    (retriesOnElrond executor) (retriesOnEthereum executor).

Definition set_actionID (executor : bridgeExecutor) (a : Z) : bridgeExecutor :=
  mkExecutor (topologyProvider executor) (elrondClient executor) (ethereumClient executor)
    (batch executor) a (msgHash executor)
    (retriesOnElrond executor) (retriesOnEthereum executor).

Definition set_msgHash (executor : bridgeExecutor) (h : bytes) : bridgeExecutor :=
  mkExecutor (topologyProvider executor) (elrondClient executor) (ethereumClient executor)
    (batch executor) (actionID executor) h
    (retriesOnElrond executor) (retriesOnEthereum executor).

Definition set_retriesOnElrond (executor : bridgeExecutor) (r : Z) : bridgeExecutor :=
  mkExecutor (topologyProvider executor) (elrondClient executor) (ethereumClient executor)
    (batch executor) (actionID executor) (msgHash executor)
    r (retriesOnEthereum executor).

Definition set_retriesOnEthereum (executor : bridgeExecutor) (r : Z) : bridgeExecutor :=
  mkExecutor (topologyProvider executor) (elrondClient executor) (ethereumClient executor)
    (batch executor) (actionID executor) (msgHash executor)
    (retriesOnElrond executor) r.

(** Every method takes the executor it is called on and returns, unless it
    panics, its Go result together with the executor as it has left it. *)
Definition method (R : Type) : Type := bridgeExecutor -> go (R * bridgeExecutor).

Definition MyTurnAsLeader : method bool := fun executor =>
  Returns (TopologyProvider.MyTurnAsLeader (topologyProvider executor), executor).

Definition GetBatchFromElrond : method (option TransferBatch * option error) := fun executor =>
  Returns (ElrondClient.GetPending (elrondClient executor), executor).

Definition StoreBatchFromElrond (newBatch : option TransferBatch) : method (option error) :=
  fun executor =>
  match newBatch with
  | None => Returns (Some ErrNilBatch, executor)
  | Some _ => Returns (None, set_batch executor newBatch)
  end.

Definition GetStoredBatch : method (option TransferBatch) := fun executor =>
  Returns (batch executor, executor).

(** The [for ... range executor.batch.Deposits] loop of [verifyDepositNonces],
    [startNonce++] being an addition on [uint64]. *)
Fixpoint verifyDepositNonces_loop (deposits : list DepositTransfer) (startNonce : Z)
  : option error :=
  match deposits with
  | [] => None
  | dt :: rest =>
      if negb (Nonce dt =? startNonce)
      then Some (ErrInvalidDepositNonce dt startNonce)
      else verifyDepositNonces_loop rest (U64.add startNonce 1)
  end.

Definition verifyDepositNonces (lastNonce : Z) : method (option error) := fun executor =>
  let startNonce := U64.add lastNonce 1 in
  match batch executor with
  | None => Panics NilPointerDereference
  | Some b => Returns (verifyDepositNonces_loop (Deposits b) startNonce, executor)
  end.

Definition VerifyLastDepositNonceExecutedOnEthereumBatch : method (option error) :=
  fun executor =>
  match batch executor with
  | None => Returns (Some ErrNilBatch, executor)
  | Some _ =>
      let '(lastNonce, err) := ElrondClient.GetLastExecutedEthTxID (elrondClient executor) in
      match err with
      | Some e => Returns (Some e, executor)
      | None => verifyDepositNonces lastNonce executor
      end
  end.

Section WithPackageV2.

(** [v2.InvalidActionID] is declared outside the files at hand; it is taken
    as it comes. *)
Variable InvalidActionID : Z.

(** The method [ResolveNewDeposits] of [clients.TransferBatch] (pointer
    receiver) is declared outside the files at hand: it receives the pointer
    it is called on, [nil] included, and an [int]. *)
Variable ResolveNewDeposits : option TransferBatch -> Z -> go (option TransferBatch).

Definition GetAndStoreActionIDForProposeTransferOnElrond : method (Z * option error) :=
  fun executor =>
  match batch executor with
  | None => Returns ((InvalidActionID, Some ErrNilBatch), executor)
  | Some b =>
      let '(actionID, err) :=
        ElrondClient.GetActionIDForProposeTransfer (elrondClient executor) b in
      match err with
      | Some e => Returns ((InvalidActionID, Some e), executor)
      | None => Returns ((actionID, None), set_actionID executor actionID)
      end
  end.

Definition GetAndStoreActionIDForProposeSetStatusFromElrond : method (Z * option error) :=
  fun executor =>
  match batch executor with
  | None => Returns ((InvalidActionID, Some ErrNilBatch), executor)
  | Some b =>
      let '(actionID, err) :=
        ElrondClient.GetActionIDForSetStatusOnPendingTransfer (elrondClient executor) b in
      match err with
      | Some e => Returns ((InvalidActionID, Some e), executor)
      | None => Returns ((actionID, None), set_actionID executor actionID)
      end
  end.

Definition GetStoredActionID : method Z := fun executor =>
  Returns (actionID executor, executor).

Definition WasTransferProposedOnElrond : method (bool * option error) := fun executor =>
  match batch executor with
  | None => Returns ((false, Some ErrNilBatch), executor)
  | Some b => Returns (ElrondClient.WasProposedTransfer (elrondClient executor) b, executor)
  end.

Definition ProposeTransferOnElrond : method (option error) := fun executor =>
  match batch executor with
  | None => Returns (Some ErrNilBatch, executor)
  | Some b =>
      let '(hash, err) := ElrondClient.ProposeTransfer (elrondClient executor) b in
      match err with
      | Some e => Returns (Some e, executor)
      | None => Returns (None, executor)
      end
  end.

Definition WasSetStatusProposedOnElrond : method (bool * option error) := fun executor =>
  match batch executor with
  | None => Returns ((false, Some ErrNilBatch), executor)
  | Some b => Returns (ElrondClient.WasProposedSetStatus (elrondClient executor) b, executor)
  end.

Definition ProposeSetStatusOnElrond : method (option error) := fun executor =>
  match batch executor with
  | None => Returns (Some ErrNilBatch, executor)
  | Some b =>
      let '(hash, err) := ElrondClient.ProposeSetStatus (elrondClient executor) b in
      match err with
      | Some e => Returns (Some e, executor)
      | None => Returns (None, executor)
      end
  end.

Definition WasActionSignedOnElrond : method (bool * option error) := fun executor =>
  Returns (ElrondClient.WasExecuted (elrondClient executor) (actionID executor), executor).

Definition SignActionOnElrond : method (option error) := fun executor =>
  let '(hash, err) := ElrondClient.Sign (elrondClient executor) (actionID executor) in
  match err with
  | Some e => Returns (Some e, executor)
  | None => Returns (None, executor)
  end.

Definition IsQuorumReachedOnElrond : method (bool * option error) := fun executor =>
  Returns (ElrondClient.QuorumReached (elrondClient executor) (actionID executor), executor).

Definition GetBatchStatusesFromEthereum : method (option bytes * option error) :=
  fun executor =>
  match batch executor with
  | None => Returns ((None, Some ErrNilBatch), executor)
  | Some b =>
      let '(statuses, err) :=
        EthereumClient.GetTransactionsStatuses (ethereumClient executor) (ID b) in
      match err with
      | Some e => Returns ((None, Some e), executor)
      | None => Returns ((Some statuses, None), executor)
      end
  end.

Definition WasActionPerformedOnElrond : method (bool * option error) := fun executor =>
  Returns (ElrondClient.WasExecuted (elrondClient executor) (actionID executor), executor).

Definition PerformActionOnElrond : method (option error) := fun executor =>
  match batch executor with
  | None => Returns (Some ErrNilBatch, executor)
  | Some b =>
      let '(hash, err) :=
        ElrondClient.PerformAction (elrondClient executor) (actionID executor) b in
      match err with
      | Some e => Returns (Some e, executor)
      | None => Returns (None, executor)
      end
  end.

(** No guard here: the stored pointer goes to the callee as it is.  The
    method has no result, hence the [unit]. *)
Definition ResolveNewDepositsStatuses (numDeposits : Z) : method unit := fun executor =>
  match ResolveNewDeposits (batch executor) (I64.wrap numDeposits) with
  | Panics p => Panics p
  | Returns b' => Returns (tt, set_batch executor b')
  end.

Definition ProcessMaxRetriesOnElrond : method bool := fun executor =>
  let maxNumberOfRetries :=
    ElrondClient.GetMaxNumberOfRetriesOnQuorumReached (elrondClient executor) in
  if retriesOnElrond executor <? maxNumberOfRetries
  then Returns (false, set_retriesOnElrond executor (U64.add (retriesOnElrond executor) 1))
  else Returns (true, executor).

Definition ResetRetriesCountOnElrond : method unit := fun executor =>
  Returns (tt, set_retriesOnElrond executor 0).

Definition GetAndStoreBatchFromEthereum (nonce : Z) : method (option error) := fun executor =>
  let '(b, err) := EthereumClient.GetBatch (ethereumClient executor) nonce in
  match err with
  | Some e => Returns (Some e, executor)
  | None => Returns (None, set_batch executor b)
  end.

Definition WasTransferPerformedOnEthereum : method (bool * option error) := fun executor =>
  match batch executor with
  | None => Returns ((false, Some ErrNilBatch), executor)
  | Some b => Returns (EthereumClient.WasExecuted (ethereumClient executor) (ID b), executor)
  end.

(** The closing [BroadcastSignatureForMessageHash(hash)] acts on the client
    alone and leaves the executor as the assignment to [msgHash] has it. *)
Definition SignTransferOnEthereum : method (option error) := fun executor =>
  match batch executor with
  | None => Returns (Some ErrNilBatch, executor)
  | Some b =>
      let '(hash, err) := EthereumClient.GenerateMessageHash (ethereumClient executor) b in
      match err with
      | Some e => Returns (Some e, executor)
      | None => Returns (None, set_msgHash executor hash)
      end
  end.

Definition PerformTransferOnEthereum : method (option error) := fun executor =>
  match batch executor with
  | None => Returns (Some ErrNilBatch, executor)
  | Some b =>
      let '(quorumSize, err) := EthereumClient.GetQuorumSize (ethereumClient executor) in
      match err with
      | Some e => Returns (Some e, executor)
      | None =>
          (* [quorumSize.Int64()] dereferences the pointer *)
          match quorumSize with
          | None => Panics NilPointerDereference
          | Some size =>
              let '(hash, err') :=
                EthereumClient.ExecuteTransfer (ethereumClient executor)
                  (msgHash executor) b (I64.wrap size) in
              match err' with
              | Some e => Returns (Some e, executor)
              | None => Returns (None, executor)
              end
          end
      end
  end.

Definition IsQuorumReachedOnEthereum : method (bool * option error) := fun executor =>
  Returns (EthereumClient.IsQuorumReached (ethereumClient executor) (msgHash executor), executor).

Definition ProcessMaxRetriesOnEthereum : method bool := fun executor =>
  let maxNumberOfRetries :=
    EthereumClient.GetMaxNumberOfRetriesOnQuorumReached (ethereumClient executor) in
  if retriesOnEthereum executor <? maxNumberOfRetries
  then Returns (false, set_retriesOnEthereum executor (U64.add (retriesOnEthereum executor) 1))
  else Returns (true, executor).

Definition ResetRetriesCountOnEthereum : method unit := fun executor =>
  Returns (tt, set_retriesOnEthereum executor 0).

End WithPackageV2.

(** [n] successive calls of a method on the same executor, with the list of
    what they returned, oldest first. *)
Fixpoint calls {R : Type} (m : method R) (n : nat) (executor : bridgeExecutor)
  : go (list R * bridgeExecutor) :=
  match n with
  | O => Returns ([], executor)
  | S n' =>
      match m executor with
      | Panics p => Panics p
      | Returns (r, executor') =>
          match calls m n' executor' with
          | Panics p => Panics p
          | Returns (rs, executor'') => Returns (r :: rs, executor'')
          end
      end
  end.

(** *** Construction ([NewBridgeExecutor], [checkArgs], [createBridgeExecutor]) *)

Inductive argsError : Type :=
  | ErrNilLogger
  | ErrNilElrondClient
  | ErrNilEthereumClient
  | ErrNilTopologyProvider
  | ErrInvalidDuration.

(** The arguments: an interface value that may be [nil] is an [option]; the
    logger is known by its presence only; the duration is an [int64] of
    nanoseconds. *)
Record ArgsBridgeExecutor : Type := mkArgsBridgeExecutor {
  Log : option unit;
  ElrondClient : option ElrondClient.t;
  EthereumClient : option EthereumClient.t;
  TopologyProvider : option TopologyProvider.t;
  TimeForTransferExecution : Z
}.

Section WithDurationLimit.

(** [durationLimit] is declared outside the files at hand. *)
Variable durationLimit : Z.

Definition checkArgs (args : ArgsBridgeExecutor) : option argsError :=
  if check.IfNil (Log args) then Some ErrNilLogger
  else if check.IfNil (ElrondClient args) then Some ErrNilElrondClient
  else if check.IfNil (EthereumClient args) then Some ErrNilEthereumClient
  else if check.IfNil (TopologyProvider args) then Some ErrNilTopologyProvider
  else if TimeForTransferExecution args <? durationLimit then Some ErrInvalidDuration
  else None.

(** The fields the struct literal leaves out take their zero values: no
    batch, action ID 0, the zero hash (32 zero bytes), counters 0. *)
Definition createBridgeExecutor (elrond : ElrondClient.t) (ethereum : EthereumClient.t)
  (topologyHandler : TopologyProvider.t) : bridgeExecutor :=
  mkExecutor topologyHandler elrond ethereum None 0 (replicate 32 x00) 0 0.

Definition NewBridgeExecutor (args : ArgsBridgeExecutor)
  : option bridgeExecutor * option argsError :=
  match checkArgs args with
  | Some err => (None, Some err)
  | None =>
      match ElrondClient args, EthereumClient args, TopologyProvider args with
      | Some elrond, Some ethereum, Some topologyHandler =>
          (Some (createBridgeExecutor elrond ethereum topologyHandler), None)
      | _, _, _ => (None, None)
      end
  end.

End WithDurationLimit.

(** *** Sequences of calls on the retry counters *)

Inductive retryCall : Type :=
  | CallProcessMaxRetriesOnElrond
  | CallResetRetriesCountOnElrond
  | CallProcessMaxRetriesOnEthereum
  | CallResetRetriesCountOnEthereum.

(** The executor as a method leaves it. *)
Definition after {R : Type} (m : method R) (executor : bridgeExecutor) : bridgeExecutor :=
  match m executor with
  | Returns (_, executor') => executor'
  | Panics _ => executor
  end.

Definition afterRetryCall (executor : bridgeExecutor) (c : retryCall) : bridgeExecutor :=
  match c with
  | CallProcessMaxRetriesOnElrond => after ProcessMaxRetriesOnElrond executor
  | CallResetRetriesCountOnElrond => after ResetRetriesCountOnElrond executor
  | CallProcessMaxRetriesOnEthereum => after ProcessMaxRetriesOnEthereum executor
  | CallResetRetriesCountOnEthereum => after ResetRetriesCountOnEthereum executor
  end.

(** The calls that act on the Elrond counter. *)
Definition onElrond (c : retryCall) : bool :=
  match c with
  | CallProcessMaxRetriesOnElrond | CallResetRetriesCountOnElrond => true
  | _ => false
  end.

Definition afterRetryCalls (cs : list retryCall) (executor : bridgeExecutor) : bridgeExecutor :=
  foldl afterRetryCall executor cs.

(** How many times the budget of a chain was asked for since its counter was
    last reset (or since the beginning), in a sequence of calls. *)
Definition askedSinceReset (process reset : retryCall -> bool) (cs : list retryCall) : Z :=
  foldl (fun n c => if process c then n + 1 else if reset c then 0 else n) 0 cs.

Definition isProcessOnElrond (c : retryCall) : bool :=
  match c with CallProcessMaxRetriesOnElrond => true | _ => false end.
Definition isResetOnElrond (c : retryCall) : bool :=
  match c with CallResetRetriesCountOnElrond => true | _ => false end.
Definition isProcessOnEthereum (c : retryCall) : bool :=
  match c with CallProcessMaxRetriesOnEthereum => true | _ => false end.
Definition isResetOnEthereum (c : retryCall) : bool :=
  match c with CallResetRetriesCountOnEthereum => true | _ => false end.


(** A method that returns without changing the executor, whatever it is
    called on. *)
Definition leaves_unchanged {R : Type} (m : method R) : Prop :=
  forall executor, exists r, m executor = Returns (r, executor).

(** A method that, whenever it returns, has not changed the executor. *)
Definition keeps_executor {R : Type} (m : method R) : Prop :=
  forall executor r executor', m executor = Returns (r, executor') -> executor' = executor.

End bridge.

(** ** Leader topology ([bridges/ethElrond/topology/topologyHandler.go]) *)

Module topology.

Section WithSelector.

(** The hash of the selector, a deterministic function of the 64-bit seed;
    it is left arbitrary. *)
Variable hash : Z -> Z.

(** Modelled from the spec: the method [randomInt] of [hashRandomSelector] is
    declared outside the files at hand.  The specification (section 4.3)
    gives the index it returns as [hash(seed) mod N]. *)
Definition randomInt (seed max : Z) : Z := hash seed mod max.

(** The handler.  The providers are given by what they answer:
    [SortedPublicKeys] for the public keys provider, [NowUnix] (an [int64])
    for the timer.  [intervalForLeader] enters the computation only through
    [int64(t.intervalForLeader.Seconds())]; the field [intervalForLeaderSeconds]
    holds that [int64], the floating-point computation of [Seconds] being
    outside the embedding. *)
Record topologyHandler : Type := mkHandler {
  SortedPublicKeys : list bytes;
  NowUnix : Z;
  intervalForLeaderSeconds : Z;
  addressBytes : bytes
}.

(** [uint64(t.timer.NowUnix() / int64(t.intervalForLeader.Seconds()))]: a
    signed division truncated toward zero, then the conversion to [uint64]. *)
Definition leaderSeed (nowUnix seconds : Z) : Z := U64.wrap (I64.div nowUnix seconds).

Definition MyTurnAsLeader (t : topologyHandler) : go bool :=
  let sortedPublicKeys := SortedPublicKeys t in
  if (length sortedPublicKeys =? 0)%nat then Returns false
  else
    (* a length: the conversions to [int64] and to [uint64] leave it as it is *)
    let numberOfPeers := Z.of_nat (length sortedPublicKeys) in
    if intervalForLeaderSeconds t =? 0 then Panics IntegerDivideByZero
    else
      let seed := leaderSeed (NowUnix t) (intervalForLeaderSeconds t) in
      let index := randomInt seed numberOfPeers in
      match sortedPublicKeys !! Z.to_nat index with
      | None => Panics IndexOutOfRange
      | Some publicKey => Returns (bytes_Equal publicKey (addressBytes t))
      end.

End WithSelector.


(** *** Construction ([NewTopologyHandler], [checkArgs]) *)

Inductive argsError : Type :=
  | errNilPublicKeysProvider
  | errNilTimer
  | errInvalidIntervalForLeader
  | errEmptyAddress.

(** The arguments: a provider that may be [nil] is an [option] of what it
    answers; the interval is given by [int64(args.IntervalForLeader.Seconds())],
    as in the handler; a [nil] slice of address bytes is the empty list. *)
Record ArgsTopologyHandler : Type := mkArgsTopologyHandler {
  PublicKeysProvider : option (list bytes);
  Timer : option Z;
  IntervalForLeaderSeconds : Z;
  AddressBytes : bytes
}.

Definition checkArgs (args : ArgsTopologyHandler) : option argsError :=
  if bool_decide (PublicKeysProvider args = None) then Some errNilPublicKeysProvider
  else if check.IfNil (Timer args) then Some errNilTimer
  else if IntervalForLeaderSeconds args <=? 0 then Some errInvalidIntervalForLeader
  else if (length (AddressBytes args) =? 0)%nat then Some errEmptyAddress
  else None.

Definition NewTopologyHandler (args : ArgsTopologyHandler)
  : option topologyHandler * option argsError :=
  match checkArgs args with
  | Some err => (None, Some err)
  | None =>
      match PublicKeysProvider args, Timer args with
      | Some sortedPublicKeys, Some nowUnix =>
          (Some (mkHandler sortedPublicKeys nowUnix (IntervalForLeaderSeconds args)
                   (AddressBytes args)), None)
      | _, _ => (None, None)
      end
  end.

End topology.

(** ** State-machine steps

    The step sources are declared outside the files at hand; their unit
    tests ([TestExecute_ProposeSetStatus], [TestExecute_WaitForQuorumOnTransfer])
    are at hand and fix what each step answers for each behaviour of the
    executor it is given. *)

Module steps.

Inductive StepIdentifier : Type :=
  | GettingPendingBatchFromElrond
  | GettingPendingBatchFromEthereum
  | ProposingTransferOnElrond
  | SigningProposedTransferOnElrond
  | ProposingSetStatusOnElrond
  | SigningProposedSetStatusOnElrond
  | WaitingForQuorumOnTransfer
  | PerformingTransfer.

(** A step runs against an executor whose state it threads through the
    calls it makes. *)
Definition St (B A : Type) : Type := B -> A * B.

Definition ret {B A : Type} (a : A) : St B A := fun s => (a, s).

Definition bind {B A C : Type} (m : St B A) (k : A -> St B C) : St B C :=
  fun s => let '(a, s') := m s in k a s'.

Notation "x <- c1 ;; c2" := (bind c1 (fun x => c2))
  (at level 100, c1 at next level, right associativity).

(** The part of the executor interface that the steps below call. *)
Class Executor (B : Type) : Type := {
  GetStoredBatch : St B (option TransferBatch);
  WasTransferProposedOnElrond : St B (bool * option error);
  ProposeTransferOnElrond : St B (option error);
  WasSetStatusProposedOnElrond : St B (bool * option error);
  ProposeSetStatusOnElrond : St B (option error);
  MyTurnAsLeader : St B bool;
  ProcessMaxRetriesOnEthereum : St B bool;
  ProcessQuorumReachedOnEthereum : St B (bool * option error)
}.

(** Modelled from the spec: the propose-set-status step of the
    Elrond-to-Ethereum half-bridge (the source file of [proposeSetStatusStep]
    is not at hand).  Section 4.2 of the specification: if already proposed,
    skip ahead; else, if leader, submit the proposal; go to the signing step.
    The cases left open there (no stored batch, an error of either call, not
    the leader) are as [TestExecute_ProposeSetStatus] expects them. *)
Definition proposeSetStatusStep_Execute {B : Type} `{Executor B} : St B StepIdentifier :=
  batch <- GetStoredBatch ;;
  match batch with
  | None => ret GettingPendingBatchFromElrond
  | Some _ =>
      r <- WasSetStatusProposedOnElrond ;;
      let '(wasSetStatusProposed, err) := r in
      match err with
      | Some _ => ret GettingPendingBatchFromElrond
      | None =>
          if wasSetStatusProposed : bool then ret SigningProposedSetStatusOnElrond
          else
            leader <- MyTurnAsLeader ;;
            if negb leader then ret ProposingSetStatusOnElrond
            else
              err' <- ProposeSetStatusOnElrond ;;
              match err' with
              | Some _ => ret GettingPendingBatchFromElrond
              | None => ret SigningProposedSetStatusOnElrond
              end
      end
  end.

(** Modelled from the spec: the propose-transfer step of the
    Ethereum-to-Elrond half-bridge (the source file of [proposeTransferStep]
    is not at hand).  Section 4.2.1, step 2 of the specification: if already
    proposed, skip ahead; else, if leader, submit the proposal; go to the
    signing step.  The cases left open there are taken as in the
    propose-set-status step. *)
Definition proposeTransferStep_Execute {B : Type} `{Executor B} : St B StepIdentifier :=
  batch <- GetStoredBatch ;;
  match batch with
  | None => ret GettingPendingBatchFromEthereum
  | Some _ =>
      r <- WasTransferProposedOnElrond ;;
      let '(wasTransferProposed, err) := r in
      match err with
      | Some _ => ret GettingPendingBatchFromEthereum
      | None =>
          if wasTransferProposed : bool then ret SigningProposedTransferOnElrond
          else
            leader <- MyTurnAsLeader ;;
            if negb leader then ret ProposingTransferOnElrond
            else
              err' <- ProposeTransferOnElrond ;;
              match err' with
              | Some _ => ret GettingPendingBatchFromEthereum
              | None => ret SigningProposedTransferOnElrond
              end
      end
  end.

(** Modelled from the spec: the wait-for-quorum-on-transfer step of the
    Elrond-to-Ethereum half-bridge (the source file of
    [waitForQuorumOnTransferStep] is not at hand).  Section 4.2.1, step 4 of
    the specification: if quorum reached, go to the perform-transfer step;
    if the retry budget is exhausted, go to the initial step; else stay.
    The retry budget is consulted first, after section 4.2.3 (when quorum is
    reached after the budget is exhausted the half-bridge still returns to
    the initial step); an error of the quorum check leads to the initial
    step, as [TestExecute_WaitForQuorumOnTransfer] expects. *)
Definition waitForQuorumOnTransferStep_Execute {B : Type} `{Executor B}
  : St B StepIdentifier :=
  exhausted <- ProcessMaxRetriesOnEthereum ;;
  if exhausted : bool then ret GettingPendingBatchFromElrond
  else
    r <- ProcessQuorumReachedOnEthereum ;;
    let '(isQuorumReached, err) := r in
    match err with
    | Some _ => ret GettingPendingBatchFromElrond
    | None =>
        if negb isQuorumReached then ret WaitingForQuorumOnTransfer
        else ret PerformingTransfer
    end.

(** *** Observing the calls of a step *)

Inductive call : Type :=
  | CallGetStoredBatch (r : option TransferBatch)
  | CallWasTransferProposedOnElrond (r : bool * option error)
  | CallProposeTransferOnElrond (r : option error)
  | CallWasSetStatusProposedOnElrond (r : bool * option error)
  | CallProposeSetStatusOnElrond (r : option error)
  | CallMyTurnAsLeader (r : bool)
  | CallProcessMaxRetriesOnEthereum (r : bool)
  | CallProcessQuorumReachedOnEthereum (r : bool * option error).

(** An executor together with the journal of the calls made on it and of
    what each returned, oldest first. *)
Definition logged {B R : Type} (tag : R -> call) (m : St B R) : St (B * list call) R :=
  fun '(s, journal) => let '(r, s') := m s in (r, (s', journal ++ [tag r])).

#[global] Instance traced (B : Type) `{Executor B} : Executor (B * list call) := {|
  GetStoredBatch := logged CallGetStoredBatch GetStoredBatch;
  WasTransferProposedOnElrond := logged CallWasTransferProposedOnElrond WasTransferProposedOnElrond;
  ProposeTransferOnElrond := logged CallProposeTransferOnElrond ProposeTransferOnElrond;
  WasSetStatusProposedOnElrond := logged CallWasSetStatusProposedOnElrond WasSetStatusProposedOnElrond;
  ProposeSetStatusOnElrond := logged CallProposeSetStatusOnElrond ProposeSetStatusOnElrond;
  MyTurnAsLeader := logged CallMyTurnAsLeader MyTurnAsLeader;
  ProcessMaxRetriesOnEthereum := logged CallProcessMaxRetriesOnEthereum ProcessMaxRetriesOnEthereum;
  ProcessQuorumReachedOnEthereum := logged CallProcessQuorumReachedOnEthereum ProcessQuorumReachedOnEthereum
|}.

(** The journal of one execution of a step from the executor state [s]. *)
Definition journal_of {B : Type} `{Executor B}
  (step : St (B * list call) StepIdentifier) (s : B) : list call :=
  snd (snd (step (s, []))).

Definition next_of {B : Type} `{Executor B}
  (step : St (B * list call) StepIdentifier) (s : B) : StepIdentifier :=
  fst (step (s, [])).

(** The executor stub of the unit tests: every method answers a fixed value. *)
Record BridgeExecutorStub : Type := mkStub {
  GetStoredBatchCalled : option TransferBatch;
  WasTransferProposedOnElrondCalled : bool * option error;
  ProposeTransferOnElrondCalled : option error;
  WasSetStatusProposedOnElrondCalled : bool * option error;
  ProposeSetStatusOnElrondCalled : option error;
  MyTurnAsLeaderCalled : bool;
  ProcessMaxRetriesOnEthereumCalled : bool;
  ProcessQuorumReachedOnEthereumCalled : bool * option error
}.

#[global] Instance stub_executor : Executor BridgeExecutorStub := {|
  GetStoredBatch := fun s => (GetStoredBatchCalled s, s);
  WasTransferProposedOnElrond := fun s => (WasTransferProposedOnElrondCalled s, s);
  ProposeTransferOnElrond := fun s => (ProposeTransferOnElrondCalled s, s);
  WasSetStatusProposedOnElrond := fun s => (WasSetStatusProposedOnElrondCalled s, s);
  ProposeSetStatusOnElrond := fun s => (ProposeSetStatusOnElrondCalled s, s);
  MyTurnAsLeader := fun s => (MyTurnAsLeaderCalled s, s);
  ProcessMaxRetriesOnEthereum := fun s => (ProcessMaxRetriesOnEthereumCalled s, s);
  ProcessQuorumReachedOnEthereum := fun s => (ProcessQuorumReachedOnEthereumCalled s, s)
|}.

End steps.

(** ** Signature broadcaster ([relay/p2p/broadcaster.go]) *)

Module p2p.

Definition joinTopicName : string := "join/1".
Definition signTopicName : string := "sign/1".

Record SignedMessage : Type := mkSignedMessage {
  Payload : bytes;
  PublicKeyBytes : bytes;
  Signature : bytes;
  Nonce : Z
}.

(** What the messenger hands to the processor: [Data()], [Topic()], [Peer()]. *)
Record MessageP2P : Type := mkMessage {
  Data : bytes;
  Topic : string;
  Peer : string
}.

(** One call of [messenger.SendToConnectedPeer(topic, buff, peerId)]. *)
Record sendCall : Type := mkSend {
  sendTopic : string;
  sendBuff : bytes;
  sendPeer : string
}.

(** The mutable state reached from a broadcaster: the signatures holder
    (senders that joined, stored signed messages keyed by the sender's public
    key), the tracker of the last accepted nonce of each (sender, topic)
    pair, and the calls made on the messenger, oldest first. *)
Record broadcaster : Type := mkBroadcaster {
  publicKeys : gset bytes;
  signedMessages : gmap bytes SignedMessage;
  nonces : gmap (bytes * string) Z;
  sendCalls : list sendCall
}.

Definition byte_of_Z (z : Z) : byte :=
  default x00 (Byte.of_N (Z.to_N (z mod 256))).

(** [binary.BigEndian.PutUint64] *)
Definition PutUint64 (n : Z) : bytes :=
  map (fun i => byte_of_Z (Z.shiftr n (8 * i))) [7; 6; 5; 4; 3; 2; 1; 0].

Section WithCollaborators.

(** The collaborators, given by what they answer: the marshalizer, the
    single signer's verification (public key, message, signature), the role
    provider and the messenger's answer to a send. *)
Variable Unmarshal : bytes -> SignedMessage + error.
Variable Marshal : SignedMessage -> bytes * option error.
Variable Verify : bytes -> bytes -> bytes -> bool.
Variable IsWhitelisted : bytes -> bool.
Variable SendToConnectedPeer_answer : string -> bytes -> string -> option error.

(** Modelled from the spec: [preProcessMessage] is declared outside the files
    at hand.  Section 4.4 and the SignedMessage invariant of section 3:
    deserialise; verify the signature over (payload, nonce) under the
    declared public key; reject a nonce that is not strictly greater than the
    last accepted from that (sender, topic) pair.  It reads the state and
    leaves it as it is. *)
Definition preProcessMessage (message : MessageP2P) (b : broadcaster)
  : SignedMessage + error :=
  match Unmarshal (Data message) with
  | inr e => inr e
  | inl msg =>
      if negb (Verify (PublicKeyBytes msg) (Payload msg ++ PutUint64 (Nonce msg))
                 (Signature msg))
      then inr ErrInvalidSignature
      else
        match nonces b !! (PublicKeyBytes msg, Topic message) with
        | Some lastAccepted =>
            if Nonce msg <=? lastAccepted then inr ErrNonceNotGreater else inl msg
        | None => inl msg
        end
  end.

(** Modelled from the spec: [addJoinedMessage] is declared outside the files
    at hand.  Section 4.4, join: record the sender; the nonce becomes the
    last accepted one of the (sender, join) pair. *)
Definition addJoinedMessage (msg : SignedMessage) (b : broadcaster) : broadcaster :=
  mkBroadcaster ({[ PublicKeyBytes msg ]} ∪ publicKeys b) (signedMessages b)
    (<[ (PublicKeyBytes msg, joinTopicName) := Nonce msg ]> (nonces b)) (sendCalls b).

(** Modelled from the spec: [addSignedMessage] is declared outside the files
    at hand.  Section 4.4, sign: insert the message into the signature set,
    overwriting any prior one from the same sender; the nonce becomes the
    last accepted one of the (sender, sign) pair. *)
Definition addSignedMessage (msg : SignedMessage) (b : broadcaster) : broadcaster :=
  mkBroadcaster (publicKeys b) (<[ PublicKeyBytes msg := msg ]> (signedMessages b))
    (<[ (PublicKeyBytes msg, signTopicName) := Nonce msg ]> (nonces b)) (sendCalls b).

(** Modelled from the spec: [storedSignedMessages] is declared outside the
    files at hand; it lists the signed messages currently stored (in the
    order of the map's enumeration). *)
Definition storedSignedMessages (b : broadcaster) : list SignedMessage :=
  (map_to_list (signedMessages b)).*2.

(** The messenger: the call is journaled, and answered as the collaborator
    answers it. *)
Definition SendToConnectedPeer (topic : string) (buff : bytes) (peerId : string)
  (b : broadcaster) : option error * broadcaster :=
  (SendToConnectedPeer_answer topic buff peerId,
   mkBroadcaster (publicKeys b) (signedMessages b) (nonces b)
     (sendCalls b ++ [mkSend topic buff peerId])).

Definition sendSignedMessageToPeer (msg : SignedMessage) (peerId : string)
  (b : broadcaster) : option error * broadcaster :=
  let '(buff, err) := Marshal msg in
  match err with
  | Some e => (Some e, b)
  | None => SendToConnectedPeer signTopicName buff peerId b
  end.

(** The [for ... range signedMessages] loop: an error of a send is logged and
    the loop goes on. *)
Fixpoint broadcastCurrentSignatures_loop (stored : list SignedMessage) (peerId : string)
  (b : broadcaster) : broadcaster :=
  match stored with
  | [] => b
  | msg :: rest =>
      let '(err, b') := sendSignedMessageToPeer msg peerId b in
      broadcastCurrentSignatures_loop rest peerId b'
  end.

(** The send call that a stored message gives rise to in that loop: none
    when its marshalling fails. *)
Definition sendOf (peerId : string) (msg : SignedMessage) : option sendCall :=
  match Marshal msg with
  | (buff, None) => Some (mkSend signTopicName buff peerId)
  | (_, Some _) => None
  end.

Definition broadcastCurrentSignatures (peerId : string) (b : broadcaster)
  : option error * broadcaster :=
  let stored := storedSignedMessages b in
  (None, broadcastCurrentSignatures_loop stored peerId b).

Definition ProcessReceivedMessage (message : MessageP2P) (b : broadcaster)
  : option error * broadcaster :=
  match preProcessMessage message b with
  | inr err => (Some err, b)
  | inl msg =>
      if negb (IsWhitelisted (PublicKeyBytes msg))
      then (Some (ErrPeerNotWhitelisted (PublicKeyBytes msg)), b)
      else
        if String.eqb (Topic message) joinTopicName then
          let b1 := addJoinedMessage msg b in
          let '(err, b2) := broadcastCurrentSignatures (Peer message) b1 in
          (None, b2)
        else if String.eqb (Topic message) signTopicName then
          (None, addSignedMessage msg b)
        else (None, b)
  end.

End WithCollaborators.

(** *** [RegisterOnTopics] *)

Definition defaultTopicIdentifier : string := "default".

(** The calls [RegisterOnTopics] makes on the messenger. *)
Inductive messengerCall : Type :=
  | CallCreateTopic (name : string) (createChannelForTopic : bool)
  | CallRegisterMessageProcessor (topic identifier : string).

Section WithMessenger.

(** The messenger, given by what it answers to a call after the calls made
    on it so far (it may keep state, for instance the topics created). *)
Variable CreateTopic_answer : list messengerCall -> string -> bool -> option error.
Variable RegisterMessageProcessor_answer
  : list messengerCall -> string -> string -> option error.

Definition answerTo (journal : list messengerCall) (c : messengerCall) : option error :=
  match c with
  | CallCreateTopic name createChannelForTopic =>
      CreateTopic_answer journal name createChannelForTopic
  | CallRegisterMessageProcessor topic identifier =>
      RegisterMessageProcessor_answer journal topic identifier
  end.

(** The [for _, topic := range topics] loop, on the journal of the calls
    made so far, oldest first. *)
Fixpoint RegisterOnTopics_loop (topics : list string) (journal : list messengerCall)
  : option error * list messengerCall :=
  match topics with
  | [] => (None, journal)
  | topic :: rest =>
      let created := journal ++ [CallCreateTopic topic true] in
      match CreateTopic_answer journal topic true with
      | Some err => (Some err, created)
      | None =>
          let registered :=
            created ++ [CallRegisterMessageProcessor topic defaultTopicIdentifier] in
          match RegisterMessageProcessor_answer created topic defaultTopicIdentifier with
          | Some err => (Some err, registered)
          | None => RegisterOnTopics_loop rest registered
          end
      end
  end.

Definition RegisterOnTopics (journal : list messengerCall)
  : option error * list messengerCall :=
  let topics := [joinTopicName; signTopicName] in
  RegisterOnTopics_loop topics journal.

End WithMessenger.

(** The calls of a complete registration, in order. *)
Definition registrationCalls : list messengerCall :=
  [CallCreateTopic joinTopicName true;
   CallRegisterMessageProcessor joinTopicName defaultTopicIdentifier;
   CallCreateTopic signTopicName true;
   CallRegisterMessageProcessor signTopicName defaultTopicIdentifier].

End p2p.

(** ** Batch processor ([core/batchProcessor/batchProcessor.go]) *)

Module batchProcessor.

(** *** Heap accesses *)

(** The bytes a slice header denotes. *)
Definition read_slice (h : heap) (s : slice) : bytes :=
  take (sl_len s) (drop (sl_off s) (default [] (h_bytes h !! sl_array s))).

(** [s[i] = v] *)
Definition write_slice (s : slice) (i : nat) (v : byte) (h : heap) : go heap :=
  if (i <? sl_len s)%nat
  then Returns (mkHeap (alter (fun a => <[ (sl_off s + i)%nat := v ]> a) (sl_array s) (h_bytes h))
                  (h_bigint h))
  else Panics IndexOutOfRange.

Definition bigint_get (h : heap) (x : loc) : Z := default 0 (h_bigint h !! x).

(** Allocation of a [big.Int] holding [v]: a location that is not in use. *)
Definition bigint_new (v : Z) (h : heap) : loc * heap :=
  let x := fresh (dom (h_bigint h)) in
  (x, mkHeap (h_bytes h) (<[ x := v ]> (h_bigint h))).

(** [x.Set(v)] on an allocated [big.Int] *)
Definition bigint_set (x : loc) (v : Z) (h : heap) : heap :=
  mkHeap (h_bytes h) (<[ x := v ]> (h_bigint h)).

(** *** [common.Address] and [common.BytesToAddress] (go-ethereum)

    An address is an array of 20 bytes, a value.  [BytesToAddress] keeps the
    last 20 bytes of a longer input and pads a shorter one with zeros on the
    left. *)
Definition AddressLength : nat := 20.

Definition BytesToAddress (b : bytes) : bytes :=
  let b' := if (AddressLength <? length b)%nat then drop (length b - AddressLength) b else b in
  replicate (AddressLength - length b') x00 ++ b'.

(** *** [ExtractList] *)

Record ArgListsBatch : Type := mkArgs {
  Tokens : list bytes;
  Recipients : list bytes;
  ConvertedTokenBytes : list slice;
  Amounts : list loc;
  Nonces : list loc
}.

Definition emptyArgs : ArgListsBatch := mkArgs [] [] [] [] [].

(** The body of the [for ... range batch.Deposits] loop, in the order of the
    source; [big.NewInt(0).Set(dt.Amount)] dereferences [dt.Amount]. *)
Fixpoint ExtractList_loop (deposits : list DepositTransfer) (arg : ArgListsBatch) (h : heap)
  : go (ArgListsBatch * heap) :=
  match deposits with
  | [] => Returns (arg, h)
  | dt :: rest =>
      let recipient := BytesToAddress (read_slice h (ToBytes dt)) in
      let token := BytesToAddress (read_slice h (clients.ConvertedTokenBytes dt)) in
      match Amount dt with
      | None => Panics NilPointerDereference
      | Some x =>
          let '(amount, h1) := bigint_new (bigint_get h x) h in
          let '(nonce, h2) := bigint_new (clients.Nonce dt) h1 in
          ExtractList_loop rest
            (mkArgs (Tokens arg ++ [token])
                    (Recipients arg ++ [recipient])
                    (ConvertedTokenBytes arg ++ [clients.ConvertedTokenBytes dt])
                    (Amounts arg ++ [amount])
                    (Nonces arg ++ [nonce]))
            h2
      end
  end.

Definition ExtractList (batch : option TransferBatch) (h : heap)
  : go ((ArgListsBatch * option error) * heap) :=
  match batch with
  | None => Panics NilPointerDereference
  | Some b =>
      match ExtractList_loop (Deposits b) emptyArgs h with
      | Panics p => Panics p
      | Returns (arg, h') => Returns ((arg, None), h')
      end
  end.

(** The addresses that the loop computes for a list of deposits. *)
Definition recipients_of (h : heap) (deposits : list DepositTransfer) : list bytes :=
  (fun dt => BytesToAddress (read_slice h (ToBytes dt))) <$> deposits.

Definition tokens_of (h : heap) (deposits : list DepositTransfer) : list bytes :=
  (fun dt => BytesToAddress (read_slice h (clients.ConvertedTokenBytes dt))) <$> deposits.

(** *** What a batch holds, and writes through a result *)

Definition amount_allocated (h : heap) (dt : DepositTransfer) : Prop :=
  exists x, Amount dt = Some x /\ x ∈ dom (h_bigint h).

(** Every [Amount] of the batch points to an allocated [big.Int]. *)
Definition amounts_allocated (h : heap) (b : TransferBatch) : Prop :=
  Forall (amount_allocated h) (Deposits b).

(** A deposit as the heap shows it. *)
Record depositView : Type := mkView {
  viewNonce : Z;
  viewTo : bytes;
  viewConvertedToken : bytes;
  viewAmount : option Z
}.

Definition view_deposit (h : heap) (dt : DepositTransfer) : depositView :=
  mkView (clients.Nonce dt) (read_slice h (ToBytes dt))
         (read_slice h (clients.ConvertedTokenBytes dt))
         (y ← Amount dt; h_bigint h !! y).

Definition view_batch (h : heap) (b : TransferBatch) : list depositView :=
  view_deposit h <$> Deposits b.

(** A fresh [big.Int] for a deposit: not in use before the call, and
    holding the given value after it. *)
Definition fresh_holding (h h' : heap) (value : DepositTransfer -> option Z)
  (dt : DepositTransfer) (x : loc) : Prop :=
  (x ∉ dom (h_bigint h)) /\ (h_bigint h' !! x = value dt).

Definition amount_in (h : heap) (dt : DepositTransfer) : option Z :=
  y ← Amount dt; h_bigint h !! y.

Definition nonce_of (dt : DepositTransfer) : option Z := Some (clients.Nonce dt).

(** The writes a holder of the result can make through it. *)
Inductive mutation : Type :=
  | SetAmount (i : nat) (v : Z)
  | SetNonce (i : nat) (v : Z)
  | SetRecipientByte (i j : nat) (v : byte)
  | SetTokenByte (i j : nat) (v : byte)
  | SetConvertedTokenByte (i j : nat) (v : byte).

Definition set_address_byte (addrs : list bytes) (i j : nat) (v : byte) : go (list bytes) :=
  match addrs !! i with
  | None => Panics IndexOutOfRange
  | Some a =>
      if (j <? length a)%nat then Returns (<[ i := <[ j := v ]> a ]> addrs)
      else Panics IndexOutOfRange
  end.

Definition mutate (m : mutation) (arg : ArgListsBatch) (h : heap) : go (ArgListsBatch * heap) :=
  match m with
  | SetAmount i v =>
      match Amounts arg !! i with
      | None => Panics IndexOutOfRange
      | Some x => Returns (arg, bigint_set x v h)
      end
  | SetNonce i v =>
      match Nonces arg !! i with
      | None => Panics IndexOutOfRange
      | Some x => Returns (arg, bigint_set x v h)
      end
  | SetRecipientByte i j v =>
      match set_address_byte (Recipients arg) i j v with
      | Panics p => Panics p
      | Returns rs =>
          Returns (mkArgs (Tokens arg) rs (ConvertedTokenBytes arg) (Amounts arg) (Nonces arg), h)
      end
  | SetTokenByte i j v =>
      match set_address_byte (Tokens arg) i j v with
      | Panics p => Panics p
      | Returns ts =>
          Returns (mkArgs ts (Recipients arg) (ConvertedTokenBytes arg) (Amounts arg) (Nonces arg), h)
      end
  | SetConvertedTokenByte i j v =>
      match ConvertedTokenBytes arg !! i with
      | None => Panics IndexOutOfRange
      | Some s =>
          match write_slice s j v h with
          | Panics p => Panics p
          | Returns h' => Returns (arg, h')
          end
      end
  end.

Definition writes_converted_token (m : mutation) : bool :=
  match m with SetConvertedTokenByte _ _ _ => true | _ => false end.

(** *** [ExtractList] on the deposits as pointers

    [batch.Deposits] is a slice of pointers to deposits.  In
    [clients.TransferBatch] the deposits stand for themselves; here every
    element of the slice may be [nil], and the loop dereferences each one it
    comes to ([dt.ToBytes] is its first access). *)
Record TransferBatchOfPointers : Type := mkBatchOfPointers {
  BatchID : Z;
  DepositPointers : list (option DepositTransfer);
  BatchStatuses : bytes
}.

(** A batch none of whose deposit pointers is [nil]. *)
Definition pointersTo (b : TransferBatch) : TransferBatchOfPointers :=
  mkBatchOfPointers (ID b) (Some <$> Deposits b) (Statuses b).

Fixpoint ExtractList_loop_onPointers (deposits : list (option DepositTransfer))
  (arg : ArgListsBatch) (h : heap) : go (ArgListsBatch * heap) :=
  match deposits with
  | [] => Returns (arg, h)
  | None :: _ => Panics NilPointerDereference
  | Some dt :: rest =>
      let recipient := BytesToAddress (read_slice h (ToBytes dt)) in
      let token := BytesToAddress (read_slice h (clients.ConvertedTokenBytes dt)) in
      match Amount dt with
      | None => Panics NilPointerDereference
      | Some x =>
          let '(amount, h1) := bigint_new (bigint_get h x) h in
          let '(nonce, h2) := bigint_new (clients.Nonce dt) h1 in
          ExtractList_loop_onPointers rest
            (mkArgs (Tokens arg ++ [token])
                    (Recipients arg ++ [recipient])
                    (ConvertedTokenBytes arg ++ [clients.ConvertedTokenBytes dt])
                    (Amounts arg ++ [amount])
                    (Nonces arg ++ [nonce]))
            h2
      end
  end.

Definition ExtractList_onPointers (batch : option TransferBatchOfPointers) (h : heap)
  : go ((ArgListsBatch * option error) * heap) :=
  match batch with
  | None => Panics NilPointerDereference
  | Some b =>
      match ExtractList_loop_onPointers (DepositPointers b) emptyArgs h with
      | Panics p => Panics p
      | Returns (arg, h') => Returns ((arg, None), h')
      end
  end.

(** What makes the loop dereference a [nil] pointer: a deposit that is
    [nil], or a deposit whose amount is. *)
Definition holds_nil (deposits : list (option DepositTransfer)) : Prop :=
  None ∈ deposits \/ exists dt, Some dt ∈ deposits /\ Amount dt = None.

End batchProcessor.

(** ** Display of a batch and parsing of a partial migration (package [ethereum]) *)

Module ethereum.

(** What ends a call here: a run-time panic, or the panic of
    [strings.Repeat] on a negative count. *)
Inductive fault : Type :=
  | Runtime (p : panic)
  | NegativeRepeatCount.

Inductive outcome (A : Type) : Type :=
  | Value (a : A)
  | Fault (f : fault).
Arguments Value {A} a.
Arguments Fault {A} f.

(** [len] of a string: its number of bytes, an [int]. *)
Definition len (s : string) : Z := Z.of_nat (String.length s).

(** [strings.Split(s, sep)] for a separator of one byte, as the callers here
    use it. *)
Fixpoint Split (s : string) (sep : Ascii.ascii) : list string :=
  match s with
  | EmptyString => [EmptyString]
  | String c rest =>
      if Ascii.eqb c sep then EmptyString :: Split rest sep
      else
        match Split rest sep with
        | first :: others => String c first :: others
        | [] => [String c EmptyString]
        end
  end.

Fixpoint repeated (s : string) (count : nat) : string :=
  match count with
  | O => EmptyString
  | S n => s +:+ repeated s n
  end.

(** [strings.Repeat] panics on a negative count. *)
Definition Repeat (s : string) (count : Z) : outcome string :=
  if count <? 0 then Fault NegativeRepeatCount else Value (repeated s (Z.to_nat count)).

(** [strings.Join] *)
Fixpoint Join (elems : list string) (sep : string) : string :=
  match elems with
  | [] => EmptyString
  | [e] => e
  | e :: rest => e +:+ sep +:+ Join rest sep
  end.

(** The fields of [DepositInfo] that the display reads. *)
Record DepositInfo : Type := mkDepositInfo {
  Token : string;
  DenominatedAmountString : string
}.

(** [DepositsInfo] is a slice of pointers, each of which may be [nil]. *)
Record BatchInfo : Type := mkBatchInfo {
  DepositsInfo : list (option DepositInfo)
}.

Definition integerIndex : nat := 0.
(** The byte of ["."]. *)
Definition decimalSeparator : Ascii.ascii := Ascii.ascii_of_nat 46.

(** What the first loop computes: [maxTokenLen], [maxIntegerValueLen] and
    [tokenIntegerSpace]. *)
Record measures : Type := mkMeasures {
  maxTokenLen : Z;
  maxIntegerValueLen : Z;
  tokenIntegerSpace : gmap string Z
}.

Fixpoint measure_loop (deposits : list (option DepositInfo)) (m : measures)
  : outcome measures :=
  match deposits with
  | [] => Value m
  | None :: _ => Fault (Runtime NilPointerDereference)
  | Some deposit :: rest =>
      let maxTokenLen' :=
        if len (Token deposit) >? maxTokenLen m then len (Token deposit)
        else maxTokenLen m in
      let valueParts := Split (DenominatedAmountString deposit) decimalSeparator in
      match valueParts !! integerIndex with
      | None => Fault (Runtime IndexOutOfRange)
      | Some integerPart =>
          let maxIntegerValueLen' :=
            if len integerPart >? maxIntegerValueLen m then len integerPart
            else maxIntegerValueLen m in
          measure_loop rest
            (mkMeasures maxTokenLen' maxIntegerValueLen'
               (<[ Token deposit := len integerPart ]> (tokenIntegerSpace m)))
      end
  end.

(** [fmt.Sprintf(" %s: %s%s", token, spaceRequired, amount)] *)
Definition tokenInfo (token spaceRequired amount : string) : string :=
  " " +:+ token +:+ ": " +:+ spaceRequired +:+ amount.

(** The second loop; a key that is missing from the map reads as 0. *)
Fixpoint format_loop (deposits : list (option DepositInfo)) (m : measures)
  (tokens : list string) : outcome (list string) :=
  match deposits with
  | [] => Value tokens
  | None :: _ => Fault (Runtime NilPointerDereference)
  | Some deposit :: rest =>
      match Repeat " " (maxTokenLen m - len (Token deposit) + maxIntegerValueLen m
                        - default 0 (tokenIntegerSpace m !! Token deposit)) with
      | Fault f => Fault f
      | Value spaceRequired =>
          format_loop rest m
            (tokens ++ [tokenInfo (Token deposit) spaceRequired
                          (DenominatedAmountString deposit)])
      end
  end.

(** The lines of the display, before they are joined. *)
Definition tokensBalancesLines (batchInfo : option BatchInfo) : outcome (list string) :=
  match batchInfo with
  | None => Fault (Runtime NilPointerDereference)
  | Some info =>
      match measure_loop (DepositsInfo info) (mkMeasures 0 0 ∅) with
      | Fault f => Fault f
      | Value m => format_loop (DepositsInfo info) m []
      end
  end.

(** ["\n"] *)
Definition newline : string := String (Ascii.ascii_of_nat 10) EmptyString.

Definition TokensBalancesDisplayString (batchInfo : option BatchInfo) : outcome string :=
  match tokensBalancesLines batchInfo with
  | Fault f => Fault f
  | Value tokens => Value (Join tokens newline)
  end.

(** The measures are wide enough for the spaces they have seen. *)
Definition measures_cover (m : measures) : Prop :=
  forall t v, tokenIntegerSpace m !! t = Some v -> 0 <= v <= maxIntegerValueLen m.

(** The part of an amount before its first decimal separator. *)
Definition integerPartOf (deposit : DepositInfo) : string :=
  default EmptyString (Split (DenominatedAmountString deposit) decimalSeparator !! integerIndex).

(** *** [ConvertPartialMigrationStringToMap] *)

(** The bytes of [","] and [":"]. *)
Definition partsSeparator : Ascii.ascii := Ascii.ascii_of_nat 44.
Definition tokenAmountSeparator : Ascii.ascii := Ascii.ascii_of_nat 58.

(** The cutset [" \t\n"] of the call of [strings.Trim]. *)
Definition inCutset (c : Ascii.ascii) : bool :=
  let n := Ascii.nat_of_ascii c in
  (n =? 32)%nat || (n =? 9)%nat || (n =? 10)%nat.

Fixpoint TrimLeft (s : string) : string :=
  match s with
  | EmptyString => EmptyString
  | String c rest => if inCutset c then TrimLeft rest else s
  end.

Fixpoint TrimRight (s : string) : string :=
  match s with
  | EmptyString => EmptyString
  | String c rest =>
      match TrimRight rest with
      | EmptyString => if inCutset c then EmptyString else String c EmptyString
      | rest' => String c rest'
      end
  end.

(** [strings.Trim(s, " \t\n")] *)
Definition Trim (s : string) : string := TrimRight (TrimLeft s).

(** The two errors, both wrapping [errInvalidPartialMigrationString], with
    the part they name. *)
Inductive migrationError : Type :=
  | InvalidFormat (part : string)
  | NotANumber (part : string).

(** How a conversion ends: with the map, with one of the two errors, or
    with the panic of [big.Float.Add] ([big.ErrNaN]). *)
Inductive conversion (Float : Type) : Type :=
  | Converted (partialMap : gmap string Float)
  | Refused (err : migrationError)
  | PanicsErrNaN.
Arguments Converted {Float} partialMap.
Arguments Refused {Float} err.
Arguments PanicsErrNaN {Float}.

Section WithBigFloat.

(** [big.Float] and the three operations used on it, given by their results:
    [big.NewFloat(0).SetString(s)] with its [ok] (it reads infinities as
    well as numbers), [big.NewFloat(0).Set(x)], and [z.Add(z, y)], which
    panics when the sum is not a number (infinities of opposite signs): that
    is [None]. *)
Variable Float : Type.
Variable SetString : string -> option Float.
Variable SetCopy : Float -> Float.
Variable Add : Float -> Float -> option Float.

(** The [for _, part := range parts] loop. *)
Fixpoint convert_loop (parts : list string) (partialMap : gmap string Float)
  : conversion Float :=
  match parts with
  | [] => Converted partialMap
  | part :: rest =>
      let part := Trim part in
      let splt := Split part tokenAmountSeparator in
      if negb (length splt =? 2)%nat then Refused (InvalidFormat part)
      else
        match splt !! 1%nat, splt !! 0%nat with
        | Some amountString, Some token =>
            match SetString amountString with
            | None => Refused (NotANumber part)
            | Some amount =>
                match partialMap !! token with
                | None => convert_loop rest (<[ token := SetCopy amount ]> partialMap)
                | Some current =>
                    match Add current amount with
                    | None => PanicsErrNaN
                    | Some sum => convert_loop rest (<[ token := sum ]> partialMap)
                    end
                end
            end
        | _, _ => Refused (InvalidFormat part)
        end
  end.

Definition ConvertPartialMigrationStringToMap (partialMigration : string)
  : conversion Float :=
  let parts := Split partialMigration partsSeparator in
  convert_loop parts ∅.

(** What one part stands for: a token and an amount, or the error it
    raises. *)
Definition readPart (part : string) : (string * Float) + migrationError :=
  match Split (Trim part) tokenAmountSeparator with
  | [token; amountString] =>
      match SetString amountString with
      | Some amount => inl (token, amount)
      | None => inr (NotANumber (Trim part))
      end
  | _ => inr (InvalidFormat (Trim part))
  end.

(** The amounts of a token, in order, among the parts read. *)
Definition amountsOf (token : string) (entries : list (string * Float)) : list Float :=
  (filter (fun entry => entry.1 = token) entries).*2.

(** Amounts added one after the other to a current value: [None] when one
    of the sums is not a number. *)
Fixpoint addAll (current : Float) (amounts : list Float) : option Float :=
  match amounts with
  | [] => Some current
  | amount :: rest =>
      match Add current amount with
      | None => None
      | Some sum => addAll sum rest
      end
  end.

(** The amounts of a token added up as the loop does it, on top of what the
    map holds for it: [None] when one of the sums is not a number, [Some None]
    when there is nothing to add up. *)
Definition addedUp (current : option Float) (amounts : list Float)
  : option (option Float) :=
  match current, amounts with
  | Some c, _ => Some <$> addAll c amounts
  | None, [] => Some None
  | None, a :: rest => Some <$> addAll (SetCopy a) rest
  end.

(** The entries read, put into a map one after the other. *)
Fixpoint addEntries (entries : list (string * Float)) (partialMap : gmap string Float)
  : option (gmap string Float) :=
  match entries with
  | [] => Some partialMap
  | (token, amount) :: rest =>
      match partialMap !! token with
      | None => addEntries rest (<[ token := SetCopy amount ]> partialMap)
      | Some current =>
          match Add current amount with
          | None => None
          | Some sum => addEntries rest (<[ token := sum ]> partialMap)
          end
      end
  end.

(** Every token's amounts add up to a number. *)
Definition addsUp (entries : list (string * Float)) : Prop :=
  forall token, addedUp None (amountsOf token entries) <> None.

(** Some token's amounts do not. *)
Definition addsToNaN (entries : list (string * Float)) : Prop :=
  exists token, addedUp None (amountsOf token entries) = None.

End WithBigFloat.

End ethereum.

(** ** Starting and closing the bridge components (package [factory]) *)

Module factory.

(** The calls that [Start] and [Close] make on the sub-components; polling
    handlers and closable components are told apart by a number. *)
Inductive event : Type :=
  | Bootstrap
  | Sleep (d : Z)
  | RegisterOnTopics
  | BroadcastJoinTopic
  | StartProcessingLoop (pollingHandler : nat)
  | GoBroadcastJoinRetriesLoop
  | CancelFunc
  | CloseCall (closable : nat).

(** The fields of the components that [Start] and [Close] read: a closable
    component may be [nil]; [cancelFunc] is known by whether it is set. *)
Record ethElrondBridgeComponents : Type := mkComponents {
  timeForBootstrap : Z;
  pollingHandlers : list nat;
  closableHandlers : list (option nat);
  cancelFunc : bool
}.

Section WithSubComponents.

(** What a sub-component answers to a call that returns an error, after the
    calls made so far. *)
Variable answer : list event -> event -> option error.

(** The answer to any call: those without a result answer nothing. *)
Definition answerTo (journal : list event) (call : event) : option error :=
  match call with
  | Bootstrap | RegisterOnTopics | StartProcessingLoop _ | CloseCall _ => answer journal call
  | Sleep _ | BroadcastJoinTopic | GoBroadcastJoinRetriesLoop | CancelFunc => None
  end.

Fixpoint startPollingHandlers_loop (handlers : list nat) (journal : list event)
  : option error * list event :=
  match handlers with
  | [] => (None, journal)
  | pollingHandler :: rest =>
      let journal' := journal ++ [StartProcessingLoop pollingHandler] in
      match answer journal (StartProcessingLoop pollingHandler) with
      | Some err => (Some err, journal')
      | None => startPollingHandlers_loop rest journal'
      end
  end.

Definition startPollingHandlers (components : ethElrondBridgeComponents)
  (journal : list event) : option error * list event :=
  startPollingHandlers_loop (pollingHandlers components) journal.

Definition Start (components : ethElrondBridgeComponents) (journal : list event)
  : option error * list event :=
  let journal1 := journal ++ [Bootstrap] in
  match answer journal Bootstrap with
  | Some err => (Some err, journal1)
  | None =>
      let journal2 := journal1 ++ [Sleep (timeForBootstrap components)] in
      let journal3 := journal2 ++ [RegisterOnTopics] in
      match answer journal2 RegisterOnTopics with
      | Some err => (Some err, journal3)
      | None =>
          let journal4 := journal3 ++ [BroadcastJoinTopic] in
          match startPollingHandlers components journal4 with
          | (Some err, journal5) => (Some err, journal5)
          | (None, journal5) => (None, journal5 ++ [GoBroadcastJoinRetriesLoop])
          end
      end
  end.

(** The [for _, closable := range components.closableHandlers] loop. *)
Fixpoint Close_loop (closables : list (option nat)) (lastError : option error)
  (journal : list event) : option error * list event :=
  match closables with
  | [] => (lastError, journal)
  | None :: rest => Close_loop rest lastError journal
  | Some closable :: rest =>
      let journal' := journal ++ [CloseCall closable] in
      match answer journal (CloseCall closable) with
      | Some err => Close_loop rest (Some err) journal'
      | None => Close_loop rest lastError journal'
      end
  end.

Definition Close (components : ethElrondBridgeComponents) (journal : list event)
  : option error * list event :=
  let journal1 := if cancelFunc components then journal ++ [CancelFunc] else journal in
  Close_loop (closableHandlers components) None journal1.

End WithSubComponents.

(** The calls of a complete start, in order. *)
Definition startCalls (components : ethElrondBridgeComponents) : list event :=
  [Bootstrap; Sleep (timeForBootstrap components); RegisterOnTopics; BroadcastJoinTopic]
  ++ (StartProcessingLoop <$> pollingHandlers components)
  ++ [GoBroadcastJoinRetriesLoop].

(** Calls made in order until one is answered with an error. *)
Fixpoint untilFirstError (answerTo : list event -> event -> option error)
  (calls : list event) (journal : list event) : option error * list event :=
  match calls with
  | [] => (None, journal)
  | call :: rest =>
      match answerTo journal call with
      | Some err => (Some err, journal ++ [call])
      | None => untilFirstError answerTo rest (journal ++ [call])
      end
  end.

(** The calls of a close, in order. *)
Definition closeCalls (components : ethElrondBridgeComponents) : list event :=
  (if cancelFunc components then [CancelFunc] else [])
  ++ (CloseCall <$> omap id (closableHandlers components)).

End factory.

(** ** The monitor of the relay (package [relay]) *)

Module relay.

Inductive State : Type :=
  | GetPendingTransaction
  | ProposeTransfer
  | WaitForSignatures
  | Execute
  | WaitForTransferProposal
  | WaitForExecute
  | Stop
  | ProposeSetStatus
  | WaitForSetStatusProposal.

(** The two bridges of a monitor, told apart as the [switch] on
    [m.executingBridge] tells them apart. *)
Inductive bridgeRef : Type :=
  | sourceBridge
  | destinationBridge.

Record DepositTransaction : Type := mkDepositTransaction {
  DepositNonce : Z;
  Status : Z;
  Error : option error
}.

(** The calls a monitor makes on its bridges and on the topology provider. *)
Inductive bridgeCall : Type :=
  | CallGetPendingDepositTransaction
  | CallClean
  | CallProposeTransfer (tx : DepositTransaction)
  | CallWasProposedTransfer (nonce : Z)
  | CallGetActionIdForProposeTransfer (nonce : Z)
  | CallSign (b : bridgeRef) (actionId : Z)
  | CallSignersCount (b : bridgeRef) (actionId : Z)
  | CallExecute (b : bridgeRef) (actionId : Z) (nonce : Z)
  | CallWasExecuted (b : bridgeRef) (actionId : Z) (nonce : Z)
  | CallProposeSetStatus (status : Z) (nonce : Z)
  | CallWasProposedSetStatusSuccessOnPendingTransfer
  | CallGetActionIdForSetStatusOnPendingTransfer.

(** The fields of a monitor that change, and the calls made so far, oldest
    first.  [pendingTransaction] is a pointer and [executingBridge] an
    interface value: both may be [nil]. *)
Record Monitor : Type := mkMonitor {
  pendingTransaction : option DepositTransaction;
  actionId : Z;
  executingBridge : option bridgeRef;
  journal : list bridgeCall
}.

(** What the surroundings give to one run of a handler: which case of its
    [select] is taken, and what the calls it makes are answered. *)
Record answers : Type := mkAnswers {
  timerFirst : bool;
  AmITheLeader : bool;
  pendingAnswer : option DepositTransaction;
  errorAnswer : option error;
  boolAnswer : bool;
  actionIdAnswer : Z;
  SignersCount : Z;
  PeerCount : Z
}.

Section WithBridgePackage.

(** [bridge.Executed] and [bridge.Rejected] are declared outside the files
    at hand, and so is the rounding of
    [uint(math.Ceil(float64(peerCount) * MinSignaturePercent / 100))], taken
    as a function of the peer count. *)
Variable Executed : Z.
Variable Rejected : Z.
Variable minCountRequired : Z -> Z.

Definition logged (call : bridgeCall) (m : Monitor) : Monitor :=
  mkMonitor (pendingTransaction m) (actionId m) (executingBridge m) (journal m ++ [call]).

(** A handler ends by sending one state, or by sending none, or panics. *)
Definition handler : Type := Monitor -> answers -> go (option State * Monitor).

Definition getPendingTransaction : handler := fun m env =>
  let m := logged CallGetPendingDepositTransaction m in
  let m := mkMonitor (pendingAnswer env) (actionId m) (executingBridge m) (journal m) in
  match pendingTransaction m with
  | None =>
      if timerFirst env then Returns (Some GetPendingTransaction, m)
      else Returns (Some Stop, m)
  | Some _ => Returns (Some ProposeTransfer, logged CallClean m)
  end.

Definition proposeTransfer : handler := fun m env =>
  if AmITheLeader env then
    match pendingTransaction m with
    | None => Panics NilPointerDereference
    | Some tx =>
        let m := logged (CallProposeTransfer tx) m in
        match errorAnswer env with
        | Some err =>
            let tx := mkDepositTransaction (DepositNonce tx) Rejected (Some err) in
            Returns (Some ProposeSetStatus,
                     mkMonitor (Some tx) (actionId m) (Some sourceBridge) (journal m))
        | None => Returns (Some WaitForTransferProposal, m)
        end
    end
  else Returns (Some WaitForTransferProposal, m).

Definition waitForTransferProposal : handler := fun m env =>
  match pendingTransaction m with
  | None => Panics NilPointerDereference
  | Some tx =>
      if timerFirst env then
        let m := logged (CallWasProposedTransfer (DepositNonce tx)) m in
        if boolAnswer env then
          let m := logged (CallGetActionIdForProposeTransfer (DepositNonce tx)) m in
          let m := mkMonitor (pendingTransaction m) (actionIdAnswer env) (executingBridge m)
                     (journal m) in
          let m := logged (CallSign destinationBridge (actionId m)) m in
          Returns (Some WaitForSignatures,
                   mkMonitor (pendingTransaction m) (actionId m) (Some destinationBridge)
                     (journal m))
        else Returns (Some ProposeTransfer, m)
      else Returns (Some Stop, m)
  end.

Definition waitForSignatures : handler := fun m env =>
  if timerFirst env then
    match executingBridge m with
    | None => Panics NilPointerDereference
    | Some b =>
        let m := logged (CallSignersCount b (actionId m)) m in
        let count := SignersCount env in
        if (minCountRequired (PeerCount env) <=? count) && (0 <? count)
        then Returns (Some Execute, m)
        else Returns (Some WaitForSignatures, m)
    end
  else Returns (Some Stop, m).

Definition execute : handler := fun m env =>
  if AmITheLeader env then
    match executingBridge m, pendingTransaction m with
    | Some b, Some tx =>
        Returns (Some WaitForExecute, logged (CallExecute b (actionId m) (DepositNonce tx)) m)
    | _, _ => Panics NilPointerDereference
    end
  else Returns (Some WaitForExecute, m).

Definition waitForExecute : handler := fun m env =>
  if timerFirst env then
    match executingBridge m, pendingTransaction m with
    | Some b, Some tx =>
        let m := logged (CallWasExecuted b (actionId m) (DepositNonce tx)) m in
        if boolAnswer env then
          let tx := mkDepositTransaction (DepositNonce tx) Executed (Error tx) in
          let m := mkMonitor (Some tx) (actionId m) (executingBridge m) (journal m) in
          match executingBridge m with
          | Some destinationBridge => Returns (Some ProposeSetStatus, m)
          | Some sourceBridge => Returns (Some GetPendingTransaction, m)
          | None => Returns (None, m)
          end
        else Returns (Some Execute, m)
    | _, _ => Panics NilPointerDereference
    end
  else Returns (Some Stop, m).

Definition proposeSetStatus : handler := fun m env =>
  if AmITheLeader env then
    match pendingTransaction m with
    | None => Panics NilPointerDereference
    | Some tx =>
        Returns (Some WaitForSetStatusProposal,
                 logged (CallProposeSetStatus (Status tx) (DepositNonce tx)) m)
    end
  else Returns (Some WaitForSetStatusProposal, m).

Definition waitForSetStatusProposal : handler := fun m env =>
  match pendingTransaction m with
  | None => Panics NilPointerDereference
  | Some tx =>
      if timerFirst env then
        let m := logged CallWasProposedSetStatusSuccessOnPendingTransfer m in
        if boolAnswer env then
          let m := logged CallGetActionIdForSetStatusOnPendingTransfer m in
          let m := mkMonitor (pendingTransaction m) (actionIdAnswer env) (executingBridge m)
                     (journal m) in
          let m := logged (CallSign sourceBridge (actionId m)) m in
          Returns (Some WaitForSignatures,
                   mkMonitor (pendingTransaction m) (actionId m) (Some sourceBridge)
                     (journal m))
        else Returns (Some ProposeSetStatus, m)
      else Returns (Some Stop, m)
  end.

(** The [switch state] of [Start]; [Stop] has no handler. *)
Definition handlerOf (state : State) : option handler :=
  match state with
  | GetPendingTransaction => Some getPendingTransaction
  | ProposeTransfer => Some proposeTransfer
  | WaitForTransferProposal => Some waitForTransferProposal
  | WaitForSignatures => Some waitForSignatures
  | Execute => Some execute
  | WaitForExecute => Some waitForExecute
  | ProposeSetStatus => Some proposeSetStatus
  | WaitForSetStatusProposal => Some waitForSetStatusProposal
  | Stop => None
  end.

(** The loop of [Start] for as long as the surroundings are given: it ends
    with the state that is on the channel, or with none when a handler has
    sent none. *)
Fixpoint Start_loop (envs : list answers) (state : State) (m : Monitor)
  : go (option State * Monitor) :=
  match envs with
  | [] => Returns (Some state, m)
  | env :: rest =>
      match handlerOf state with
      | None => Returns (Some state, m)
      | Some h =>
          match h m env with
          | Panics p => Panics p
          | Returns (None, m') => Returns (None, m')
          | Returns (Some state', m') => Start_loop rest state' m'
          end
      end
  end.

(** [NewMonitor]: the fields it does not set have their zero values, the
    initial state included. *)
Definition NewMonitor : Monitor := mkMonitor None 0 None [].
Definition initialState : State := GetPendingTransaction.

Definition Start (envs : list answers) : go (option State * Monitor) :=
  Start_loop envs initialState NewMonitor.

(** What holds of a monitor when a state is on the channel. *)
Definition ready (state : State) (m : Monitor) : Prop :=
  match state with
  | GetPendingTransaction | Stop => True
  | ProposeTransfer | WaitForTransferProposal => is_Some (pendingTransaction m)
  | WaitForSignatures | Execute | WaitForExecute =>
      is_Some (pendingTransaction m) /\ is_Some (executingBridge m)
  | ProposeSetStatus | WaitForSetStatusProposal =>
      exists tx, pendingTransaction m = Some tx /\
                 (Status tx = Executed \/ Status tx = Rejected)
  end.

(** The statuses proposed so far are final ones. *)
Definition proposesFinalStatuses (m : Monitor) : Prop :=
  forall status nonce,
    CallProposeSetStatus status nonce ∈ journal m -> status = Executed \/ status = Rejected.

End WithBridgePackage.

End relay.

(** ** The specification's wording, for comparison with the embedding *)

Module spec.

(** The nonces that follow the last executed one: [L+1, L+2, ...], [n] of
    them, as [uint64] values. *)
Definition expectedNonces (L : Z) (n : nat) : list Z :=
  (fun i => U64.wrap (L + 1 + Z.of_nat i)) <$> seq 0 n.

(** Nonce contiguity as testable property 3 words it: the first deposit
    follows the last executed nonce and each deposit follows the one before. *)
Definition contiguous (L : Z) (deposits : list DepositTransfer) : Prop :=
  (forall d, deposits !! 0%nat = Some d -> Nonce d = U64.add L 1) /\
  (forall i d d', deposits !! i = Some d -> deposits !! S i = Some d' ->
     Nonce d' = U64.add (Nonce d) 1).

End spec.


(** ** Concrete inputs on which the theorems below are exercised *)

Module examples.
Import bridge.

Definition emptySlice : slice := mkSlice 1%positive 0 0.

(** Scenario S1 of the specification: batch 12345 with the deposit nonces 2
    and 3; the amounts are the big integers at the locations 1 and 2. *)
Definition deposit2 : DepositTransfer := mkDeposit 2 emptySlice emptySlice (Some 1%positive).
Definition deposit3 : DepositTransfer := mkDeposit 3 emptySlice emptySlice (Some 2%positive).
Definition batchS1 : TransferBatch := mkBatch 12345 [deposit2; deposit3] [].

(** A client answering fixed values: the last executed deposit nonce, the
    action ID queries and the maximum number of retries are the arguments. *)
Definition elrondStub (lastTx : Z * option error) (actionIDAnswer : Z * option error)
  (maxRetries : Z) : ElrondClient.t :=
  ElrondClient.mk (None, None) (0, None) lastTx
    (fun _ => actionIDAnswer) (fun _ => actionIDAnswer)
    (fun _ => (false, None)) (fun _ => (EmptyString, None))
    (fun _ => (false, None)) (fun _ => (EmptyString, None))
    (fun _ => (false, None)) (fun _ => (EmptyString, None))
    (fun _ => (false, None)) (fun _ _ => (EmptyString, None))
    maxRetries.

Definition ethereumStub (maxRetries : Z) : EthereumClient.t :=
  EthereumClient.mk (fun _ => (None, None)) (fun _ => ([], None)) (fun _ => (false, None))
    (fun _ => ([], None)) (Some 1, None) (fun _ _ _ => (EmptyString, None))
    (fun _ => (false, None)) maxRetries.

Definition executorWith (elrond : ElrondClient.t) (ethereum : EthereumClient.t)
  (stored : option TransferBatch) : bridgeExecutor :=
  mkExecutor (TopologyProvider.mk true) elrond ethereum stored 0 [] 0 0.

(** The executor of scenario S1: last executed nonce 1, batch stored. *)
Definition executorS1 : bridgeExecutor :=
  executorWith (elrondStub (1, None) (663725, None) 3) (ethereumStub 3) (Some batchS1).

(** Scenario S3 of the specification: deposit nonces 5 and 7, last executed
    nonce 3. *)
Definition deposit5 : DepositTransfer := mkDeposit 5 emptySlice emptySlice (Some 1%positive).
Definition deposit7 : DepositTransfer := mkDeposit 7 emptySlice emptySlice (Some 2%positive).
Definition executorS3 : bridgeExecutor :=
  executorWith (elrondStub (3, None) (663725, None) 3) (ethereumStub 3)
    (Some (mkBatch 12346 [deposit5; deposit7] [])).

(** The last executed nonce at the top of [uint64], and a batch whose only
    deposit has nonce 0. *)
Definition executorWrapping : bridgeExecutor :=
  executorWith (elrondStub (U64.max, None) (663725, None) 3) (ethereumStub 3)
    (Some (mkBatch 1 [mkDeposit 0 emptySlice emptySlice (Some 1%positive)] [])).


(** A freshly created executor: no batch stored. *)
Definition executorNoBatch : bridgeExecutor :=
  executorWith (elrondStub (1, None) (663725, None) 3) (ethereumStub 3) None.

(** An executor whose client fails the action ID queries. *)
Definition executorFailingActionID : bridgeExecutor :=
  mkExecutor (TopologyProvider.mk true) (elrondStub (1, None) (55, Some (ErrExternal 7)) 3)
    (ethereumStub 3) (Some batchS1) 41 [] 2 1.

(** A [ResolveNewDeposits] that reads the statuses of its receiver, as a
    method filling the status vector has to: on a [nil] receiver the read
    panics. *)
Definition resolveReadingReceiver (tb : option TransferBatch) (newNumDeposits : Z)
  : go (option TransferBatch) :=
  match tb with
  | None => Panics NilPointerDereference
  | Some b => Returns (Some b)
  end.

(** The keys of the unit test of the topology handler, ["aaa"] and ["bbb"],
    with the clock one second before 1970 and a leader interval of two
    seconds, seen from the relayer ["aaa"]. *)
Definition keyA : bytes := [x61; x61; x61].
Definition keyB : bytes := [x62; x62; x62].

Definition handlerBefore1970 : topology.topologyHandler :=
  topology.mkHandler [keyA; keyB] (-1) 2 keyA.

(** The same relayer at second 7 of 1970. *)
Definition handlerAt7 : topology.topologyHandler :=
  topology.mkHandler [keyA; keyB] 7 2 keyA.

(** A selector hash for the examples: the seed itself. *)
Definition seedItself (seed : Z) : Z := seed.

(** [createStubExecutorProposeSetStatus] of the unit tests: a batch is
    stored, nothing was proposed, this relayer is the leader, proposing
    succeeds.  The quorum methods answer as an untouched stub does. *)
Definition stubProposeSetStatus : steps.BridgeExecutorStub :=
  steps.mkStub (Some batchS1) (false, None) None (false, None) None true false (false, None).

(** [createStubExecutorWaitForQuorumOnTransfer] of the unit tests, with the
    answers of the retry budget and of the quorum check as arguments. *)
Definition stubWaitForQuorum (exhausted : bool) (quorum : bool * option error)
  : steps.BridgeExecutorStub :=
  steps.mkStub None (false, None) None (false, None) None false exhausted quorum.

Definition expectedError : error := ErrExternal 1.

(** A batch of one deposit laid out in a heap: recipient bytes in array 10,
    converted token bytes in array 11, amount 1000 at location 1. *)
Definition heapOfBatch : heap :=
  mkHeap {[ 10%positive := [x01; x02]; 11%positive := [xaa; xbb] ]} {[ 1%positive := 1000 ]}.

Definition depositOnHeap : DepositTransfer :=
  mkDeposit 2 (mkSlice 10%positive 0 2) (mkSlice 11%positive 0 2) (Some 1%positive).

Definition batchOnHeap : TransferBatch := mkBatch 7 [depositOnHeap] [].

(** Collaborators of a broadcaster for the examples.  The wire format is four
    bytes: public key, payload, nonce, signature; a signature verifies when
    it is the payload byte itself; the relayers [0x61] and [0x62] are
    whitelisted; every send succeeds. *)
Definition toyUnmarshal (data : bytes) : p2p.SignedMessage + error :=
  match data with
  | [pk; payload; nonce; signature] =>
      inl (p2p.mkSignedMessage [payload] [pk] [signature] (Z.of_N (Byte.to_N nonce)))
  | _ => inr (ErrExternal 2)
  end.

Definition toyMarshal (msg : p2p.SignedMessage) : bytes * option error :=
  (p2p.PublicKeyBytes msg ++ p2p.Payload msg ++ [p2p.byte_of_Z (p2p.Nonce msg)]
     ++ p2p.Signature msg, None).

Definition toyVerify (publicKey message signature : bytes) : bool :=
  bool_decide (take 1 message = signature).

Definition toyIsWhitelisted (publicKey : bytes) : bool :=
  bool_decide (publicKey = [x61] \/ publicKey = [x62]).

Definition toySendAnswer (topic : string) (buff : bytes) (peerId : string) : option error :=
  None.

(** A signature of relayer [0x62], nonce 5, and a broadcaster that has
    stored it. *)
Definition signedByB : p2p.SignedMessage := p2p.mkSignedMessage [x10] [x62] [x10] 5.

Definition broadcasterWithSignature : p2p.broadcaster :=
  p2p.mkBroadcaster {[ [x62] ]} {[ [x62] := signedByB ]}
    {[ ([x62], p2p.signTopicName) := 5 ]} [].

(** The join message of relayer [0x61], nonce 1, arriving from peer ["late"]. *)
Definition joinFromA : p2p.MessageP2P :=
  p2p.mkMessage [x61; x20; x01; x20] p2p.joinTopicName "late".

(** A sign message of relayer [0x62] whose signature does not verify, one
    that replays nonce 5, and one of a relayer outside the whitelist. *)
Definition forgedFromB : p2p.MessageP2P :=
  p2p.mkMessage [x62; x30; x06; x31] p2p.signTopicName "peerB".
Definition replayedFromB : p2p.MessageP2P :=
  p2p.mkMessage [x62; x10; x05; x10] p2p.signTopicName "peerB".
Definition signFromStranger : p2p.MessageP2P :=
  p2p.mkMessage [x7a; x30; x01; x30] p2p.signTopicName "peerZ".

(** A stand-in for [big.Float] in the examples: the integers 1 and 2 and
    the two infinities are the amounts that parse. *)
Inductive toyFloat : Type :=
  | Finite (z : Z)
  | PlusInf
  | MinusInf.

Definition toySetString (s : string) : option toyFloat :=
  if String.eqb s "1" then Some (Finite 1)
  else if String.eqb s "2" then Some (Finite 2)
  else if String.eqb s "Inf" then Some PlusInf
  else if String.eqb s "-Inf" then Some MinusInf
  else None.

Definition toyAdd (x y : toyFloat) : option toyFloat :=
  match x, y with
  | Finite a, Finite b => Some (Finite (a + b))
  | PlusInf, MinusInf | MinusInf, PlusInf => None
  | PlusInf, _ | _, PlusInf => Some PlusInf
  | MinusInf, _ | _, MinusInf => Some MinusInf
  end.

Definition toyConvert (partialMigration : string) : ethereum.conversion toyFloat :=
  ethereum.ConvertPartialMigrationStringToMap toyFloat toySetString (fun x => x) toyAdd
    partialMigration.

End examples.
(* ===================================================================== *)
(** * Part II: lemmas and theorems *)
(* ===================================================================== *)

(** ** Machine integers *)

Lemma U64_wrap_in_range z : U64.in_range (U64.wrap z).
Proof. unfold U64.in_range, U64.wrap, U64.modulus. apply Z.mod_pos_bound. lia. Qed.

Lemma U64_wrap_small z : U64.in_range z -> U64.wrap z = z.
Proof. unfold U64.in_range, U64.wrap. intros Hz. by apply Z.mod_small. Qed.

Lemma U64_add_wrap_l a b : U64.add (U64.wrap a) b = U64.wrap (a + b).
Proof. unfold U64.add, U64.wrap. apply Zplus_mod_idemp_l. Qed.

Lemma U64_wrap_wrap a : U64.wrap (U64.wrap a) = U64.wrap a.
Proof. unfold U64.wrap. apply Zmod_mod. Qed.

Lemma I64_wrap_small z : I64.in_range z -> I64.wrap z = z.
Proof.
  unfold I64.in_range, I64.min, I64.max, I64.wrap. intros Hz.
  rewrite Z.mod_small; lia.
Qed.

(** ** Bridge executor: deposit nonces *)

Section DepositNonces.
Import bridge.

(** A list of nonces given index by index. *)
Lemma nonces_pointwise (f : nat -> Z) (deposits : list DepositTransfer) :
  Nonce <$> deposits = f <$> seq 0 (length deposits) <->
  (forall i d, deposits !! i = Some d -> Nonce d = f i).
Proof.
  split.
  - intros H i d Hd.
    assert (Hi : (Nonce <$> deposits) !! i = Some (Nonce d)) by by rewrite list_lookup_fmap, Hd.
    rewrite H, list_lookup_fmap, lookup_seq_lt in Hi by (by eapply lookup_lt_Some).
    by injection Hi.
  - intros H. apply list_eq. intros i. rewrite !list_lookup_fmap.
    destruct (deposits !! i) as [d|] eqn:Hd; simpl.
    + rewrite lookup_seq_lt by (by eapply lookup_lt_Some). simpl. f_equal. by apply H.
    + rewrite lookup_seq_ge; [done|]. by apply lookup_ge_None.
Qed.

(** The loop accepts exactly the lists whose nonces count up from the start
    nonce, and otherwise stops at the first deposit that deviates. *)
Lemma verifyDepositNonces_loop_None deposits s :
  verifyDepositNonces_loop deposits (U64.wrap s) = None <->
  (forall i d, deposits !! i = Some d -> Nonce d = U64.wrap (s + Z.of_nat i)).
Proof.
  revert s. induction deposits as [|dt rest IH]; intros s; simpl; [done|].
  destruct (Z.eqb_spec (Nonce dt) (U64.wrap s)) as [Heq|Hne]; simpl.
  - rewrite U64_add_wrap_l, IH. split.
    + intros H [|i] d; simpl.
      * intros [= <-]. rewrite Heq. f_equal. lia.
      * intros Hd. rewrite (H i d Hd). f_equal. lia.
    + intros H i d Hd. rewrite (H (S i) d Hd). f_equal. lia.
  - split; [done|]. intros H. destruct Hne. rewrite (H 0%nat dt eq_refl). f_equal. lia.
Qed.

Lemma verifyDepositNonces_loop_error deposits s e :
  verifyDepositNonces_loop deposits s = Some e ->
  exists dt expected, dt ∈ deposits /\ Nonce dt <> expected /\
                      e = ErrInvalidDepositNonce dt expected.
Proof.
  revert s. induction deposits as [|dt rest IH]; intros s; simpl; [done|].
  destruct (Z.eqb_spec (Nonce dt) s) as [Heq|Hne]; simpl.
  - intros H. destruct (IH _ H) as (d & x & Hin & Hx & ->).
    exists d, x. split; [by right|done].
  - intros [= <-]. exists dt, s. split; [by left|done].
Qed.

Lemma contiguous_pointwise L deposits :
  spec.contiguous L deposits <->
  (forall i d, deposits !! i = Some d -> Nonce d = U64.wrap (L + 1 + Z.of_nat i)).
Proof.
  unfold spec.contiguous, U64.add. split.
  - intros [H0 Hs] i. induction i as [|i IH]; intros d Hd.
    + rewrite (H0 d Hd). f_equal. lia.
    + destruct (deposits !! i) as [d0|] eqn:Hd0.
      * rewrite (Hs i d0 d Hd0 Hd), (IH d0 eq_refl).
        fold (U64.add (U64.wrap (L + 1 + Z.of_nat i)) 1).
        rewrite U64_add_wrap_l. f_equal. lia.
      * apply lookup_ge_None in Hd0. apply lookup_lt_Some in Hd. lia.
  - intros H. split.
    + intros d Hd. rewrite (H 0%nat d Hd). f_equal. lia.
    + intros i d d' Hd Hd'. rewrite (H (S i) d' Hd'), (H i d Hd).
      fold (U64.add (U64.wrap (L + 1 + Z.of_nat i)) 1).
      rewrite U64_add_wrap_l. f_equal. lia.
Qed.

Lemma VerifyLastDepositNonceExecutedOnEthereumBatch_eq executor b L :
  batch executor = Some b ->
  ElrondClient.GetLastExecutedEthTxID (elrondClient executor) = (L, None) ->
  VerifyLastDepositNonceExecutedOnEthereumBatch executor =
  Returns (verifyDepositNonces_loop (Deposits b) (U64.wrap (L + 1)), executor).
Proof.
  intros Hb Hc. unfold VerifyLastDepositNonceExecutedOnEthereumBatch, verifyDepositNonces.
  by rewrite Hb, Hc.
Qed.

(** C1.  For every stored batch and every last executed nonce [L] answered by
    the chain client, [VerifyLastDepositNonceExecutedOnEthereumBatch]
    succeeds if and only if the deposit nonces are exactly [L+1, L+2, ...] in
    order; equivalently, if and only if the first deposit has nonce [L+1] and
    each deposit has the nonce of the one before plus one; any deviation
    yields an invalid-deposit-nonce error.  The additions are those of the
    source, on [uint64]; as long as [L] plus the number of deposits stays
    below [2^64] they are the additions of the integers. *)
Theorem VerifyLastDepositNonceExecutedOnEthereumBatch_contiguous
  (executor : bridgeExecutor) (b : TransferBatch) (L : Z) :
  batch executor = Some b ->
  ElrondClient.GetLastExecutedEthTxID (elrondClient executor) = (L, None) ->
  let result := VerifyLastDepositNonceExecutedOnEthereumBatch executor in
  let n := length (Deposits b) in
  (result = Returns (None, executor) <->
     Nonce <$> Deposits b = spec.expectedNonces L n) /\
  (result = Returns (None, executor) <-> spec.contiguous L (Deposits b)) /\
  (Nonce <$> Deposits b <> spec.expectedNonces L n ->
     exists dt expected,
       dt ∈ Deposits b /\ Nonce dt <> expected /\
       result = Returns (Some (ErrInvalidDepositNonce dt expected), executor)) /\
  (0 <= L -> L + Z.of_nat n < U64.modulus ->
     spec.expectedNonces L n = (fun i => L + 1 + Z.of_nat i) <$> seq 0 n).
Proof.
  intros Hb Hc result n. subst result n.
  rewrite (VerifyLastDepositNonceExecutedOnEthereumBatch_eq _ _ _ Hb Hc).
  assert (Hok : Returns (verifyDepositNonces_loop (Deposits b) (U64.wrap (L + 1)), executor)
                = Returns (None, executor) <->
                forall i d, Deposits b !! i = Some d ->
                            Nonce d = U64.wrap (L + 1 + Z.of_nat i)).
  { rewrite <- verifyDepositNonces_loop_None. split; [by intros [= ->]|by intros ->]. }
  split; [|split; [|split]].
  - rewrite Hok. symmetry. apply nonces_pointwise.
  - rewrite Hok. symmetry. apply contiguous_pointwise.
  - intros Hne.
    destruct (verifyDepositNonces_loop (Deposits b) (U64.wrap (L + 1))) as [e|] eqn:He.
    + destruct (verifyDepositNonces_loop_error _ _ _ He) as (dt & x & Hin & Hx & ->).
      by exists dt, x.
    + destruct Hne. apply nonces_pointwise. by apply verifyDepositNonces_loop_None.
  - intros HL Hn. unfold spec.expectedNonces. apply list_fmap_ext.
    intros i x Hx. apply lookup_seq in Hx as [-> Hi].
    apply U64_wrap_small. unfold U64.in_range. lia.
Qed.

End DepositNonces.

(** C1, on the batch of scenario S1 with last executed nonce 1. *)
Lemma VerifyLastDepositNonceExecutedOnEthereumBatch_contiguous_S1 :
  bridge.VerifyLastDepositNonceExecutedOnEthereumBatch examples.executorS1
    = Returns (None, examples.executorS1) <->
  Nonce <$> Deposits examples.batchS1 = spec.expectedNonces 1 2.
Proof.
  exact (proj1 (VerifyLastDepositNonceExecutedOnEthereumBatch_contiguous
                  examples.executorS1 examples.batchS1 1 eq_refl eq_refl)).
Defined.

Example VerifyLastDepositNonceExecutedOnEthereumBatch_S1_runs :
  bridge.VerifyLastDepositNonceExecutedOnEthereumBatch examples.executorS1
  = Returns (None, examples.executorS1).
Proof. reflexivity. Qed.

(** Scenario S3: the verification stops at the first deposit, whose nonce 5
    is not the expected 4. *)
Example VerifyLastDepositNonceExecutedOnEthereumBatch_S3_runs :
  bridge.VerifyLastDepositNonceExecutedOnEthereumBatch examples.executorS3
  = Returns (Some (ErrInvalidDepositNonce examples.deposit5 4), examples.executorS3).
Proof. reflexivity. Qed.

(** At the top of [uint64] the expected nonce wraps around to 0. *)
Example VerifyLastDepositNonceExecutedOnEthereumBatch_wraps :
  bridge.VerifyLastDepositNonceExecutedOnEthereumBatch examples.executorWrapping
  = Returns (None, examples.executorWrapping).
Proof. reflexivity. Qed.

(** ** Bridge executor: retry budget *)

Section RetryBudget.
Import bridge.









End RetryBudget.





Example ProcessMaxRetriesOnElrond_budget_0 :
  bridge.ProcessMaxRetriesOnElrond
    (examples.executorWith (examples.elrondStub (1, None) (0, None) 0)
       (examples.ethereumStub 0) (Some examples.batchS1))
  = Returns (true,
             examples.executorWith (examples.elrondStub (1, None) (0, None) 0)
               (examples.ethereumStub 0) (Some examples.batchS1)).
Proof. reflexivity. Qed.

(** ** Bridge executor: operations without a stored batch *)

(** Storing a [nil] batch is refused and leaves the executor as it is. *)
Lemma StoreBatchFromElrond_nil executor :
  bridge.StoreBatchFromElrond None executor = Returns (Some ErrNilBatch, executor).
Proof. reflexivity. Qed.

Lemma StoreBatchFromElrond_stores b executor :
  bridge.StoreBatchFromElrond (Some b) executor
  = Returns (None, bridge.set_batch executor (Some b)).
Proof. reflexivity. Qed.

(** The operations that guard against a missing batch: each returns the
    nil-batch error and leaves the executor as it is. *)
Lemma guarded_operations_nil_batch (InvalidActionID : Z) executor :
  bridge.batch executor = None ->
  bridge.VerifyLastDepositNonceExecutedOnEthereumBatch executor
    = Returns (Some ErrNilBatch, executor) /\
  bridge.GetAndStoreActionIDForProposeTransferOnElrond InvalidActionID executor
    = Returns ((InvalidActionID, Some ErrNilBatch), executor) /\
  bridge.GetAndStoreActionIDForProposeSetStatusFromElrond InvalidActionID executor
    = Returns ((InvalidActionID, Some ErrNilBatch), executor) /\
  bridge.WasTransferProposedOnElrond executor
    = Returns ((false, Some ErrNilBatch), executor) /\
  bridge.ProposeTransferOnElrond executor = Returns (Some ErrNilBatch, executor) /\
  bridge.WasSetStatusProposedOnElrond executor
    = Returns ((false, Some ErrNilBatch), executor) /\
  bridge.ProposeSetStatusOnElrond executor = Returns (Some ErrNilBatch, executor) /\
  bridge.GetBatchStatusesFromEthereum executor
    = Returns ((None, Some ErrNilBatch), executor) /\
  bridge.PerformActionOnElrond executor = Returns (Some ErrNilBatch, executor) /\
  bridge.WasTransferPerformedOnEthereum executor
    = Returns ((false, Some ErrNilBatch), executor) /\
  bridge.SignTransferOnEthereum executor = Returns (Some ErrNilBatch, executor) /\
  bridge.PerformTransferOnEthereum executor = Returns (Some ErrNilBatch, executor).
Proof.
  intros Hb.
  unfold bridge.VerifyLastDepositNonceExecutedOnEthereumBatch,
    bridge.GetAndStoreActionIDForProposeTransferOnElrond,
    bridge.GetAndStoreActionIDForProposeSetStatusFromElrond,
    bridge.WasTransferProposedOnElrond, bridge.ProposeTransferOnElrond,
    bridge.WasSetStatusProposedOnElrond, bridge.ProposeSetStatusOnElrond,
    bridge.GetBatchStatusesFromEthereum, bridge.PerformActionOnElrond,
    bridge.WasTransferPerformedOnEthereum, bridge.SignTransferOnEthereum,
    bridge.PerformTransferOnEthereum.
  rewrite Hb. repeat split.
Qed.

(** C8, at the operation that breaks it.  [ResolveNewDepositsStatuses] has no
    guard and no error result: with no batch stored it hands the [nil]
    pointer to [ResolveNewDeposits] and ends as that call ends; whenever the
    callee dereferences its receiver, the operation panics instead of
    returning the nil-batch error. *)
Theorem ResolveNewDepositsStatuses_nil_batch
  (ResolveNewDeposits : option TransferBatch -> Z -> go (option TransferBatch))
  (numDeposits : Z) (executor : bridge.bridgeExecutor) :
  bridge.batch executor = None ->
  bridge.ResolveNewDepositsStatuses ResolveNewDeposits numDeposits executor
  = match ResolveNewDeposits None (I64.wrap numDeposits) with
    | Panics p => Panics p
    | Returns b' => Returns (tt, bridge.set_batch executor b')
    end /\
  (ResolveNewDeposits None (I64.wrap numDeposits) = Panics NilPointerDereference ->
   bridge.ResolveNewDepositsStatuses ResolveNewDeposits numDeposits executor
   = Panics NilPointerDereference).
Proof.
  intros Hb. unfold bridge.ResolveNewDepositsStatuses. rewrite Hb.
  split; [done|]. by intros ->.
Qed.

(** C8 at the failing input: a freshly created executor, one new deposit. *)
Lemma ResolveNewDepositsStatuses_nil_batch_panics :
  bridge.ResolveNewDepositsStatuses examples.resolveReadingReceiver 1 examples.executorNoBatch
  = Panics NilPointerDereference.
Proof.
  exact (proj2 (ResolveNewDepositsStatuses_nil_batch examples.resolveReadingReceiver 1
                  examples.executorNoBatch eq_refl) eq_refl).
Defined.

(** ** Bridge executor: action IDs *)

(** The setter of the action ID touches no other field. *)
Lemma set_actionID_fields executor a :
  bridge.actionID (bridge.set_actionID executor a) = a /\
  bridge.batch (bridge.set_actionID executor a) = bridge.batch executor /\
  bridge.msgHash (bridge.set_actionID executor a) = bridge.msgHash executor /\
  bridge.retriesOnElrond (bridge.set_actionID executor a) = bridge.retriesOnElrond executor /\
  bridge.retriesOnEthereum (bridge.set_actionID executor a) = bridge.retriesOnEthereum executor.
Proof. by destruct executor. Qed.

(** C9.  If the chain client call inside
    [GetAndStoreActionIDForProposeTransferOnElrond] or
    [GetAndStoreActionIDForProposeSetStatusFromElrond] returns an error, the
    operation returns the invalid action ID together with that error and
    leaves the executor (stored action ID, stored batch, message hash, retry
    counters) exactly as it was; the executor is changed, by an overwrite of
    the stored action ID alone, only when the client call succeeds. *)
Theorem GetAndStoreActionID_error_keeps_state
  (InvalidActionID : Z) (executor : bridge.bridgeExecutor) :
  (forall b a e,
     bridge.batch executor = Some b ->
     ElrondClient.GetActionIDForProposeTransfer (bridge.elrondClient executor) b = (a, Some e) ->
     bridge.GetAndStoreActionIDForProposeTransferOnElrond InvalidActionID executor
     = Returns ((InvalidActionID, Some e), executor)) /\
  (forall b a e,
     bridge.batch executor = Some b ->
     ElrondClient.GetActionIDForSetStatusOnPendingTransfer (bridge.elrondClient executor) b
       = (a, Some e) ->
     bridge.GetAndStoreActionIDForProposeSetStatusFromElrond InvalidActionID executor
     = Returns ((InvalidActionID, Some e), executor)) /\
  (forall r executor',
     bridge.GetAndStoreActionIDForProposeTransferOnElrond InvalidActionID executor
       = Returns (r, executor') ->
     executor' = executor \/
     exists b a,
       bridge.batch executor = Some b /\
       ElrondClient.GetActionIDForProposeTransfer (bridge.elrondClient executor) b = (a, None) /\
       r = (a, None) /\ executor' = bridge.set_actionID executor a) /\
  (forall r executor',
     bridge.GetAndStoreActionIDForProposeSetStatusFromElrond InvalidActionID executor
       = Returns (r, executor') ->
     executor' = executor \/
     exists b a,
       bridge.batch executor = Some b /\
       ElrondClient.GetActionIDForSetStatusOnPendingTransfer (bridge.elrondClient executor) b
         = (a, None) /\
       r = (a, None) /\ executor' = bridge.set_actionID executor a).
Proof.
  unfold bridge.GetAndStoreActionIDForProposeTransferOnElrond,
    bridge.GetAndStoreActionIDForProposeSetStatusFromElrond.
  split; [|split; [|split]].
  - intros b a e -> ->. done.
  - intros b a e -> ->. done.
  - intros r executor'. destruct (bridge.batch executor) as [b|]; [|intros [= <- <-]; by left].
    destruct (ElrondClient.GetActionIDForProposeTransfer _ b) as [a [e|]] eqn:Hc.
    + intros [= <- <-]. by left.
    + intros [= <- <-]. right. by exists b, a.
  - intros r executor'. destruct (bridge.batch executor) as [b|]; [|intros [= <- <-]; by left].
    destruct (ElrondClient.GetActionIDForSetStatusOnPendingTransfer _ b) as [a [e|]] eqn:Hc.
    + intros [= <- <-]. by left.
    + intros [= <- <-]. right. by exists b, a.
Qed.

(** C9 on an executor whose client fails the queries with an error: stored
    action ID 41, retry counters 2 and 1, all kept. *)
Lemma GetAndStoreActionID_error_keeps_state_failing_client :
  bridge.GetAndStoreActionIDForProposeTransferOnElrond 0 examples.executorFailingActionID
  = Returns ((0, Some (ErrExternal 7)), examples.executorFailingActionID).
Proof.
  exact (proj1 (GetAndStoreActionID_error_keeps_state 0 examples.executorFailingActionID)
           examples.batchS1 55 (ErrExternal 7) eq_refl eq_refl).
Defined.

(** ** Leader topology *)

Section Leader.
Import topology.

Lemma leaderSeed_quot nowUnix seconds :
  I64.in_range nowUnix -> 0 < seconds ->
  leaderSeed nowUnix seconds = U64.wrap (Z.quot nowUnix seconds).
Proof.
  intros Hn Hs. unfold leaderSeed, I64.div. f_equal. apply I64_wrap_small.
  unfold I64.in_range, I64.min, I64.max in *.
  destruct (Z.le_gt_cases 0 nowUnix) as [Hpos|Hneg].
  - pose proof (Z.quot_pos nowUnix seconds Hpos Hs).
    assert (Z.quot nowUnix seconds <= nowUnix) by (apply Z.quot_le_upper_bound; nia).
    lia.
  - assert (Hq : Z.quot nowUnix seconds = - Z.quot (- nowUnix) seconds).
    { rewrite Z.quot_opp_l by lia. lia. }
    pose proof (Z.quot_pos (- nowUnix) seconds ltac:(lia) Hs).
    assert (Z.quot (- nowUnix) seconds <= - nowUnix) by (apply Z.quot_le_upper_bound; nia).
    lia.
Qed.


Lemma MyTurnAsLeader_eq hash t :
  SortedPublicKeys t <> [] -> 0 < intervalForLeaderSeconds t ->
  let N := Z.of_nat (length (SortedPublicKeys t)) in
  let seed := leaderSeed (NowUnix t) (intervalForLeaderSeconds t) in
  exists publicKey,
    SortedPublicKeys t !! Z.to_nat (hash seed mod N) = Some publicKey /\
    MyTurnAsLeader hash t = Returns (bool_decide (publicKey = addressBytes t)).
Proof.
  intros Hk Hs N seed. unfold MyTurnAsLeader.
  destruct (Nat.eqb_spec (length (SortedPublicKeys t)) 0) as [H0|H0].
  { destruct (SortedPublicKeys t); done. }
  destruct (Z.eqb_spec (intervalForLeaderSeconds t) 0); [lia|].
  unfold randomInt. fold N seed.
  assert (HN : 0 < N) by (subst N; lia).
  pose proof (Z.mod_pos_bound (hash seed) N HN) as Hi.
  destruct (SortedPublicKeys t !! Z.to_nat (hash seed mod N)) as [pk|] eqn:Hpk.
  - by exists pk.
  - apply lookup_ge_None in Hpk. subst N. lia.
Qed.

End Leader.




(** ** State-machine steps *)

Ltac run_step :=
  unfold steps.journal_of, steps.next_of, steps.proposeSetStatusStep_Execute,
    steps.proposeTransferStep_Execute, steps.waitForQuorumOnTransferStep_Execute,
    steps.bind, steps.ret; simpl; unfold steps.logged.

Ltac answer m s :=
  let r := fresh "r" in let s' := fresh "s" in
  destruct (m s) as [r s'] eqn:?; simpl.

Ltac in_journal :=
  repeat match goal with
         | |- _ /\ _ => split
         | |- forall _, _ => intro
         | |- _ ∉ _ => intro
         | H : _ ∈ [] |- _ => by apply elem_of_nil in H
         | H : _ ∈ _ :: _ |- _ => apply elem_of_cons in H; destruct H as [H|H]
         | H : _ = _ |- _ => discriminate H
         end;
  try done; try congruence.

Section Steps.
Import steps.
Context {B : Type} `{Executor B}.

(** Journaling the calls changes neither the step a execution answers nor
    the state it leaves the executor in. *)
Lemma waitForQuorumOnTransferStep_traced (s : B) :
  let '(next, (s', _)) := waitForQuorumOnTransferStep_Execute (s, []) in
  waitForQuorumOnTransferStep_Execute s = (next, s').
Proof.
  run_step. answer ProcessMaxRetriesOnEthereum s. destruct r; [done|].
  answer ProcessQuorumReachedOnEthereum s0. by destruct r as [[|] [e|]].
Qed.

Lemma proposeSetStatusStep_traced (s : B) :
  let '(next, (s', _)) := proposeSetStatusStep_Execute (s, []) in
  proposeSetStatusStep_Execute s = (next, s').
Proof.
  run_step. answer GetStoredBatch s. destruct r; [|done].
  answer WasSetStatusProposedOnElrond s0. destruct r as [[|] [e|]]; try done.
  answer MyTurnAsLeader s1. destruct r; [|done]. simpl.
  answer ProposeSetStatusOnElrond s2. by destruct r.
Qed.

Lemma proposeTransferStep_traced (s : B) :
  let '(next, (s', _)) := proposeTransferStep_Execute (s, []) in
  proposeTransferStep_Execute s = (next, s').
Proof.
  run_step. answer GetStoredBatch s. destruct r; [|done].
  answer WasTransferProposedOnElrond s0. destruct r as [[|] [e|]]; try done.
  answer MyTurnAsLeader s1. destruct r; [|done]. simpl.
  answer ProposeTransferOnElrond s2. by destruct r.
Qed.

(** C3.  For every execution of the wait-for-quorum-on-transfer step: if the
    quorum check reports [true] the step returns the [PerformingTransfer]
    identifier; if the retry budget is exhausted it returns the identifier
    of the initial step; if the quorum check reports [false] without error
    it returns its own identifier; and it returns [PerformingTransfer] only
    when the executor has, in that execution, answered the quorum check with
    [true] and no error. *)
Theorem waitForQuorumOnTransferStep_transitions (s : B) :
  let journal := journal_of waitForQuorumOnTransferStep_Execute s in
  let next := next_of waitForQuorumOnTransferStep_Execute s in
  (CallProcessQuorumReachedOnEthereum (true, None) ∈ journal -> next = PerformingTransfer) /\
  (CallProcessMaxRetriesOnEthereum true ∈ journal -> next = GettingPendingBatchFromElrond) /\
  (CallProcessQuorumReachedOnEthereum (false, None) ∈ journal ->
     next = WaitingForQuorumOnTransfer) /\
  (next = PerformingTransfer ->
     journal = [CallProcessMaxRetriesOnEthereum false;
                CallProcessQuorumReachedOnEthereum (true, None)]).
Proof.
  run_step. answer ProcessMaxRetriesOnEthereum s. destruct r; simpl; [in_journal|].
  answer ProcessQuorumReachedOnEthereum s0. destruct r as [[|] [e|]]; simpl; in_journal.
Qed.

(** The index of a call in a journal. *)
Ltac at_index i :=
  repeat (destruct i as [|i]; simpl in *; try discriminate).

(** C4.  In every execution of a propose step (propose-transfer and
    propose-set-status) the was-already-proposed check is evaluated before
    any propose call, and the propose operation is invoked only after that
    check has returned [false] without error and the leader predicate has
    returned [true], and at most once; when the check returns [true] the
    step goes on to the signing step without issuing a proposal. *)
Theorem proposeStep_checks_before_proposing (s : B) :
  (let journal := journal_of proposeTransferStep_Execute s in
   let next := next_of proposeTransferStep_Execute s in
   (forall i r, journal !! i = Some (CallProposeTransferOnElrond r) ->
      (exists j, (j < i)%nat /\
                 journal !! j = Some (CallWasTransferProposedOnElrond (false, None))) /\
      (exists k, (k < i)%nat /\ journal !! k = Some (CallMyTurnAsLeader true)) /\
      (forall i' r', journal !! i' = Some (CallProposeTransferOnElrond r') -> i' = i)) /\
   (CallWasTransferProposedOnElrond (true, None) ∈ journal ->
      next = SigningProposedTransferOnElrond /\
      forall r, CallProposeTransferOnElrond r ∉ journal)) /\
  (let journal := journal_of proposeSetStatusStep_Execute s in
   let next := next_of proposeSetStatusStep_Execute s in
   (forall i r, journal !! i = Some (CallProposeSetStatusOnElrond r) ->
      (exists j, (j < i)%nat /\
                 journal !! j = Some (CallWasSetStatusProposedOnElrond (false, None))) /\
      (exists k, (k < i)%nat /\ journal !! k = Some (CallMyTurnAsLeader true)) /\
      (forall i' r', journal !! i' = Some (CallProposeSetStatusOnElrond r') -> i' = i)) /\
   (CallWasSetStatusProposedOnElrond (true, None) ∈ journal ->
      next = SigningProposedSetStatusOnElrond /\
      forall r, CallProposeSetStatusOnElrond r ∉ journal)).
Proof.
  split.
  - run_step. answer GetStoredBatch s. destruct r as [b|]; simpl.
    2: { split; [intros i r Hi; at_index i|in_journal]. }
    answer WasTransferProposedOnElrond s0. destruct r as [[|] [e|]]; simpl.
    1-3: split; [intros i r Hi; at_index i|in_journal].
    answer MyTurnAsLeader s1. destruct r; simpl.
    2: { split; [intros i r Hi; at_index i|in_journal]. }
    answer ProposeTransferOnElrond s2.
    destruct r as [e|]; simpl.
    all: split; [|in_journal].
    all: intros i r Hi; at_index i.
    all: split; [exists 1%nat; split; [lia|done]|].
    all: split; [exists 2%nat; split; [lia|done]|].
    all: intros i' r' Hi'; at_index i'; done.
  - run_step. answer GetStoredBatch s. destruct r as [b|]; simpl.
    2: { split; [intros i r Hi; at_index i|in_journal]. }
    answer WasSetStatusProposedOnElrond s0. destruct r as [[|] [e|]]; simpl.
    1-3: split; [intros i r Hi; at_index i|in_journal].
    answer MyTurnAsLeader s1. destruct r; simpl.
    2: { split; [intros i r Hi; at_index i|in_journal]. }
    answer ProposeSetStatusOnElrond s2.
    destruct r as [e|]; simpl.
    all: split; [|in_journal].
    all: intros i r Hi; at_index i.
    all: split; [exists 1%nat; split; [lia|done]|].
    all: split; [exists 2%nat; split; [lia|done]|].
    all: intros i' r' Hi'; at_index i'; done.
Qed.

End Steps.

(** C3 on the stub of the unit test "quorum reached". *)
Lemma waitForQuorumOnTransferStep_transitions_reached :
  steps.next_of steps.waitForQuorumOnTransferStep_Execute
    (examples.stubWaitForQuorum false (true, None))
  = steps.PerformingTransfer.
Proof.
  apply (proj1 (waitForQuorumOnTransferStep_transitions
                  (examples.stubWaitForQuorum false (true, None)))).
  apply elem_of_cons. right. apply elem_of_cons. left. reflexivity.
Defined.

(** C4 on the stub of the unit test "if leader": the proposal is the fourth
    call, the check (answering [false]) the second. *)
Lemma proposeStep_checks_before_proposing_leader :
  exists j, (j < 3)%nat /\
    steps.journal_of steps.proposeSetStatusStep_Execute examples.stubProposeSetStatus !! j
    = Some (steps.CallWasSetStatusProposedOnElrond (false, None)).
Proof.
  exact (proj1 (proj1 (proj2 (proposeStep_checks_before_proposing
                                 examples.stubProposeSetStatus))
                  3%nat None eq_refl)).
Defined.

(** The unit tests of the steps, replayed on the stub executor. *)

Example TestExecute_WaitForQuorumOnTransfer_error :
  fst (steps.waitForQuorumOnTransferStep_Execute
         (examples.stubWaitForQuorum false (false, Some examples.expectedError)))
  = steps.GettingPendingBatchFromElrond.
Proof. reflexivity. Qed.

Example TestExecute_WaitForQuorumOnTransfer_max_retries :
  fst (steps.waitForQuorumOnTransferStep_Execute
         (examples.stubWaitForQuorum true (false, None)))
  = steps.GettingPendingBatchFromElrond.
Proof. reflexivity. Qed.

Example TestExecute_WaitForQuorumOnTransfer_not_reached :
  fst (steps.waitForQuorumOnTransferStep_Execute
         (examples.stubWaitForQuorum false (false, None)))
  = steps.WaitingForQuorumOnTransfer.
Proof. reflexivity. Qed.

Example TestExecute_WaitForQuorumOnTransfer_reached :
  fst (steps.waitForQuorumOnTransferStep_Execute
         (examples.stubWaitForQuorum false (true, None)))
  = steps.PerformingTransfer.
Proof. reflexivity. Qed.

Example TestExecute_WaitForQuorumOnTransfer_reached_journal :
  steps.journal_of steps.waitForQuorumOnTransferStep_Execute
    (examples.stubWaitForQuorum false (true, None))
  = [steps.CallProcessMaxRetriesOnEthereum false;
     steps.CallProcessQuorumReachedOnEthereum (true, None)].
Proof. reflexivity. Qed.

Example TestExecute_ProposeSetStatus_nil_batch :
  fst (steps.proposeSetStatusStep_Execute
         (steps.mkStub None (false, None) None (false, None) None true false (false, None)))
  = steps.GettingPendingBatchFromElrond.
Proof. reflexivity. Qed.

Example TestExecute_ProposeSetStatus_error_on_check :
  fst (steps.proposeSetStatusStep_Execute
         (steps.mkStub (Some examples.batchS1) (false, None) None
            (false, Some examples.expectedError) None true false (false, None)))
  = steps.GettingPendingBatchFromElrond.
Proof. reflexivity. Qed.

Example TestExecute_ProposeSetStatus_error_on_propose :
  fst (steps.proposeSetStatusStep_Execute
         (steps.mkStub (Some examples.batchS1) (false, None) None (false, None)
            (Some examples.expectedError) true false (false, None)))
  = steps.GettingPendingBatchFromElrond.
Proof. reflexivity. Qed.

Example TestExecute_ProposeSetStatus_was_proposed :
  fst (steps.proposeSetStatusStep_Execute
         (steps.mkStub (Some examples.batchS1) (false, None) None (true, None) None
            true false (false, None)))
  = steps.SigningProposedSetStatusOnElrond /\
  steps.journal_of steps.proposeSetStatusStep_Execute
    (steps.mkStub (Some examples.batchS1) (false, None) None (true, None) None
       true false (false, None))
  = [steps.CallGetStoredBatch (Some examples.batchS1);
     steps.CallWasSetStatusProposedOnElrond (true, None)].
Proof. split; reflexivity. Qed.

Example TestExecute_ProposeSetStatus_not_leader :
  fst (steps.proposeSetStatusStep_Execute
         (steps.mkStub (Some examples.batchS1) (false, None) None (false, None) None
            false false (false, None)))
  = steps.ProposingSetStatusOnElrond.
Proof. reflexivity. Qed.

Example TestExecute_ProposeSetStatus_leader :
  fst (steps.proposeSetStatusStep_Execute examples.stubProposeSetStatus)
  = steps.SigningProposedSetStatusOnElrond /\
  steps.journal_of steps.proposeSetStatusStep_Execute examples.stubProposeSetStatus
  = [steps.CallGetStoredBatch (Some examples.batchS1);
     steps.CallWasSetStatusProposedOnElrond (false, None);
     steps.CallMyTurnAsLeader true;
     steps.CallProposeSetStatusOnElrond None].
Proof. split; reflexivity. Qed.

(** ** Signature broadcaster *)

Section Broadcaster.
Import p2p.

Variable Unmarshal : bytes -> SignedMessage + error.
Variable Marshal : SignedMessage -> bytes * option error.
Variable Verify : bytes -> bytes -> bytes -> bool.
Variable IsWhitelisted : bytes -> bool.
Variable SendToConnectedPeer_answer : string -> bytes -> string -> option error.

Local Abbreviation preProcess := (preProcessMessage Unmarshal Verify).
Local Abbreviation process :=
  (ProcessReceivedMessage Unmarshal Marshal Verify IsWhitelisted SendToConnectedPeer_answer).
Local Abbreviation sendLoop :=
  (broadcastCurrentSignatures_loop Marshal SendToConnectedPeer_answer).
Local Abbreviation sendOf := (p2p.sendOf Marshal).

(** The loop journals one send per message that marshals, in order, and
    touches nothing else. *)
Lemma broadcastCurrentSignatures_loop_sends stored peerId b :
  sendLoop stored peerId b
  = mkBroadcaster (publicKeys b) (signedMessages b) (nonces b)
      (sendCalls b ++ omap (sendOf peerId) stored).
Proof.
  revert b. induction stored as [|msg rest IH]; intros b; simpl.
  - rewrite app_nil_r. by destruct b.
  - unfold sendSignedMessageToPeer, sendOf, SendToConnectedPeer.
    destruct (Marshal msg) as [buff [e|]]; simpl.
    + by rewrite IH.
    + rewrite IH. simpl. by rewrite <- app_assoc.
Qed.

Lemma omap_sendOf_all (stored : list SignedMessage) peerId :
  (forall m, m ∈ stored -> (Marshal m).2 = None) ->
  omap (sendOf peerId) stored
  = (fun m => mkSend signTopicName (Marshal m).1 peerId) <$> stored.
Proof.
  induction stored as [|msg rest IH]; intros Hall; simpl; [done|].
  unfold sendOf at 1. pose proof (Hall msg ltac:(by left)) as Hm.
  destruct (Marshal msg) as [buff [e|]]; simpl in *; [done|].
  f_equal. apply IH. intros m Hin. apply Hall. by right.
Qed.

Lemma storedSignedMessages_elem (b : broadcaster) (m : SignedMessage) :
  m ∈ storedSignedMessages b <-> exists pk, signedMessages b !! pk = Some m.
Proof.
  unfold storedSignedMessages. rewrite list_elem_of_fmap. split.
  - intros ([pk m'] & -> & Hin). exists pk. by apply elem_of_map_to_list in Hin.
  - intros [pk Hpk]. exists (pk, m). split; [done|]. by apply elem_of_map_to_list.
Qed.

(** C5.  For every inbound message whose pre-processing fails (in
    particular: the signature does not verify, or the nonce is not strictly
    greater than the last accepted from that sender on that topic) or whose
    declared sender public key is not whitelisted, [ProcessReceivedMessage]
    returns an error before dispatching by topic: the broadcaster, hence its
    signature set and its nonce tracker, is left exactly as it was. *)
Theorem ProcessReceivedMessage_rejects (message : MessageP2P) (b : broadcaster) :
  (forall e, preProcess message b = inr e -> process message b = (Some e, b)) /\
  (forall msg,
     preProcess message b = inl msg -> IsWhitelisted (PublicKeyBytes msg) = false ->
     process message b = (Some (ErrPeerNotWhitelisted (PublicKeyBytes msg)), b)) /\
  (forall msg,
     Unmarshal (Data message) = inl msg ->
     Verify (PublicKeyBytes msg) (Payload msg ++ PutUint64 (Nonce msg)) (Signature msg) = false ->
     process message b = (Some ErrInvalidSignature, b)) /\
  (forall msg lastAccepted,
     Unmarshal (Data message) = inl msg ->
     Verify (PublicKeyBytes msg) (Payload msg ++ PutUint64 (Nonce msg)) (Signature msg) = true ->
     nonces b !! (PublicKeyBytes msg, Topic message) = Some lastAccepted ->
     Nonce msg <= lastAccepted ->
     process message b = (Some ErrNonceNotGreater, b)) /\
  (forall e b',
     process message b = (Some e, b') ->
     b' = b /\ signedMessages b' = signedMessages b /\ nonces b' = nonces b).
Proof.
  unfold ProcessReceivedMessage. split; [|split; [|split; [|split]]].
  - by intros e ->.
  - by intros msg -> ->.
  - intros msg Hu Hv. unfold preProcessMessage. by rewrite Hu, Hv.
  - intros msg lastAccepted Hu Hv Hn Hle. unfold preProcessMessage. rewrite Hu, Hv, Hn. simpl.
    by destruct (Z.leb_spec (Nonce msg) lastAccepted); [|lia].
  - intros e b'. destruct (preProcess message b) as [msg|e0]; [|by intros [= _ <-]].
    destruct (IsWhitelisted (PublicKeyBytes msg)); simpl; [|by intros [= _ <-]].
    destruct (Topic message =? joinTopicName)%string; [done|].
    by destruct (Topic message =? signTopicName)%string.
Qed.

(** C6.  For every accepted (whitelisted, signature-verified, fresh-nonce)
    message received on the join topic, the broadcaster records the sender
    and then sends each currently stored signed message, individually
    marshalled again, to the joining peer on the sign topic: the calls of
    [SendToConnectedPeer] it adds are exactly one per stored message, each
    on the sign topic, to the peer the join came from and with that
    message's marshalling.  (The marshalizer of the broadcaster is the JSON
    one, which does not fail on a signed message: that is the hypothesis on
    [Marshal].) *)
Theorem ProcessReceivedMessage_join_bootstraps
  (message : MessageP2P) (b : broadcaster) (msg : SignedMessage) :
  preProcess message b = inl msg ->
  IsWhitelisted (PublicKeyBytes msg) = true ->
  Topic message = joinTopicName ->
  (forall m, m ∈ storedSignedMessages b -> (Marshal m).2 = None) ->
  exists b',
    process message b = (None, b') /\
    PublicKeyBytes msg ∈ publicKeys b' /\
    signedMessages b' = signedMessages b /\
    sendCalls b'
    = sendCalls b
      ++ ((fun m => mkSend signTopicName (Marshal m).1 (Peer message))
            <$> storedSignedMessages b) /\
    (forall pk m,
       signedMessages b !! pk = Some m ->
       mkSend signTopicName (Marshal m).1 (Peer message) ∈ sendCalls b').
Proof.
  intros Hpre Hw Ht Hm. unfold ProcessReceivedMessage. rewrite Hpre, Hw, Ht. simpl.
  unfold broadcastCurrentSignatures. rewrite broadcastCurrentSignatures_loop_sends.
  eexists. split; [done|]. simpl.
  assert (Hs : storedSignedMessages (addJoinedMessage msg b) = storedSignedMessages b) by done.
  rewrite Hs, omap_sendOf_all by done.
  split; [set_solver|]. split; [done|]. split; [done|].
  intros pk m Hpk. apply elem_of_app. right.
  apply (list_elem_of_fmap_2 (fun m => mkSend signTopicName (Marshal m).1 (Peer message))).
  apply storedSignedMessages_elem. by exists pk.
Qed.

End Broadcaster.

(** C5 on a sign message of relayer [0x62] whose signature does not verify:
    the stored signature and the last accepted nonce stay. *)
Lemma ProcessReceivedMessage_rejects_forged :
  p2p.ProcessReceivedMessage examples.toyUnmarshal examples.toyMarshal examples.toyVerify
    examples.toyIsWhitelisted examples.toySendAnswer
    examples.forgedFromB examples.broadcasterWithSignature
  = (Some ErrInvalidSignature, examples.broadcasterWithSignature).
Proof.
  refine (proj1 (proj2 (proj2
    (ProcessReceivedMessage_rejects examples.toyUnmarshal examples.toyMarshal
       examples.toyVerify examples.toyIsWhitelisted examples.toySendAnswer
       examples.forgedFromB examples.broadcasterWithSignature)))
    (p2p.mkSignedMessage [x30] [x62] [x31] 6) _ _).
  - reflexivity.
  - reflexivity.
Defined.

Example ProcessReceivedMessage_rejects_replayed :
  p2p.ProcessReceivedMessage examples.toyUnmarshal examples.toyMarshal examples.toyVerify
    examples.toyIsWhitelisted examples.toySendAnswer
    examples.replayedFromB examples.broadcasterWithSignature
  = (Some ErrNonceNotGreater, examples.broadcasterWithSignature).
Proof. vm_compute. reflexivity. Qed.

Example ProcessReceivedMessage_rejects_stranger :
  p2p.ProcessReceivedMessage examples.toyUnmarshal examples.toyMarshal examples.toyVerify
    examples.toyIsWhitelisted examples.toySendAnswer
    examples.signFromStranger examples.broadcasterWithSignature
  = (Some (ErrPeerNotWhitelisted [x7a]), examples.broadcasterWithSignature).
Proof. vm_compute. reflexivity. Qed.

(** C6 on the join of relayer [0x61] arriving from peer ["late"] at a
    broadcaster that stores one signature of relayer [0x62]. *)
Lemma ProcessReceivedMessage_join_bootstraps_late :
  exists b',
    p2p.ProcessReceivedMessage examples.toyUnmarshal examples.toyMarshal examples.toyVerify
      examples.toyIsWhitelisted examples.toySendAnswer
      examples.joinFromA examples.broadcasterWithSignature = (None, b') /\
    [x61] ∈ p2p.publicKeys b' /\
    p2p.signedMessages b' = p2p.signedMessages examples.broadcasterWithSignature /\
    p2p.sendCalls b'
    = p2p.sendCalls examples.broadcasterWithSignature
      ++ ((fun m => p2p.mkSend p2p.signTopicName (examples.toyMarshal m).1 "late")
            <$> p2p.storedSignedMessages examples.broadcasterWithSignature) /\
    (forall pk m,
       p2p.signedMessages examples.broadcasterWithSignature !! pk = Some m ->
       p2p.mkSend p2p.signTopicName (examples.toyMarshal m).1 "late" ∈ p2p.sendCalls b').
Proof.
  apply (ProcessReceivedMessage_join_bootstraps examples.toyUnmarshal examples.toyMarshal
           examples.toyVerify examples.toyIsWhitelisted examples.toySendAnswer
           examples.joinFromA examples.broadcasterWithSignature
           (p2p.mkSignedMessage [x20] [x61] [x20] 1)).
  - reflexivity.
  - reflexivity.
  - reflexivity.
  - intros m _. reflexivity.
Defined.

Example ProcessReceivedMessage_join_sends :
  p2p.sendCalls
    (p2p.ProcessReceivedMessage examples.toyUnmarshal examples.toyMarshal examples.toyVerify
       examples.toyIsWhitelisted examples.toySendAnswer
       examples.joinFromA examples.broadcasterWithSignature).2
  = [p2p.mkSend "sign/1" [x62; x10; x05; x10] "late"].
Proof. vm_compute. reflexivity. Qed.

(** ** Batch processor *)

Section ExtractList.
Import batchProcessor.

Lemma read_slice_bytes h h' s : h_bytes h' = h_bytes h -> read_slice h' s = read_slice h s.
Proof. intros Hb. unfold read_slice. by rewrite Hb. Qed.

Lemma bigint_new_spec v h :
  let '(x, h') := bigint_new v h in
  (x ∉ dom (h_bigint h)) /\ (h_bytes h' = h_bytes h) /\
  (h_bigint h' = <[ x := v ]> (h_bigint h)) /\ (h_bigint h ⊆ h_bigint h').
Proof.
  unfold bigint_new. simpl.
  pose proof (is_fresh (dom (h_bigint h))) as Hf.
  split; [done|]. split; [done|]. split; [done|].
  apply insert_subseteq. by apply not_elem_of_dom.
Qed.

Lemma dom_mono_bigint (m m' : gmap loc Z) x : m ⊆ m' -> x ∉ dom m' -> x ∉ dom m.
Proof. intros Hs Hx Hin. apply Hx. by apply (subseteq_dom m m'). Qed.

Lemma lookup_allocated (m m' : gmap loc Z) y : m ⊆ m' -> y ∈ dom m -> m' !! y = m !! y.
Proof.
  intros Hs Hy. apply elem_of_dom in Hy as [v Hv]. rewrite Hv.
  by apply (lookup_weaken m m').
Qed.

Lemma amount_allocated_mono h h' dt :
  h_bigint h ⊆ h_bigint h' -> amount_allocated h dt -> amount_allocated h' dt.
Proof.
  intros Hs (x & Hx & Hd). exists x. split; [done|]. by apply (subseteq_dom _ _ Hs).
Qed.

Lemma amount_in_mono h h' dt :
  h_bigint h ⊆ h_bigint h' -> amount_allocated h dt -> amount_in h' dt = amount_in h dt.
Proof.
  intros Hs (x & Hx & Hd). unfold amount_in. rewrite Hx. simpl. by apply lookup_allocated.
Qed.

Lemma Forall2_impl_Forall {A C : Type} (P : A -> Prop) (R R' : A -> C -> Prop) l k :
  Forall P l -> Forall2 R l k -> (forall x y, P x -> R x y -> R' x y) -> Forall2 R' l k.
Proof.
  intros HP HR Himpl. induction HR as [|x y l k Hxy HR IH]; [constructor|].
  apply Forall_cons in HP as [Hx HP]. constructor; [by apply Himpl|by apply IH].
Qed.

Lemma fresh_holding_earlier h h2 h' value value2 dt x :
  h_bigint h ⊆ h_bigint h2 -> value2 dt = value dt ->
  fresh_holding h2 h' value2 dt x -> fresh_holding h h' value dt x.
Proof.
  intros Hs Hv [Hf Hx]. split; [by apply (dom_mono_bigint _ _ _ Hs)|congruence].
Qed.

(** What the loop appends to the lists it is given, and what it does to the
    heap: it allocates, and writes to nothing that was allocated before. *)
Lemma ExtractList_loop_spec deposits arg h :
  Forall (amount_allocated h) deposits ->
  exists h' newAmounts newNonces,
    ExtractList_loop deposits arg h
    = Returns (mkArgs (Tokens arg ++ tokens_of h deposits)
                 (Recipients arg ++ recipients_of h deposits)
                 (ConvertedTokenBytes arg ++ (clients.ConvertedTokenBytes <$> deposits))
                 (Amounts arg ++ newAmounts) (Nonces arg ++ newNonces), h') /\
    h_bytes h' = h_bytes h /\
    h_bigint h ⊆ h_bigint h' /\
    Forall2 (fresh_holding h h' (amount_in h)) deposits newAmounts /\
    Forall2 (fresh_holding h h' nonce_of) deposits newNonces.
Proof.
  revert arg h. induction deposits as [|dt rest IH]; intros arg h Hall; cbn [ExtractList_loop].
  - exists h, [], []. unfold tokens_of, recipients_of. simpl. rewrite !app_nil_r.
    destruct arg. by repeat split.
  - apply Forall_cons in Hall as [Hdt Hrest].
    destruct Hdt as (y & Hy & Hdom). rewrite Hy.
    pose proof (bigint_new_spec (bigint_get h y) h) as H1.
    destruct (bigint_new (bigint_get h y) h) as [amount h1].
    destruct H1 as (Hf1 & Hb1 & Hm1 & Hs1).
    pose proof (bigint_new_spec (clients.Nonce dt) h1) as H2.
    destruct (bigint_new (clients.Nonce dt) h1) as [nonce h2].
    destruct H2 as (Hf2 & Hb2 & Hm2 & Hs2).
    assert (Hs12 : h_bigint h ⊆ h_bigint h2) by (by etrans).
    assert (Hb12 : h_bytes h2 = h_bytes h) by congruence.
    destruct (IH (mkArgs (Tokens arg ++ [BytesToAddress (read_slice h (clients.ConvertedTokenBytes dt))])
                    (Recipients arg ++ [BytesToAddress (read_slice h (ToBytes dt))])
                    (ConvertedTokenBytes arg ++ [clients.ConvertedTokenBytes dt])
                    (Amounts arg ++ [amount]) (Nonces arg ++ [nonce])) h2)
      as (h' & newA & newN & Hrun & Hb' & Hs' & HA & HN).
    { eapply Forall_impl; [exact Hrest|]. intros d. by apply amount_allocated_mono. }
    exists h', (amount :: newA), (nonce :: newN).
    rewrite Hrun. cbn [Tokens Recipients ConvertedTokenBytes Amounts Nonces]. split.
    { assert (Ht : tokens_of h2 rest = tokens_of h rest).
      { apply list_fmap_ext. intros i d _. by rewrite (read_slice_bytes h h2). }
      assert (Hr : recipients_of h2 rest = recipients_of h rest).
      { apply list_fmap_ext. intros i d _. by rewrite (read_slice_bytes h h2). }
      rewrite Ht, Hr, <- !app_assoc. done. }
    split; [congruence|]. split; [by etrans|].
    assert (Hy' : h_bigint h !! y = Some (bigint_get h y)).
    { unfold bigint_get. apply elem_of_dom in Hdom as [v ->]. done. }
    split.
    + constructor.
      * split; [done|]. unfold amount_in. rewrite Hy. simpl. rewrite Hy'.
        apply (lookup_weaken (h_bigint h1)); [|by etrans].
        rewrite Hm1. apply lookup_insert_eq.
      * eapply Forall2_impl_Forall; [exact Hrest|exact HA|].
        intros d x Hd. apply fresh_holding_earlier; [done|]. by apply amount_in_mono.
    + constructor.
      * split; [by apply (dom_mono_bigint _ _ _ Hs1)|]. unfold nonce_of.
        apply (lookup_weaken (h_bigint h2)); [|done].
        rewrite Hm2. apply lookup_insert_eq.
      * eapply Forall2_impl; [exact HN|].
        intros d x. by apply fresh_holding_earlier.
Qed.

(** A heap that agrees with [h] on the byte arrays and on every [big.Int]
    allocated in [h] shows the batch as [h] does. *)
Lemma view_batch_frame h h'' b :
  amounts_allocated h b ->
  h_bytes h'' = h_bytes h ->
  (forall y, y ∈ dom (h_bigint h) -> h_bigint h'' !! y = h_bigint h !! y) ->
  view_batch h'' b = view_batch h b.
Proof.
  intros Hall Hb Hy. unfold view_batch. apply list_fmap_ext. intros i dt Hdt.
  unfold view_deposit. rewrite !(read_slice_bytes h h'') by done. f_equal.
  eapply Forall_lookup_1 in Hall as (y & Hay & Hdom); [|exact Hdt].
  rewrite Hay. simpl. by apply Hy.
Qed.

Lemma bigint_set_frame h' x v (m : gmap loc Z) :
  m ⊆ h_bigint h' -> x ∉ dom m ->
  forall y, y ∈ dom m -> h_bigint (bigint_set x v h') !! y = m !! y.
Proof.
  intros Hs Hx y Hy. unfold bigint_set. simpl.
  rewrite lookup_insert_ne by (intros ->; done). by apply lookup_allocated.
Qed.

(** C10, as amended.  For every batch whose amounts are allocated,
    [ExtractList] returns a nil error and an [ArgListsBatch] whose
    [Recipients], [Tokens], [ConvertedTokenBytes], [Amounts] and [Nonces]
    each have as many elements as the batch has deposits, in the order of
    the deposits: [Recipients[i]] is the address of deposit [i]'s recipient
    bytes, [Tokens[i]] the address of its converted token bytes, [Nonces[i]]
    a freshly allocated integer holding its nonce, [Amounts[i]] a freshly
    allocated copy of its amount, and [ConvertedTokenBytes[i]] the deposit's
    own slice (same backing array).  The batch is left unmodified, and no
    later write through the result other than one through
    [ConvertedTokenBytes] alters it. *)
Theorem ExtractList_lists (h : heap) (b : TransferBatch) :
  amounts_allocated h b ->
  exists arg h',
    ExtractList (Some b) h = Returns ((arg, None), h') /\
    (length (Recipients arg) = length (Deposits b) /\
     length (Tokens arg) = length (Deposits b) /\
     length (ConvertedTokenBytes arg) = length (Deposits b) /\
     length (Amounts arg) = length (Deposits b) /\
     length (Nonces arg) = length (Deposits b)) /\
    (forall i dt,
       Deposits b !! i = Some dt ->
       Recipients arg !! i = Some (BytesToAddress (read_slice h (ToBytes dt))) /\
       Tokens arg !! i
         = Some (BytesToAddress (read_slice h (clients.ConvertedTokenBytes dt))) /\
       ConvertedTokenBytes arg !! i = Some (clients.ConvertedTokenBytes dt) /\
       (exists x, Nonces arg !! i = Some x /\ (x ∉ dom (h_bigint h)) /\
                  h_bigint h' !! x = Some (clients.Nonce dt)) /\
       (exists x, Amounts arg !! i = Some x /\ (x ∉ dom (h_bigint h)) /\
                  Some x <> Amount dt /\
                  h_bigint h' !! x = amount_in h dt)) /\
    view_batch h' b = view_batch h b /\
    (forall m arg'' h'',
       writes_converted_token m = false ->
       mutate m arg h' = Returns (arg'', h'') ->
       view_batch h'' b = view_batch h b).
Proof.
  intros Hall. unfold ExtractList.
  destruct (ExtractList_loop_spec (Deposits b) emptyArgs h Hall)
    as (h' & newA & newN & Hrun & Hb & Hs & HA & HN).
  rewrite Hrun. simpl. eexists _, h'. split; [done|]. simpl.
  assert (HfA : forall i x, newA !! i = Some x -> x ∉ dom (h_bigint h)).
  { intros i x Hx. destruct (Forall2_lookup_r _ _ _ _ _ HA Hx) as (dt & _ & Hf & _). done. }
  assert (HfN : forall i x, newN !! i = Some x -> x ∉ dom (h_bigint h)).
  { intros i x Hx. destruct (Forall2_lookup_r _ _ _ _ _ HN Hx) as (dt & _ & Hf & _). done. }
  split; [|split; [|split]].
  - unfold recipients_of, tokens_of. rewrite !length_fmap.
    rewrite <- (Forall2_length _ _ _ HA), <- (Forall2_length _ _ _ HN). done.
  - intros i dt Hdt. unfold recipients_of, tokens_of. rewrite !list_lookup_fmap, Hdt. simpl.
    split; [done|]. split; [done|]. split; [done|]. split.
    + destruct (Forall2_lookup_l _ _ _ _ _ HN Hdt) as (x & Hx & Hf & Hv). by exists x.
    + destruct (Forall2_lookup_l _ _ _ _ _ HA Hdt) as (x & Hx & Hf & Hv). exists x.
      split; [done|]. split; [done|]. split; [|done].
      intros Heq. eapply Forall_lookup_1 in Hall as (y & Hy & Hdom); [|exact Hdt].
      rewrite Hy in Heq. injection Heq as ->. done.
  - apply view_batch_frame; [done|done|]. intros y Hy. by apply lookup_allocated.
  - intros m arg'' h'' Hm Hmut. apply view_batch_frame; [done| |].
    + destruct m as [i v|i v|i j v|i j v|i j v]; simpl in Hmut; [| | | |done].
      * destruct (newA !! i); [|done]. by injection Hmut as _ <-.
      * destruct (newN !! i); [|done]. by injection Hmut as _ <-.
      * destruct (set_address_byte _ i j v); [|done]. by injection Hmut as _ <-.
      * destruct (set_address_byte _ i j v); [|done]. by injection Hmut as _ <-.
    + destruct m as [i v|i v|i j v|i j v|i j v]; simpl in Hmut; [| | | |done].
      * destruct (newA !! i) as [x|] eqn:Hx; [|done]. injection Hmut as _ <-.
        apply bigint_set_frame; [done|by eapply HfA].
      * destruct (newN !! i) as [x|] eqn:Hx; [|done]. injection Hmut as _ <-.
        apply bigint_set_frame; [done|by eapply HfN].
      * destruct (set_address_byte _ i j v); [|done]. injection Hmut as _ <-.
        intros y Hy. by apply lookup_allocated.
      * destruct (set_address_byte _ i j v); [|done]. injection Hmut as _ <-.
        intros y Hy. by apply lookup_allocated.
Qed.

End ExtractList.

(** C10 as amended, on a batch of one deposit. *)
Lemma ExtractList_lists_one_deposit :
  exists arg h',
    batchProcessor.ExtractList (Some examples.batchOnHeap) examples.heapOfBatch
      = Returns ((arg, None), h') /\
    length (batchProcessor.Amounts arg) = 1%nat /\
    batchProcessor.view_batch h' examples.batchOnHeap
      = batchProcessor.view_batch examples.heapOfBatch examples.batchOnHeap.
Proof.
  destruct (ExtractList_lists examples.heapOfBatch examples.batchOnHeap)
    as (arg & h' & Hrun & (_ & _ & _ & Hlen & _) & _ & Hview & _).
  - constructor; [|constructor]. exists 1%positive. split; [reflexivity|].
    apply elem_of_dom. exists 1000. reflexivity.
  - exists arg, h'. split; [exact Hrun|]. split; [exact Hlen|exact Hview].
Defined.

Example ExtractList_one_deposit_runs :
  batchProcessor.ExtractList (Some examples.batchOnHeap) examples.heapOfBatch
  = Returns
      ((batchProcessor.mkArgs
          [[x00; x00; x00; x00; x00; x00; x00; x00; x00; x00;
            x00; x00; x00; x00; x00; x00; x00; x00; xaa; xbb]]
          [[x00; x00; x00; x00; x00; x00; x00; x00; x00; x00;
            x00; x00; x00; x00; x00; x00; x00; x00; x01; x02]]
          [mkSlice 11%positive 0 2] [2%positive] [3%positive], None),
       mkHeap (h_bytes examples.heapOfBatch)
         (<[ 3%positive := 2 ]> (<[ 2%positive := 1000 ]> (h_bigint examples.heapOfBatch)))).
Proof. vm_compute. reflexivity. Qed.

(** C10 as stated fails on that batch: the result's [ConvertedTokenBytes[0]]
    is the deposit's own slice, and a write through it shows in the batch. *)
Lemma ExtractList_result_aliases_batch :
  ~ (forall arg h' m arg'' h'',
       batchProcessor.ExtractList (Some examples.batchOnHeap) examples.heapOfBatch
         = Returns ((arg, None), h') ->
       batchProcessor.mutate m arg h' = Returns (arg'', h'') ->
       batchProcessor.view_batch h'' examples.batchOnHeap
         = batchProcessor.view_batch examples.heapOfBatch examples.batchOnHeap).
Proof.
  intros Hclaim.
  destruct (batchProcessor.ExtractList (Some examples.batchOnHeap) examples.heapOfBatch)
    as [[[arg e] h']|p] eqn:Hrun; [|vm_compute in Hrun; discriminate Hrun].
  assert (He : e = None) by (vm_compute in Hrun; congruence). subst e.
  destruct (batchProcessor.mutate (batchProcessor.SetConvertedTokenByte 0 0 xff) arg h')
    as [[arg'' h'']|p] eqn:Hmut.
  - specialize (Hclaim arg h' _ arg'' h'' eq_refl Hmut).
    vm_compute in Hrun. injection Hrun as <- <-.
    vm_compute in Hmut. injection Hmut as <- <-.
    vm_compute in Hclaim. discriminate Hclaim.
  - vm_compute in Hrun. injection Hrun as <- <-. vm_compute in Hmut. discriminate Hmut.
Qed.

(* ===================================================================== *)
(** * Further properties of the embedded code *)
(* ===================================================================== *)

(** ** Bridge executor: more on the deposit nonces *)

Lemma verifyDepositNonces_loop_first deposits s e :
  bridge.verifyDepositNonces_loop deposits (U64.wrap s) = Some e ->
  exists (i : nat) dt,
    deposits !! i = Some dt /\
    e = ErrInvalidDepositNonce dt (U64.wrap (s + Z.of_nat i)) /\
    Nonce dt <> U64.wrap (s + Z.of_nat i) /\
    (forall (j : nat) d, (j < i)%nat -> deposits !! j = Some d ->
       Nonce d = U64.wrap (s + Z.of_nat j)).
Proof.
  revert s. induction deposits as [|dt rest IH]; intros s; simpl; [done|].
  destruct (Z.eqb_spec (Nonce dt) (U64.wrap s)) as [Heq|Hne]; simpl.
  - rewrite U64_add_wrap_l. intros H. destruct (IH _ H) as (i & d & Hd & -> & Hx & Hbefore).
    exists (S i), d. split; [done|]. split; [f_equal; f_equal; lia|].
    split; [intros Hc; apply Hx; rewrite Hc; f_equal; lia|].
    intros [|j] d0 Hj; simpl.
    + intros [= <-]. rewrite Heq. f_equal. lia.
    + intros Hd0. rewrite (Hbefore j d0) by (done || lia). f_equal. lia.
  - intros [= <-]. exists 0%nat, dt. rewrite Z.add_0_r. split; [done|]. split; [done|].
    split; [done|]. intros j d Hj. lia.
Qed.

(** X1.  When the verification of the deposit nonces fails, the error names
    the first deposit whose nonce deviates, together with the nonce that was
    expected at its position, [L + 1 + i]; every deposit before it is in
    sequence. *)
Theorem VerifyLastDepositNonceExecutedOnEthereumBatch_first_deviation
  (executor : bridge.bridgeExecutor) (b : TransferBatch) (L : Z) (e : error) :
  bridge.batch executor = Some b ->
  ElrondClient.GetLastExecutedEthTxID (bridge.elrondClient executor) = (L, None) ->
  bridge.VerifyLastDepositNonceExecutedOnEthereumBatch executor
    = Returns (Some e, executor) ->
  exists (i : nat) dt,
    Deposits b !! i = Some dt /\
    e = ErrInvalidDepositNonce dt (U64.wrap (L + 1 + Z.of_nat i)) /\
    Nonce dt <> U64.wrap (L + 1 + Z.of_nat i) /\
    (forall (j : nat) d, (j < i)%nat -> Deposits b !! j = Some d ->
       Nonce d = U64.wrap (L + 1 + Z.of_nat j)).
Proof.
  intros Hb Hc. rewrite (VerifyLastDepositNonceExecutedOnEthereumBatch_eq _ _ _ Hb Hc).
  intros [= He]. by apply verifyDepositNonces_loop_first.
Qed.

(** X1 on scenario S3 (nonces 5 and 7 after last executed nonce 3): the
    deviation is at position 0, where 4 was expected. *)
Lemma VerifyLastDepositNonceExecutedOnEthereumBatch_first_deviation_S3 :
  exists (i : nat) dt,
    [examples.deposit5; examples.deposit7] !! i = Some dt /\
    ErrInvalidDepositNonce examples.deposit5 4
      = ErrInvalidDepositNonce dt (U64.wrap (3 + 1 + Z.of_nat i)) /\
    Nonce dt <> U64.wrap (3 + 1 + Z.of_nat i) /\
    (forall (j : nat) d, (j < i)%nat -> [examples.deposit5; examples.deposit7] !! j = Some d ->
       Nonce d = U64.wrap (3 + 1 + Z.of_nat j)).
Proof.
  exact (VerifyLastDepositNonceExecutedOnEthereumBatch_first_deviation examples.executorS3
           (mkBatch 12346 [examples.deposit5; examples.deposit7] []) 3
           (ErrInvalidDepositNonce examples.deposit5 4) eq_refl eq_refl eq_refl).
Defined.

(** X2.  A batch without deposits passes the verification whatever the last
    executed nonce is.  In a batch that passes, as long as the nonces do not
    wrap around, deposit [i] has nonce [L + 1 + i]: the nonces are all above
    [L] and strictly increasing, hence pairwise distinct. *)
Theorem VerifyLastDepositNonceExecutedOnEthereumBatch_increasing
  (executor : bridge.bridgeExecutor) (b : TransferBatch) (L : Z) :
  bridge.batch executor = Some b ->
  ElrondClient.GetLastExecutedEthTxID (bridge.elrondClient executor) = (L, None) ->
  (Deposits b = [] ->
   bridge.VerifyLastDepositNonceExecutedOnEthereumBatch executor = Returns (None, executor)) /\
  (0 <= L -> L + Z.of_nat (length (Deposits b)) < U64.modulus ->
   bridge.VerifyLastDepositNonceExecutedOnEthereumBatch executor = Returns (None, executor) ->
   (forall (i : nat) d, Deposits b !! i = Some d -> Nonce d = L + 1 + Z.of_nat i) /\
   (forall (i j : nat) di dj,
      (i < j)%nat -> Deposits b !! i = Some di -> Deposits b !! j = Some dj ->
      L < Nonce di < Nonce dj)).
Proof.
  intros Hb Hc. rewrite (VerifyLastDepositNonceExecutedOnEthereumBatch_eq _ _ _ Hb Hc).
  split.
  - by intros ->.
  - intros HL Hn [= Hloop].
    assert (Hpt : forall (i : nat) d, Deposits b !! i = Some d -> Nonce d = L + 1 + Z.of_nat i).
    { intros i d Hd.
      rewrite (proj1 (verifyDepositNonces_loop_None _ _) Hloop i d Hd).
      apply U64_wrap_small. apply lookup_lt_Some in Hd. unfold U64.in_range. lia. }
    split; [done|]. intros i j di dj Hij Hi Hj.
    rewrite (Hpt i di Hi), (Hpt j dj Hj). lia.
Qed.

(** X2 on scenario S1: the nonces 2 and 3 follow the last executed nonce 1. *)
Lemma VerifyLastDepositNonceExecutedOnEthereumBatch_increasing_S1 :
  Nonce examples.deposit3 = 1 + 1 + Z.of_nat 1.
Proof.
  refine (proj1 (proj2 (VerifyLastDepositNonceExecutedOnEthereumBatch_increasing
                          examples.executorS1 examples.batchS1 1 eq_refl eq_refl) _ _ eq_refl)
            1%nat examples.deposit3 eq_refl).
  - lia.
  - unfold U64.modulus. simpl. lia.
Defined.

(** ** Bridge executor: what is stored and what later calls use *)

(** X3.  A batch that [StoreBatchFromElrond] accepts is the one
    [GetStoredBatch] returns afterwards; a later attempt to store [nil] is
    refused and the stored batch stays; storing touches neither the action
    ID, the message hash nor the retry counters. *)
Theorem StoreBatchFromElrond_GetStoredBatch
  (executor : bridge.bridgeExecutor) (b : TransferBatch) :
  exists stored,
    bridge.StoreBatchFromElrond (Some b) executor = Returns (None, stored) /\
    bridge.GetStoredBatch stored = Returns (Some b, stored) /\
    bridge.StoreBatchFromElrond None stored = Returns (Some ErrNilBatch, stored) /\
    bridge.actionID stored = bridge.actionID executor /\
    bridge.msgHash stored = bridge.msgHash executor /\
    bridge.retriesOnElrond stored = bridge.retriesOnElrond executor /\
    bridge.retriesOnEthereum stored = bridge.retriesOnEthereum executor.
Proof. eexists. by repeat split. Qed.

(** X4.  [GetAndStoreBatchFromEthereum] has no guard against a [nil] batch:
    when the client answers without error, what it answers becomes the
    stored batch, a [nil] answer included, after which the operations that
    need a batch report the nil-batch error; when the client answers with an
    error, the executor is left as it was. *)
Theorem GetAndStoreBatchFromEthereum_stores_answer
  (executor : bridge.bridgeExecutor) (nonce : Z) :
  (forall answer,
     EthereumClient.GetBatch (bridge.ethereumClient executor) nonce = (answer, None) ->
     bridge.GetAndStoreBatchFromEthereum nonce executor
       = Returns (None, bridge.set_batch executor answer) /\
     bridge.GetStoredBatch (bridge.set_batch executor answer)
       = Returns (answer, bridge.set_batch executor answer) /\
     (answer = None ->
      bridge.WasTransferPerformedOnEthereum (bridge.set_batch executor answer)
        = Returns ((false, Some ErrNilBatch), bridge.set_batch executor answer))) /\
  (forall answer e,
     EthereumClient.GetBatch (bridge.ethereumClient executor) nonce = (answer, Some e) ->
     bridge.GetAndStoreBatchFromEthereum nonce executor = Returns (Some e, executor)).
Proof.
  unfold bridge.GetAndStoreBatchFromEthereum. split.
  - intros answer ->. split; [done|]. split; [done|]. by intros ->.
  - by intros answer e ->.
Qed.

(** X4 on the executor of scenario S1, whose Ethereum client answers a [nil]
    batch without error: the stored batch is lost. *)
Lemma GetAndStoreBatchFromEthereum_stores_answer_nil :
  bridge.GetAndStoreBatchFromEthereum 9 examples.executorS1
  = Returns (None, bridge.set_batch examples.executorS1 None).
Proof.
  exact (proj1 (proj1 (GetAndStoreBatchFromEthereum_stores_answer examples.executorS1 9)
                  None eq_refl)).
Defined.

(** X5.  After [GetAndStoreActionIDForProposeTransferOnElrond] (or its
    set-status sibling) has succeeded with action ID [a], [a] is what
    [GetStoredActionID] returns and what the later calls hand to the client:
    the quorum check, the signing, the perform action; "was the action
    signed" and "was the action performed" both ask the client whether [a]
    was executed, so they always agree. *)
Theorem GetAndStoreActionID_used_by_later_calls
  (InvalidActionID : Z) (executor : bridge.bridgeExecutor) (b : TransferBatch) (a : Z) :
  bridge.batch executor = Some b ->
  let stored := bridge.set_actionID executor a in
  (ElrondClient.GetActionIDForProposeTransfer (bridge.elrondClient executor) b = (a, None) ->
   bridge.GetAndStoreActionIDForProposeTransferOnElrond InvalidActionID executor
     = Returns ((a, None), stored)) /\
  (ElrondClient.GetActionIDForSetStatusOnPendingTransfer (bridge.elrondClient executor) b
     = (a, None) ->
   bridge.GetAndStoreActionIDForProposeSetStatusFromElrond InvalidActionID executor
     = Returns ((a, None), stored)) /\
  bridge.GetStoredActionID stored = Returns (a, stored) /\
  bridge.IsQuorumReachedOnElrond stored
    = Returns (ElrondClient.QuorumReached (bridge.elrondClient executor) a, stored) /\
  bridge.WasActionSignedOnElrond stored
    = Returns (ElrondClient.WasExecuted (bridge.elrondClient executor) a, stored) /\
  bridge.WasActionPerformedOnElrond stored = bridge.WasActionSignedOnElrond stored /\
  bridge.SignActionOnElrond stored
    = Returns ((ElrondClient.Sign (bridge.elrondClient executor) a).2, stored) /\
  bridge.PerformActionOnElrond stored
    = Returns ((ElrondClient.PerformAction (bridge.elrondClient executor) a b).2, stored).
Proof.
  intros Hb stored. subst stored.
  unfold bridge.GetAndStoreActionIDForProposeTransferOnElrond,
    bridge.GetAndStoreActionIDForProposeSetStatusFromElrond,
    bridge.SignActionOnElrond, bridge.PerformActionOnElrond.
  rewrite Hb. simpl. rewrite Hb.
  split; [by intros ->|]. split; [by intros ->|].
  split; [done|]. split; [done|]. split; [done|]. split; [done|]. split.
  - by destruct (ElrondClient.Sign _ a) as [hash [e|]].
  - by destruct (ElrondClient.PerformAction _ a b) as [hash [e|]].
Qed.

(** X5 on the executor of scenario S1, whose client answers action ID 663725. *)
Lemma GetAndStoreActionID_used_by_later_calls_S1 :
  bridge.GetAndStoreActionIDForProposeTransferOnElrond 0 examples.executorS1
  = Returns ((663725, None), bridge.set_actionID examples.executorS1 663725).
Proof.
  exact (proj1 (GetAndStoreActionID_used_by_later_calls 0 examples.executorS1 examples.batchS1
                  663725 eq_refl) eq_refl).
Defined.

(** X6.  [SignTransferOnEthereum] stores the message hash the client
    generated for the stored batch, and that hash is the one the later
    quorum check and the transfer execution hand to the client, the latter
    with the quorum size reduced to an [int]; a client that answers a [nil]
    quorum size without error makes the transfer execution panic on that
    pointer.  When the generation of the hash fails, the executor, its
    message hash included, is left as it was. *)
Theorem SignTransferOnEthereum_hash_used_by_later_calls
  (executor : bridge.bridgeExecutor) (b : TransferBatch) (hash : bytes) :
  bridge.batch executor = Some b ->
  (EthereumClient.GenerateMessageHash (bridge.ethereumClient executor) b = (hash, None) ->
   let signed := bridge.set_msgHash executor hash in
   bridge.SignTransferOnEthereum executor = Returns (None, signed) /\
   bridge.IsQuorumReachedOnEthereum signed
     = Returns (EthereumClient.IsQuorumReached (bridge.ethereumClient executor) hash, signed) /\
   (forall quorumSize,
      EthereumClient.GetQuorumSize (bridge.ethereumClient executor) = (Some quorumSize, None) ->
      bridge.PerformTransferOnEthereum signed
      = Returns ((EthereumClient.ExecuteTransfer (bridge.ethereumClient executor)
                    hash b (I64.wrap quorumSize)).2, signed)) /\
   (EthereumClient.GetQuorumSize (bridge.ethereumClient executor) = (None, None) ->
    bridge.PerformTransferOnEthereum signed = Panics NilPointerDereference)) /\
  (forall e,
     EthereumClient.GenerateMessageHash (bridge.ethereumClient executor) b = (hash, Some e) ->
     bridge.SignTransferOnEthereum executor = Returns (Some e, executor)).
Proof.
  intros Hb. unfold bridge.SignTransferOnEthereum, bridge.PerformTransferOnEthereum.
  rewrite Hb. split.
  - intros ->. simpl. rewrite Hb. split; [done|]. split; [done|]. split.
    + intros q ->. by destruct (EthereumClient.ExecuteTransfer _ hash b _) as [h [e|]].
    + by intros ->.
  - by intros e ->.
Qed.

(** X6 on the executor of scenario S1, whose client generates the empty hash
    and answers quorum size 1. *)
Lemma SignTransferOnEthereum_hash_used_by_later_calls_S1 :
  bridge.SignTransferOnEthereum examples.executorS1
  = Returns (None, bridge.set_msgHash examples.executorS1 []).
Proof.
  exact (proj1 (proj1 (SignTransferOnEthereum_hash_used_by_later_calls examples.executorS1
                         examples.batchS1 [] eq_refl) eq_refl)).
Defined.

(** ** Bridge executor: what a call leaves alone *)

Ltac unchanged :=
  intros executor; cbv beta delta
    [bridge.MyTurnAsLeader bridge.GetBatchFromElrond bridge.GetStoredBatch
     bridge.GetStoredActionID
     bridge.WasTransferProposedOnElrond bridge.ProposeTransferOnElrond
     bridge.WasSetStatusProposedOnElrond bridge.ProposeSetStatusOnElrond
     bridge.WasActionSignedOnElrond bridge.SignActionOnElrond
     bridge.IsQuorumReachedOnElrond bridge.GetBatchStatusesFromEthereum
     bridge.WasActionPerformedOnElrond bridge.PerformActionOnElrond
     bridge.WasTransferPerformedOnEthereum bridge.IsQuorumReachedOnEthereum];
  repeat match goal with
         | |- context [match ?x with _ => _ end] => destruct x
         end;
  eexists; reflexivity.

(** X7.  No query, proposal, signing or execution that acts on the clients
    only changes what the executor stores: the batch, the action ID, the
    message hash and the retry counters are what they were whenever such a
    call returns.  Sixteen of them neither walk the deposits nor
    dereference an answer of a client, and return on every executor,
    whatever the clients answer and whether or not a batch is stored.
    [PerformTransferOnEthereum] dereferences the quorum size: it panics
    exactly when a batch is stored and the client answers a [nil] quorum
    size without error, and returns otherwise. *)
Theorem executor_queries_leave_unchanged :
  (bridge.leaves_unchanged bridge.MyTurnAsLeader /\
   bridge.leaves_unchanged bridge.GetBatchFromElrond /\
   bridge.leaves_unchanged bridge.GetStoredBatch /\
   bridge.leaves_unchanged bridge.GetStoredActionID /\
   bridge.leaves_unchanged bridge.WasTransferProposedOnElrond /\
   bridge.leaves_unchanged bridge.ProposeTransferOnElrond /\
   bridge.leaves_unchanged bridge.WasSetStatusProposedOnElrond /\
   bridge.leaves_unchanged bridge.ProposeSetStatusOnElrond /\
   bridge.leaves_unchanged bridge.WasActionSignedOnElrond /\
   bridge.leaves_unchanged bridge.SignActionOnElrond /\
   bridge.leaves_unchanged bridge.IsQuorumReachedOnElrond /\
   bridge.leaves_unchanged bridge.GetBatchStatusesFromEthereum /\
   bridge.leaves_unchanged bridge.WasActionPerformedOnElrond /\
   bridge.leaves_unchanged bridge.PerformActionOnElrond /\
   bridge.leaves_unchanged bridge.WasTransferPerformedOnEthereum /\
   bridge.leaves_unchanged bridge.IsQuorumReachedOnEthereum) /\
  bridge.keeps_executor bridge.VerifyLastDepositNonceExecutedOnEthereumBatch /\
  bridge.keeps_executor bridge.PerformTransferOnEthereum /\
  (forall executor,
     (bridge.PerformTransferOnEthereum executor = Panics NilPointerDereference <->
      exists b,
        bridge.batch executor = Some b /\
        EthereumClient.GetQuorumSize (bridge.ethereumClient executor) = (None, None)) /\
     (forall p, bridge.PerformTransferOnEthereum executor = Panics p ->
        p = NilPointerDereference) /\
     ((forall b, bridge.batch executor = Some b ->
         EthereumClient.GetQuorumSize (bridge.ethereumClient executor) <> (None, None)) ->
      exists r, bridge.PerformTransferOnEthereum executor = Returns (r, executor))).
Proof.
  split; [repeat apply conj; unchanged|]. split; [|split].
  - intros executor r executor'.
    unfold bridge.VerifyLastDepositNonceExecutedOnEthereumBatch, bridge.verifyDepositNonces.
    destruct (bridge.batch executor); [|by intros [= _ <-]].
    destruct (ElrondClient.GetLastExecutedEthTxID _) as [lastNonce [e|]]; by intros [= _ <-].
  - intros executor r executor'. unfold bridge.PerformTransferOnEthereum.
    destruct (bridge.batch executor); [|by intros [= _ <-]].
    destruct (EthereumClient.GetQuorumSize _) as [[size|] [e|]].
    + by intros [= _ <-].
    + destruct (EthereumClient.ExecuteTransfer _ _ _ _) as [hash [e|]]; by intros [= _ <-].
    + by intros [= _ <-].
    + done.
  - intros executor. unfold bridge.PerformTransferOnEthereum.
    destruct (bridge.batch executor) as [b|].
    + destruct (EthereumClient.GetQuorumSize _) as [[size|] [e|]].
      * split_and!; [split; [done|by intros (b' & _ & [=])]|done|by eexists].
      * destruct (EthereumClient.ExecuteTransfer _ _ _ _) as [hash [e|]];
          (split_and!; [split; [done|by intros (b' & _ & [=])]|done|by eexists]).
      * split_and!; [split; [done|by intros (b' & _ & [=])]|done|by eexists].
      * split_and!; [split; [by exists b|done]|by intros p [= <-]|].
        intros Hsome. by destruct (Hsome b eq_refl).
    + split_and!; [split; [done|by intros (b' & [=] & _)]|done|by eexists].
Qed.

(** ** Bridge executor: the retry counters under any sequence of calls *)

Lemma afterRetryCall_fields (executor : bridge.bridgeExecutor) (c : bridge.retryCall) :
  let executor' := bridge.afterRetryCall executor c in
  bridge.topologyProvider executor' = bridge.topologyProvider executor /\
  bridge.elrondClient executor' = bridge.elrondClient executor /\
  bridge.ethereumClient executor' = bridge.ethereumClient executor /\
  bridge.batch executor' = bridge.batch executor /\
  bridge.actionID executor' = bridge.actionID executor /\
  bridge.msgHash executor' = bridge.msgHash executor.
Proof.
  destruct c; cbv beta delta [bridge.afterRetryCall bridge.after
    bridge.ProcessMaxRetriesOnElrond bridge.ProcessMaxRetriesOnEthereum
    bridge.ResetRetriesCountOnElrond bridge.ResetRetriesCountOnEthereum] zeta iota;
    repeat match goal with |- context [if ?x then _ else _] => destruct x end; done.
Qed.

Lemma afterRetryCall_elrond (executor : bridge.bridgeExecutor) (c : bridge.retryCall) :
  let m := ElrondClient.GetMaxNumberOfRetriesOnQuorumReached (bridge.elrondClient executor) in
  m <= U64.max ->
  0 <= bridge.retriesOnElrond executor <= m ->
  0 <= bridge.retriesOnElrond (bridge.afterRetryCall executor c) <= m.
Proof.
  intros m Hm Hr.
  destruct c; cbv beta delta [bridge.afterRetryCall bridge.after
    bridge.ProcessMaxRetriesOnElrond bridge.ProcessMaxRetriesOnEthereum
    bridge.ResetRetriesCountOnElrond bridge.ResetRetriesCountOnEthereum] zeta iota;
    fold m;
    repeat match goal with |- context [if ?x <? ?y then _ else _] =>
             destruct (Z.ltb_spec x y) end;
    simpl; try lia.
  unfold U64.add. rewrite U64_wrap_small; unfold U64.in_range, U64.max, U64.modulus in *; lia.
Qed.

Lemma afterRetryCall_ethereum (executor : bridge.bridgeExecutor) (c : bridge.retryCall) :
  let m := EthereumClient.GetMaxNumberOfRetriesOnQuorumReached
             (bridge.ethereumClient executor) in
  m <= U64.max ->
  0 <= bridge.retriesOnEthereum executor <= m ->
  0 <= bridge.retriesOnEthereum (bridge.afterRetryCall executor c) <= m.
Proof.
  intros m Hm Hr.
  destruct c; cbv beta delta [bridge.afterRetryCall bridge.after
    bridge.ProcessMaxRetriesOnElrond bridge.ProcessMaxRetriesOnEthereum
    bridge.ResetRetriesCountOnElrond bridge.ResetRetriesCountOnEthereum] zeta iota;
    fold m;
    repeat match goal with |- context [if ?x <? ?y then _ else _] =>
             destruct (Z.ltb_spec x y) end;
    simpl; try lia.
  unfold U64.add. rewrite U64_wrap_small; unfold U64.in_range, U64.max, U64.modulus in *; lia.
Qed.

(** A call on one chain's counter does not read or write the other's. *)
Lemma afterRetryCall_other (executor : bridge.bridgeExecutor) (c : bridge.retryCall) :
  (bridge.onElrond c = false ->
   bridge.retriesOnElrond (bridge.afterRetryCall executor c) = bridge.retriesOnElrond executor) /\
  (bridge.onElrond c = true ->
   bridge.retriesOnEthereum (bridge.afterRetryCall executor c)
   = bridge.retriesOnEthereum executor).
Proof.
  destruct c; split; try discriminate; intros _;
    cbv beta delta [bridge.afterRetryCall bridge.after
      bridge.ProcessMaxRetriesOnElrond bridge.ProcessMaxRetriesOnEthereum
      bridge.ResetRetriesCountOnElrond bridge.ResetRetriesCountOnEthereum] zeta iota;
    repeat match goal with |- context [if ?x then _ else _] => destruct x end; done.
Qed.

(** The Elrond counter after a call depends on the Elrond counter and the
    Elrond client before it only. *)
Lemma afterRetryCall_elrond_congr (e1 e2 : bridge.bridgeExecutor) (c : bridge.retryCall) :
  bridge.elrondClient e1 = bridge.elrondClient e2 ->
  bridge.retriesOnElrond e1 = bridge.retriesOnElrond e2 ->
  bridge.retriesOnElrond (bridge.afterRetryCall e1 c)
  = bridge.retriesOnElrond (bridge.afterRetryCall e2 c).
Proof.
  intros Hc Hr.
  destruct c; cbv beta delta [bridge.afterRetryCall bridge.after
      bridge.ProcessMaxRetriesOnElrond bridge.ProcessMaxRetriesOnEthereum
      bridge.ResetRetriesCountOnElrond bridge.ResetRetriesCountOnEthereum] zeta iota;
    rewrite ?Hc, ?Hr;
    repeat match goal with |- context [if ?x then _ else _] => destruct x end;
    simpl; congruence.
Qed.

Lemma afterRetryCall_ethereum_congr (e1 e2 : bridge.bridgeExecutor) (c : bridge.retryCall) :
  bridge.ethereumClient e1 = bridge.ethereumClient e2 ->
  bridge.retriesOnEthereum e1 = bridge.retriesOnEthereum e2 ->
  bridge.retriesOnEthereum (bridge.afterRetryCall e1 c)
  = bridge.retriesOnEthereum (bridge.afterRetryCall e2 c).
Proof.
  intros Hc Hr.
  destruct c; cbv beta delta [bridge.afterRetryCall bridge.after
      bridge.ProcessMaxRetriesOnElrond bridge.ProcessMaxRetriesOnEthereum
      bridge.ResetRetriesCountOnElrond bridge.ResetRetriesCountOnEthereum] zeta iota;
    rewrite ?Hc, ?Hr;
    repeat match goal with |- context [if ?x then _ else _] => destruct x end;
    simpl; congruence.
Qed.

Lemma afterRetryCalls_snoc (cs : list bridge.retryCall) (c : bridge.retryCall)
  (executor : bridge.bridgeExecutor) :
  bridge.afterRetryCalls (cs ++ [c]) executor
  = bridge.afterRetryCall (bridge.afterRetryCalls cs executor) c.
Proof. unfold bridge.afterRetryCalls. by rewrite foldl_app. Qed.

Lemma afterRetryCalls_fields (cs : list bridge.retryCall) (executor : bridge.bridgeExecutor) :
  let executor' := bridge.afterRetryCalls cs executor in
  bridge.topologyProvider executor' = bridge.topologyProvider executor /\
  bridge.elrondClient executor' = bridge.elrondClient executor /\
  bridge.ethereumClient executor' = bridge.ethereumClient executor /\
  bridge.batch executor' = bridge.batch executor /\
  bridge.actionID executor' = bridge.actionID executor /\
  bridge.msgHash executor' = bridge.msgHash executor.
Proof.
  induction cs as [|c cs IH] using rev_ind; [done|].
  cbv zeta in *. rewrite afterRetryCalls_snoc.
  pose proof (afterRetryCall_fields (bridge.afterRetryCalls cs executor) c) as H.
  cbv zeta in H. destruct H as (-> & -> & -> & -> & -> & ->). exact IH.
Qed.

(** X8.  Whatever sequence of budget checks and resets, on either chain, is
    run on an executor whose counters are within the clients' budgets, both
    counters stay within them (so the [uint64] increment never wraps), the
    clients, the stored batch, the action ID and the message hash are
    untouched, and each chain's counter is what the calls of that chain
    alone would have made it: the two budgets do not interfere. *)
Theorem retry_counters_stay_within_budget
  (cs : list bridge.retryCall) (executor : bridge.bridgeExecutor) :
  let maxOnElrond :=
    ElrondClient.GetMaxNumberOfRetriesOnQuorumReached (bridge.elrondClient executor) in
  let maxOnEthereum :=
    EthereumClient.GetMaxNumberOfRetriesOnQuorumReached (bridge.ethereumClient executor) in
  let executor' := bridge.afterRetryCalls cs executor in
  maxOnElrond <= U64.max ->
  maxOnEthereum <= U64.max ->
  0 <= bridge.retriesOnElrond executor <= maxOnElrond ->
  0 <= bridge.retriesOnEthereum executor <= maxOnEthereum ->
  0 <= bridge.retriesOnElrond executor' <= maxOnElrond /\
  0 <= bridge.retriesOnEthereum executor' <= maxOnEthereum /\
  bridge.elrondClient executor' = bridge.elrondClient executor /\
  bridge.ethereumClient executor' = bridge.ethereumClient executor /\
  bridge.batch executor' = bridge.batch executor /\
  bridge.actionID executor' = bridge.actionID executor /\
  bridge.msgHash executor' = bridge.msgHash executor /\
  bridge.retriesOnElrond executor'
  = bridge.retriesOnElrond (bridge.afterRetryCalls (filter bridge.onElrond cs) executor) /\
  bridge.retriesOnEthereum executor'
  = bridge.retriesOnEthereum
      (bridge.afterRetryCalls (filter (fun c => negb (bridge.onElrond c)) cs) executor).
Proof.
  intros mE mT executor' HmE HmT HrE HrT. subst mE mT executor'.
  pose proof (afterRetryCalls_fields cs executor) as Hf. cbv zeta in Hf.
  destruct Hf as (_ & HcE & HcT & Hb & Ha & Hh).
  split; [|split; [|do 5 (split; [assumption|]); split]].
  - clear -HmE HrE.
    induction cs as [|c cs IH] using rev_ind; [done|].
    rewrite afterRetryCalls_snoc.
    pose proof (afterRetryCalls_fields cs executor) as Hf. cbv zeta in Hf.
    destruct Hf as (_ & HcE & _).
    pose proof (afterRetryCall_elrond (bridge.afterRetryCalls cs executor) c) as H.
    cbv zeta in H. rewrite HcE in H. by apply H.
  - clear -HmT HrT.
    induction cs as [|c cs IH] using rev_ind; [done|].
    rewrite afterRetryCalls_snoc.
    pose proof (afterRetryCalls_fields cs executor) as Hf. cbv zeta in Hf.
    destruct Hf as (_ & _ & HcT & _).
    pose proof (afterRetryCall_ethereum (bridge.afterRetryCalls cs executor) c) as H.
    cbv zeta in H. rewrite HcT in H. by apply H.
  - clear. induction cs as [|c cs IH] using rev_ind; [done|].
    rewrite filter_app, afterRetryCalls_snoc.
    destruct (bridge.onElrond c) eqn:Hc.
    + rewrite (filter_cons_True _ c []) by (rewrite Hc; simpl; intuition).
      rewrite filter_nil, afterRetryCalls_snoc.
      apply afterRetryCall_elrond_congr; [|exact IH].
      pose proof (afterRetryCalls_fields cs executor) as H1.
      pose proof (afterRetryCalls_fields (filter bridge.onElrond cs) executor) as H2.
      cbv zeta in H1, H2. destruct H1 as (_ & -> & _). by destruct H2 as (_ & -> & _).
    + rewrite (filter_cons_False _ c []) by (rewrite Hc; simpl; intuition).
      rewrite filter_nil, app_nil_r.
      by rewrite (proj1 (afterRetryCall_other _ c) Hc).
  - clear. induction cs as [|c cs IH] using rev_ind; [done|].
    rewrite filter_app, afterRetryCalls_snoc.
    destruct (bridge.onElrond c) eqn:Hc.
    + rewrite (filter_cons_False _ c []) by (rewrite Hc; simpl; intuition).
      rewrite filter_nil, app_nil_r.
      by rewrite (proj2 (afterRetryCall_other _ c) Hc).
    + rewrite (filter_cons_True _ c []) by (rewrite Hc; simpl; intuition).
      rewrite filter_nil, afterRetryCalls_snoc.
      apply afterRetryCall_ethereum_congr; [|exact IH].
      pose proof (afterRetryCalls_fields cs executor) as H1.
      pose proof (afterRetryCalls_fields
                    (filter (fun c => negb (bridge.onElrond c)) cs) executor) as H2.
      cbv zeta in H1, H2. destruct H1 as (_ & _ & -> & _). by destruct H2 as (_ & _ & -> & _).
Qed.

(** X8 on the executor of scenario S1 (budget 3 on both chains): five budget
    checks on Elrond, one on Ethereum, a reset and one more check. *)
Lemma retry_counters_stay_within_budget_S1 :
  let cs := replicate 5 bridge.CallProcessMaxRetriesOnElrond
            ++ [bridge.CallProcessMaxRetriesOnEthereum; bridge.CallResetRetriesCountOnElrond;
                bridge.CallProcessMaxRetriesOnElrond] in
  0 <= bridge.retriesOnElrond (bridge.afterRetryCalls cs examples.executorS1) <= 3 /\
  0 <= bridge.retriesOnEthereum (bridge.afterRetryCalls cs examples.executorS1) <= 3.
Proof.
  intros cs.
  destruct (retry_counters_stay_within_budget cs examples.executorS1) as (H1 & H2 & _).
  - vm_compute. discriminate.
  - vm_compute. discriminate.
  - simpl. lia.
  - simpl. lia.
  - split; [exact H1|exact H2].
Defined.

Lemma askedSinceReset_snoc (process reset : bridge.retryCall -> bool)
  (cs : list bridge.retryCall) (c : bridge.retryCall) :
  bridge.askedSinceReset process reset (cs ++ [c])
  = if process c then bridge.askedSinceReset process reset cs + 1
    else if reset c then 0 else bridge.askedSinceReset process reset cs.
Proof. unfold bridge.askedSinceReset. by rewrite foldl_app. Qed.

Lemma askedSinceReset_nonneg (process reset : bridge.retryCall -> bool)
  (cs : list bridge.retryCall) :
  0 <= bridge.askedSinceReset process reset cs.
Proof.
  induction cs as [|c cs IH] using rev_ind; [done|].
  rewrite askedSinceReset_snoc. destruct (process c), (reset c); lia.
Qed.

Lemma retriesOnElrond_counts (cs : list bridge.retryCall) (executor : bridge.bridgeExecutor) :
  let m := ElrondClient.GetMaxNumberOfRetriesOnQuorumReached (bridge.elrondClient executor) in
  0 <= m <= U64.max ->
  bridge.retriesOnElrond executor = 0 ->
  bridge.retriesOnElrond (bridge.afterRetryCalls cs executor)
  = Z.min m (bridge.askedSinceReset bridge.isProcessOnElrond bridge.isResetOnElrond cs).
Proof.
  intros m Hm H0. induction cs as [|c cs IH] using rev_ind.
  - simpl. unfold bridge.askedSinceReset. simpl. lia.
  - rewrite afterRetryCalls_snoc, askedSinceReset_snoc.
    pose proof (askedSinceReset_nonneg bridge.isProcessOnElrond bridge.isResetOnElrond cs).
    set (a := bridge.askedSinceReset _ _ cs) in *. clearbody a.
    pose proof (afterRetryCalls_fields cs executor) as Hf. cbv zeta in Hf.
    destruct Hf as (_ & HcE & _).
    destruct c; cbv beta delta [bridge.afterRetryCall bridge.after
      bridge.ProcessMaxRetriesOnElrond bridge.ProcessMaxRetriesOnEthereum
      bridge.ResetRetriesCountOnElrond bridge.ResetRetriesCountOnEthereum
      bridge.isProcessOnElrond bridge.isResetOnElrond] zeta iota;
      rewrite ?HcE; fold m; rewrite ?IH;
      repeat match goal with |- context [if ?x <? ?y then _ else _] =>
               destruct (Z.ltb_spec x y) end;
      simpl; rewrite ?IH; try lia.
    all: unfold U64.add; rewrite U64_wrap_small;
      unfold U64.in_range, U64.max, U64.modulus in *; lia.
Qed.

Lemma retriesOnEthereum_counts (cs : list bridge.retryCall) (executor : bridge.bridgeExecutor) :
  let m := EthereumClient.GetMaxNumberOfRetriesOnQuorumReached
             (bridge.ethereumClient executor) in
  0 <= m <= U64.max ->
  bridge.retriesOnEthereum executor = 0 ->
  bridge.retriesOnEthereum (bridge.afterRetryCalls cs executor)
  = Z.min m (bridge.askedSinceReset bridge.isProcessOnEthereum bridge.isResetOnEthereum cs).
Proof.
  intros m Hm H0. induction cs as [|c cs IH] using rev_ind.
  - simpl. unfold bridge.askedSinceReset. simpl. lia.
  - rewrite afterRetryCalls_snoc, askedSinceReset_snoc.
    pose proof (askedSinceReset_nonneg bridge.isProcessOnEthereum bridge.isResetOnEthereum cs).
    set (a := bridge.askedSinceReset _ _ cs) in *. clearbody a.
    pose proof (afterRetryCalls_fields cs executor) as Hf. cbv zeta in Hf.
    destruct Hf as (_ & _ & HcT & _).
    destruct c; cbv beta delta [bridge.afterRetryCall bridge.after
      bridge.ProcessMaxRetriesOnElrond bridge.ProcessMaxRetriesOnEthereum
      bridge.ResetRetriesCountOnElrond bridge.ResetRetriesCountOnEthereum
      bridge.isProcessOnEthereum bridge.isResetOnEthereum] zeta iota;
      rewrite ?HcT; fold m; rewrite ?IH;
      repeat match goal with |- context [if ?x <? ?y then _ else _] =>
               destruct (Z.ltb_spec x y) end;
      simpl; rewrite ?IH; try lia.
    all: unfold U64.add; rewrite U64_wrap_small;
      unfold U64.in_range, U64.max, U64.modulus in *; lia.
Qed.

(** X9.  Starting from counters at zero (a fresh executor), after any
    sequence of budget checks and resets each counter is the number of
    budget checks of its chain since that chain's last reset, capped at the
    client's maximum; hence the next budget check reports exhaustion exactly
    when that number has reached the maximum. *)
Theorem retry_counter_counts_checks_since_reset
  (cs : list bridge.retryCall) (executor : bridge.bridgeExecutor) :
  let maxOnElrond :=
    ElrondClient.GetMaxNumberOfRetriesOnQuorumReached (bridge.elrondClient executor) in
  let maxOnEthereum :=
    EthereumClient.GetMaxNumberOfRetriesOnQuorumReached (bridge.ethereumClient executor) in
  let askedOnElrond :=
    bridge.askedSinceReset bridge.isProcessOnElrond bridge.isResetOnElrond cs in
  let askedOnEthereum :=
    bridge.askedSinceReset bridge.isProcessOnEthereum bridge.isResetOnEthereum cs in
  let executor' := bridge.afterRetryCalls cs executor in
  0 <= maxOnElrond <= U64.max ->
  0 <= maxOnEthereum <= U64.max ->
  bridge.retriesOnElrond executor = 0 ->
  bridge.retriesOnEthereum executor = 0 ->
  bridge.retriesOnElrond executor' = Z.min maxOnElrond askedOnElrond /\
  bridge.retriesOnEthereum executor' = Z.min maxOnEthereum askedOnEthereum /\
  (exists next, bridge.ProcessMaxRetriesOnElrond executor'
                = Returns (maxOnElrond <=? askedOnElrond, next)) /\
  (exists next, bridge.ProcessMaxRetriesOnEthereum executor'
                = Returns (maxOnEthereum <=? askedOnEthereum, next)).
Proof.
  intros mE mT aE aT executor' HmE HmT HrE HrT.
  pose proof (retriesOnElrond_counts cs executor HmE HrE) as HE.
  pose proof (retriesOnEthereum_counts cs executor HmT HrT) as HT.
  pose proof (afterRetryCalls_fields cs executor) as Hf. cbv zeta in Hf.
  destruct Hf as (_ & HcE & HcT & _).
  fold executor' in HE, HT, HcE, HcT. fold mE aE in HE. fold mT aT in HT.
  split; [exact HE|]. split; [exact HT|]. split.
  - unfold bridge.ProcessMaxRetriesOnElrond. rewrite HcE, HE. fold mE.
    destruct (Z.ltb_spec (Z.min mE aE) mE), (Z.leb_spec mE aE); try lia; eauto.
  - unfold bridge.ProcessMaxRetriesOnEthereum. rewrite HcT, HT. fold mT.
    destruct (Z.ltb_spec (Z.min mT aT) mT), (Z.leb_spec mT aT); try lia; eauto.
Qed.

(** X9 on the executor of scenario S1 (budget 3): after four checks, a reset
    and two more checks on Elrond the counter is 2. *)
Lemma retry_counter_counts_checks_since_reset_S1 :
  bridge.retriesOnElrond
    (bridge.afterRetryCalls
       (replicate 4 bridge.CallProcessMaxRetriesOnElrond
        ++ [bridge.CallResetRetriesCountOnElrond; bridge.CallProcessMaxRetriesOnElrond;
            bridge.CallProcessMaxRetriesOnElrond]) examples.executorS1)
  = 2.
Proof.
  refine (proj1 (retry_counter_counts_checks_since_reset _ examples.executorS1 _ _ _ _)).
  - vm_compute. split; discriminate.
  - vm_compute. split; discriminate.
  - reflexivity.
  - reflexivity.
Defined.

(** ** Bridge executor: construction *)

(** X10.  [NewBridgeExecutor] returns an executor exactly when the logger,
    the two clients and the topology provider are present and the time for
    the transfer execution is at least the duration limit; it never returns
    both or neither.  Otherwise the error is that of the first check that
    fails, in the order logger, Elrond client, Ethereum client, topology
    provider, duration.  The executor it returns holds the given clients, no
    batch, action ID 0, the zero hash and both counters at zero, so that
    every guarded operation on it reports the nil-batch error until a batch
    is stored. *)
Theorem NewBridgeExecutor_checks (durationLimit : Z) (args : bridge.ArgsBridgeExecutor) :
  let result := bridge.NewBridgeExecutor durationLimit args in
  (forall elrond ethereum topologyHandler,
     bridge.Log args <> None ->
     bridge.ElrondClient args = Some elrond ->
     bridge.EthereumClient args = Some ethereum ->
     bridge.TopologyProvider args = Some topologyHandler ->
     durationLimit <= bridge.TimeForTransferExecution args ->
     let executor :=
       bridge.mkExecutor topologyHandler elrond ethereum None 0 (replicate 32 x00) 0 0 in
     result = (Some executor, None) /\
     bridge.GetStoredBatch executor = Returns (None, executor) /\
     bridge.VerifyLastDepositNonceExecutedOnEthereumBatch executor
       = Returns (Some ErrNilBatch, executor) /\
     bridge.SignTransferOnEthereum executor = Returns (Some ErrNilBatch, executor)) /\
  (bridge.Log args = None -> result = (None, Some bridge.ErrNilLogger)) /\
  (bridge.Log args <> None -> bridge.ElrondClient args = None ->
   result = (None, Some bridge.ErrNilElrondClient)) /\
  (bridge.Log args <> None -> bridge.ElrondClient args <> None ->
   bridge.EthereumClient args = None ->
   result = (None, Some bridge.ErrNilEthereumClient)) /\
  (bridge.Log args <> None -> bridge.ElrondClient args <> None ->
   bridge.EthereumClient args <> None -> bridge.TopologyProvider args = None ->
   result = (None, Some bridge.ErrNilTopologyProvider)) /\
  (bridge.Log args <> None -> bridge.ElrondClient args <> None ->
   bridge.EthereumClient args <> None -> bridge.TopologyProvider args <> None ->
   bridge.TimeForTransferExecution args < durationLimit ->
   result = (None, Some bridge.ErrInvalidDuration)) /\
  ((exists executor, result = (Some executor, None)) \/
   (exists err, result = (None, Some err))).
Proof.
  destruct args as [[log|] [elrond|] [ethereum|] [topologyHandler|] duration];
    cbv beta delta [bridge.NewBridgeExecutor bridge.checkArgs bridge.createBridgeExecutor
                    check.IfNil bridge.Log bridge.ElrondClient bridge.EthereumClient
                    bridge.TopologyProvider bridge.TimeForTransferExecution] zeta iota;
    try destruct (Z.ltb_spec duration durationLimit);
    repeat apply conj; intros; simplify_eq; try done; try lia; eauto.
  all: repeat apply conj; try done; by apply guarded_operations_nil_batch.
Qed.

(** X10 on complete arguments, one second allowed for a limit of one
    millisecond (in nanoseconds). *)
Lemma NewBridgeExecutor_checks_complete :
  bridge.NewBridgeExecutor 1000000
    (bridge.mkArgsBridgeExecutor (Some tt)
       (Some (examples.elrondStub (1, None) (663725, None) 3))
       (Some (examples.ethereumStub 3)) (Some (TopologyProvider.mk true)) 1000000000)
  = (Some (bridge.mkExecutor (TopologyProvider.mk true)
             (examples.elrondStub (1, None) (663725, None) 3) (examples.ethereumStub 3)
             None 0 (replicate 32 x00) 0 0), None).
Proof.
  apply (NewBridgeExecutor_checks 1000000
           (bridge.mkArgsBridgeExecutor (Some tt)
              (Some (examples.elrondStub (1, None) (663725, None) 3))
              (Some (examples.ethereumStub 3)) (Some (TopologyProvider.mk true)) 1000000000)).
  - discriminate.
  - reflexivity.
  - reflexivity.
  - reflexivity.
  - simpl. lia.
Defined.

(** ** Topology handler: construction, leadership, leader windows *)

(** X11.  [NewTopologyHandler] reports the first failing check, in the order
    public keys provider, timer, interval of less than one whole second,
    empty address; it returns a handler exactly when all four pass, and
    never both a handler and an error or neither.  A handler it returns
    holds the given providers and address and an interval of at least one
    whole second, so [MyTurnAsLeader] on it never divides by zero; with the
    selector's index at [hash(seed) mod N] it does not panic at all. *)
Theorem NewTopologyHandler_checks (hash : Z -> Z) (args : topology.ArgsTopologyHandler) :
  let result := topology.NewTopologyHandler args in
  (topology.PublicKeysProvider args = None ->
   result = (None, Some topology.errNilPublicKeysProvider)) /\
  (topology.PublicKeysProvider args <> None -> topology.Timer args = None ->
   result = (None, Some topology.errNilTimer)) /\
  (topology.PublicKeysProvider args <> None -> topology.Timer args <> None ->
   topology.IntervalForLeaderSeconds args <= 0 ->
   result = (None, Some topology.errInvalidIntervalForLeader)) /\
  (topology.PublicKeysProvider args <> None -> topology.Timer args <> None ->
   0 < topology.IntervalForLeaderSeconds args -> topology.AddressBytes args = [] ->
   result = (None, Some topology.errEmptyAddress)) /\
  (forall sortedPublicKeys nowUnix,
     topology.PublicKeysProvider args = Some sortedPublicKeys ->
     topology.Timer args = Some nowUnix ->
     0 < topology.IntervalForLeaderSeconds args ->
     topology.AddressBytes args <> [] ->
     let t := topology.mkHandler sortedPublicKeys nowUnix
                (topology.IntervalForLeaderSeconds args) (topology.AddressBytes args) in
     result = (Some t, None) /\
     topology.MyTurnAsLeader hash t <> Panics IntegerDivideByZero /\
     exists answer, topology.MyTurnAsLeader hash t = Returns answer) /\
  ((exists t, result = (Some t, None)) \/ (exists err, result = (None, Some err))).
Proof.
  destruct args as [provider timer secs address].
  cbv beta delta [topology.NewTopologyHandler topology.checkArgs check.IfNil
                  topology.PublicKeysProvider topology.Timer
                  topology.IntervalForLeaderSeconds topology.AddressBytes] zeta iota.
  split_and!.
  - intros ->. by rewrite bool_decide_eq_true_2.
  - intros Hp ->. by rewrite bool_decide_eq_false_2.
  - intros Hp Ht Hs. rewrite bool_decide_eq_false_2 by done.
    destruct timer; [|done]. by destruct (Z.leb_spec secs 0); [|lia].
  - intros Hp Ht Hs ->. rewrite bool_decide_eq_false_2 by done.
    destruct timer; [|done]. by destruct (Z.leb_spec secs 0); [lia|].
  - intros keys now -> -> Hs Ha. rewrite bool_decide_eq_false_2 by done.
    destruct (Z.leb_spec secs 0); [lia|].
    destruct address as [|a address]; [done|]. split; [done|].
    destruct keys as [|key keys]; [simpl; split; [done|by eexists]|].
    destruct (MyTurnAsLeader_eq hash
                (topology.mkHandler (key :: keys) now secs (a :: address)))
      as (publicKey & _ & ->); [done|simpl; lia|]. split; [done|by eexists].
  - destruct provider as [keys|]; [|right; by rewrite bool_decide_eq_true_2; eexists].
    rewrite bool_decide_eq_false_2 by done.
    destruct timer as [now|]; [|right; by eexists].
    destruct (Z.leb_spec secs 0); [right; by eexists|].
    destruct address; [right|left]; by eexists.
Qed.

(** X11 on the arguments of the unit test: keys ["aaa"] and ["bbb"], second
    7 of 1970, an interval of two seconds, address ["aaa"]. *)
Lemma NewTopologyHandler_checks_accepts :
  topology.NewTopologyHandler
    (topology.mkArgsTopologyHandler (Some [examples.keyA; examples.keyB]) (Some 7) 2
       examples.keyA)
  = (Some examples.handlerAt7, None).
Proof.
  apply (NewTopologyHandler_checks examples.seedItself
           (topology.mkArgsTopologyHandler (Some [examples.keyA; examples.keyB]) (Some 7) 2
              examples.keyA)).
  - reflexivity.
  - reflexivity.
  - simpl. lia.
  - discriminate.
Defined.

(** X12.  Among the relayers that see the same sorted key list and the same
    seed, whatever the hash: two that both answer that it is their turn hold
    the same address bytes; one whose address is not in the list never
    answers that it is its turn; and when the list is not empty and the
    interval is at least one whole second, the list holds a key whose owner
    is answered that it is its turn. *)
Theorem MyTurnAsLeader_one_leader (hash : Z -> Z) (t1 t2 : topology.topologyHandler) :
  topology.SortedPublicKeys t1 = topology.SortedPublicKeys t2 ->
  topology.leaderSeed (topology.NowUnix t1) (topology.intervalForLeaderSeconds t1)
  = topology.leaderSeed (topology.NowUnix t2) (topology.intervalForLeaderSeconds t2) ->
  (topology.MyTurnAsLeader hash t1 = Returns true ->
   topology.MyTurnAsLeader hash t2 = Returns true ->
   topology.addressBytes t1 = topology.addressBytes t2) /\
  (topology.addressBytes t1 ∉ topology.SortedPublicKeys t1 ->
   topology.MyTurnAsLeader hash t1 <> Returns true) /\
  (topology.SortedPublicKeys t1 <> [] -> 0 < topology.intervalForLeaderSeconds t1 ->
   exists leader,
     leader ∈ topology.SortedPublicKeys t1 /\
     topology.MyTurnAsLeader hash
       (topology.mkHandler (topology.SortedPublicKeys t1) (topology.NowUnix t1)
          (topology.intervalForLeaderSeconds t1) leader) = Returns true).
Proof.
  intros Hkeys Hseed. split; [|split].
  - unfold topology.MyTurnAsLeader. rewrite <- Hkeys, <- Hseed.
    destruct (length (topology.SortedPublicKeys t1) =? 0)%nat; [discriminate|].
    destruct (topology.intervalForLeaderSeconds t1 =? 0); [discriminate|].
    destruct (topology.intervalForLeaderSeconds t2 =? 0); [discriminate|].
    destruct (topology.SortedPublicKeys t1 !! _) as [publicKey|]; [|discriminate].
    unfold bytes_Equal. intros [= H1] [= H2].
    apply bool_decide_eq_true_1 in H1, H2. congruence.
  - intros Hnot. unfold topology.MyTurnAsLeader.
    destruct (length (topology.SortedPublicKeys t1) =? 0)%nat; [discriminate|].
    destruct (topology.intervalForLeaderSeconds t1 =? 0); [discriminate|].
    destruct (topology.SortedPublicKeys t1 !! _) as [publicKey|] eqn:Hpk; [|discriminate].
    unfold bytes_Equal. intros [= H]. apply bool_decide_eq_true_1 in H.
    apply Hnot. rewrite <- H. eapply list_elem_of_lookup_2. exact Hpk.
  - intros Hne Hs.
    destruct (MyTurnAsLeader_eq hash t1 Hne Hs) as (publicKey & Hpk & _).
    exists publicKey. split; [eapply list_elem_of_lookup_2; exact Hpk|].
    destruct (MyTurnAsLeader_eq hash
                (topology.mkHandler (topology.SortedPublicKeys t1) (topology.NowUnix t1)
                   (topology.intervalForLeaderSeconds t1) publicKey) Hne Hs)
      as (publicKey' & Hpk' & ->).
    simpl in Hpk'. rewrite Hpk in Hpk'. simplify_eq. by rewrite bool_decide_eq_true_2.
Qed.

(** X12 on the relayers ["aaa"] at second 7 and ["bbb"] at second 6 of 1970,
    interval two seconds: the same seed, and a leader among the keys. *)
Lemma MyTurnAsLeader_one_leader_at_7 :
  exists leader,
    leader ∈ [examples.keyA; examples.keyB] /\
    topology.MyTurnAsLeader examples.seedItself
      (topology.mkHandler [examples.keyA; examples.keyB] 7 2 leader) = Returns true.
Proof.
  apply (MyTurnAsLeader_one_leader examples.seedItself examples.handlerAt7
           (topology.mkHandler [examples.keyA; examples.keyB] 6 2 examples.keyB)).
  - reflexivity.
  - reflexivity.
  - discriminate.
  - simpl. lia.
Defined.

Lemma quot_window (now secs k : Z) :
  0 < secs -> 0 <= k -> k * secs <= now < (k + 1) * secs -> Z.quot now secs = k.
Proof.
  intros Hs Hk Hw. rewrite Z.quot_div_nonneg by nia.
  symmetry. apply (Z.div_unique now secs k (now - k * secs)); lia.
Qed.

(** X13.  The seed changes only at the multiples of the interval, except
    around 1970: for a clock in [[k * s, (k + 1) * s)] with [k >= 0] the seed
    is [k]; truncation toward zero makes the window of seed 0 twice as long,
    every clock strictly between [-s] and [s]; before that, a clock in
    [(-(k + 1) * s, -k * s]] has the seed [2^64 - k].  Consequently two
    calls of [MyTurnAsLeader] whose clocks lie in the same window, on the
    same keys, interval and address, give the same answer. *)
Theorem leaderSeed_windows (hash : Z -> Z) (keys : list bytes) (address : bytes)
  (now now' secs k : Z) :
  I64.in_range now -> I64.in_range now' -> 0 < secs ->
  (0 <= k -> k * secs <= now < (k + 1) * secs -> topology.leaderSeed now secs = k) /\
  (- secs < now < secs -> topology.leaderSeed now secs = 0) /\
  (0 < k -> - (k + 1) * secs < now <= - k * secs ->
   topology.leaderSeed now secs = U64.modulus - k) /\
  ((0 <= k /\ k * secs <= now < (k + 1) * secs /\ k * secs <= now' < (k + 1) * secs) \/
   (- secs < now < secs /\ - secs < now' < secs) \/
   (0 < k /\ - (k + 1) * secs < now <= - k * secs /\ - (k + 1) * secs < now' <= - k * secs) ->
   topology.MyTurnAsLeader hash (topology.mkHandler keys now secs address)
   = topology.MyTurnAsLeader hash (topology.mkHandler keys now' secs address)).
Proof.
  intros Hn Hn' Hs.
  assert (Hpos : forall n j, I64.in_range n -> 0 <= j -> j * secs <= n < (j + 1) * secs ->
                 topology.leaderSeed n secs = j).
  { intros n j Hr Hj Hw. rewrite leaderSeed_quot by done.
    rewrite (quot_window n secs j) by done.
    apply U64_wrap_small. unfold U64.in_range, U64.modulus, I64.in_range, I64.min, I64.max in *.
    nia. }
  assert (Hzero : forall n, I64.in_range n -> - secs < n < secs ->
                  topology.leaderSeed n secs = 0).
  { intros n Hr Hw. rewrite leaderSeed_quot by done.
    destruct (Z.le_gt_cases 0 n).
    - by rewrite (quot_window n secs 0) by lia.
    - replace n with (- - n) by lia. rewrite Z.quot_opp_l by lia.
      by rewrite (quot_window (- n) secs 0) by lia. }
  assert (Hneg : forall n j, I64.in_range n -> 0 < j ->
                 - (j + 1) * secs < n <= - j * secs ->
                 topology.leaderSeed n secs = U64.modulus - j).
  { intros n j Hr Hj Hw. rewrite leaderSeed_quot by done.
    replace n with (- - n) by lia. rewrite Z.quot_opp_l by lia.
    rewrite (quot_window (- n) secs j) by lia.
    unfold U64.wrap.
    symmetry. apply (Z.mod_unique (- j) U64.modulus (-1) (U64.modulus - j)); [|lia].
    left. unfold U64.modulus, I64.in_range, I64.min, I64.max in *. nia. }
  split_and!; [by apply Hpos|by apply Hzero|by apply Hneg|].
  intros Hw. unfold topology.MyTurnAsLeader. cbn [topology.SortedPublicKeys
    topology.NowUnix topology.intervalForLeaderSeconds topology.addressBytes].
  assert (topology.leaderSeed now secs = topology.leaderSeed now' secs) as ->; [|done].
  destruct Hw as [(Hk & H1 & H2)|[(H1 & H2)|(Hk & H1 & H2)]].
  - by rewrite (Hpos now k), (Hpos now' k).
  - by rewrite (Hzero now), (Hzero now').
  - by rewrite (Hneg now k), (Hneg now' k).
Qed.

(** X13 on the unit test's interval of two seconds: the clocks -1 and 1 lie
    in the window of seed 0. *)
Lemma leaderSeed_windows_around_1970 :
  topology.MyTurnAsLeader examples.seedItself examples.handlerBefore1970
  = topology.MyTurnAsLeader examples.seedItself
      (topology.mkHandler [examples.keyA; examples.keyB] 1 2 examples.keyA).
Proof.
  apply (leaderSeed_windows examples.seedItself [examples.keyA; examples.keyB] examples.keyA
           (-1) 1 2 0).
  - vm_compute. split; discriminate.
  - vm_compute. split; discriminate.
  - lia.
  - right. left. lia.
Defined.

(** ** Broadcaster: dispatch by topic, failures during the bootstrap *)

Section BroadcasterDispatch.
Import p2p.

Variable Unmarshal : bytes -> SignedMessage + error.
Variable Marshal : SignedMessage -> bytes * option error.
Variable Verify : bytes -> bytes -> bytes -> bool.
Variable IsWhitelisted : bytes -> bool.
Variable SendToConnectedPeer_answer : string -> bytes -> string -> option error.

Local Abbreviation preProcess := (preProcessMessage Unmarshal Verify).
Local Abbreviation process :=
  (ProcessReceivedMessage Unmarshal Marshal Verify IsWhitelisted SendToConnectedPeer_answer).

Lemma omap_sendOf_elem (peerId : string) (stored : list SignedMessage) (c : sendCall) :
  c ∈ omap (sendOf Marshal peerId) stored ->
  sendTopic c = signTopicName /\ sendPeer c = peerId /\
  exists m, m ∈ stored /\ Marshal m = (sendBuff c, None).
Proof.
  rewrite list_elem_of_omap. intros (m & Hm & Hc). unfold sendOf in Hc.
  destruct (Marshal m) as [buff [e|]] eqn:HM; [done|]. simplify_eq. simpl.
  split; [done|]. split; [done|]. by exists m.
Qed.

Lemma omap_sendOf_length (peerId : string) (stored : list SignedMessage) :
  (length (omap (sendOf Marshal peerId) stored) <= length stored)%nat.
Proof.
  induction stored as [|m rest IH]; simpl; [done|].
  change (list_omap _ _ ?f ?l) with (omap f l).
  destruct (sendOf Marshal peerId m); simpl; lia.
Qed.

(** X14.  A message that passes the pre-processing and whose sender is
    whitelisted is never answered with an error, whatever its topic and
    whatever happens while signatures are sent.  Only a join makes the
    broadcaster send: on the sign topic it stores the message and sends
    nothing, on any other topic it does nothing at all.  On a join, every
    send it adds goes on the sign topic to the peer the join came from and
    carries the marshalling of a stored message; a stored message whose
    marshalling fails is skipped and the remaining ones are still sent. *)
Theorem ProcessReceivedMessage_dispatch
  (message : MessageP2P) (b : broadcaster) (msg : SignedMessage) :
  preProcess message b = inl msg ->
  IsWhitelisted (PublicKeyBytes msg) = true ->
  exists b',
    process message b = (None, b') /\
    (Topic message = joinTopicName ->
     sendCalls b'
     = sendCalls b ++ omap (sendOf Marshal (Peer message)) (storedSignedMessages b) /\
     signedMessages b' = signedMessages b) /\
    (Topic message = signTopicName -> b' = addSignedMessage msg b) /\
    (Topic message <> joinTopicName -> Topic message <> signTopicName -> b' = b) /\
    (Topic message <> joinTopicName -> sendCalls b' = sendCalls b) /\
    (forall c, c ∈ sendCalls b' ->
       c ∈ sendCalls b \/
       (Topic message = joinTopicName /\
        sendTopic c = signTopicName /\ sendPeer c = Peer message /\
        exists m, m ∈ storedSignedMessages b /\ Marshal m = (sendBuff c, None))) /\
    (length (sendCalls b') <= length (sendCalls b) + length (storedSignedMessages b))%nat.
Proof.
  intros Hpre Hw. unfold ProcessReceivedMessage. rewrite Hpre, Hw. simpl.
  destruct (String.eqb_spec (Topic message) joinTopicName) as [Hj|Hj].
  - unfold broadcastCurrentSignatures. rewrite broadcastCurrentSignatures_loop_sends.
    assert (Hs : storedSignedMessages (addJoinedMessage msg b) = storedSignedMessages b) by done.
    rewrite Hs. eexists. split; [done|]. simpl. split_and!; try done.
    + intros Ht. rewrite Hj in Ht. discriminate.
    + intros c [Hc|Hc]%elem_of_app; [by left|right].
      split; [done|]. by apply omap_sendOf_elem.
    + rewrite length_app. pose proof (omap_sendOf_length (Peer message) (storedSignedMessages b)).
      lia.
  - destruct (String.eqb_spec (Topic message) signTopicName) as [Hs|Hs].
    + eexists. split; [done|]. simpl. split_and!; try done; [by left|lia].
    + eexists. split; [done|]. split_and!; try done; [by left|lia].
Qed.

(** X15.  What the messenger answers to a send never shows: whatever the
    received message, the error returned and the state reached are the same
    for any two messengers, the journal of the sends they were asked for
    included; an error is returned only when the pre-processing fails or the
    sender is not whitelisted. *)
Theorem ProcessReceivedMessage_ignores_send_failures
  (SendToConnectedPeer_answer' : string -> bytes -> string -> option error)
  (message : MessageP2P) (b : broadcaster) :
  process message b
  = ProcessReceivedMessage Unmarshal Marshal Verify IsWhitelisted SendToConnectedPeer_answer'
      message b /\
  (forall e, (process message b).1 = Some e ->
     preProcess message b = inr e \/
     exists msg, preProcess message b = inl msg /\
                 IsWhitelisted (PublicKeyBytes msg) = false /\
                 e = ErrPeerNotWhitelisted (PublicKeyBytes msg)).
Proof.
  unfold ProcessReceivedMessage. split.
  - destruct (preProcess message b) as [msg|e]; [|done].
    destruct (IsWhitelisted (PublicKeyBytes msg)); simpl; [|done].
    destruct (Topic message =? joinTopicName)%string; [|done].
    unfold broadcastCurrentSignatures. by rewrite !broadcastCurrentSignatures_loop_sends.
  - intros e. destruct (preProcess message b) as [msg|e0]; [|intros [= ->]; by left].
    destruct (IsWhitelisted (PublicKeyBytes msg)) eqn:Hw; simpl.
    + destruct (Topic message =? joinTopicName)%string; [done|].
      by destruct (Topic message =? signTopicName)%string.
    + intros [= <-]. right. by exists msg.
Qed.

End BroadcasterDispatch.

(** X14 on the join of relayer [0x61] arriving from peer ["late"]: no error,
    and at most one send per stored signature. *)
Lemma ProcessReceivedMessage_dispatch_join :
  exists b',
    p2p.ProcessReceivedMessage examples.toyUnmarshal examples.toyMarshal examples.toyVerify
      examples.toyIsWhitelisted examples.toySendAnswer
      examples.joinFromA examples.broadcasterWithSignature = (None, b') /\
    (length (p2p.sendCalls b')
     <= length (p2p.sendCalls examples.broadcasterWithSignature)
        + length (p2p.storedSignedMessages examples.broadcasterWithSignature))%nat.
Proof.
  destruct (ProcessReceivedMessage_dispatch examples.toyUnmarshal examples.toyMarshal
              examples.toyVerify examples.toyIsWhitelisted examples.toySendAnswer
              examples.joinFromA examples.broadcasterWithSignature
              (p2p.mkSignedMessage [x20] [x61] [x20] 1))
    as (b' & H1 & _ & _ & _ & _ & _ & H7).
  - reflexivity.
  - reflexivity.
  - exists b'. split; [exact H1|exact H7].
Defined.

(** ** Broadcaster: registration on the topics *)

(** X16.  [RegisterOnTopics] makes its calls on the messenger in a fixed
    order: create the join topic, register the processor on it, create the
    sign topic, register the processor on it.  It makes a call only after
    every earlier one was answered without error, stops at the first error,
    and returns what the last call it made was answered: so it returns [nil]
    only after all four calls succeeded, never registers the processor on a
    topic whose creation failed, and does not touch the sign topic when the
    join topic fails. *)
Theorem RegisterOnTopics_stops_at_first_error
  (CreateTopic_answer : list p2p.messengerCall -> string -> bool -> option error)
  (RegisterMessageProcessor_answer
     : list p2p.messengerCall -> string -> string -> option error)
  (journal : list p2p.messengerCall) :
  let answer := p2p.answerTo CreateTopic_answer RegisterMessageProcessor_answer in
  let result :=
    p2p.RegisterOnTopics CreateTopic_answer RegisterMessageProcessor_answer journal in
  exists (n : nat) (last : p2p.messengerCall),
    (n < 4)%nat /\
    p2p.registrationCalls !! n = Some last /\
    result.2 = journal ++ take (S n) p2p.registrationCalls /\
    (forall (i : nat) c, (i < n)%nat -> p2p.registrationCalls !! i = Some c ->
       answer (journal ++ take i p2p.registrationCalls) c = None) /\
    result.1 = answer (journal ++ take n p2p.registrationCalls) last /\
    (result.1 = None -> n = 3%nat).
Proof.
  intros answer result. subst answer result.
  unfold p2p.RegisterOnTopics, p2p.RegisterOnTopics_loop.
  destruct (CreateTopic_answer journal p2p.joinTopicName true) as [e1|] eqn:H1.
  { exists 0%nat. eexists. split_and!; [lia|done|done|intros; lia| |done].
    simpl. by rewrite app_nil_r. }
  destruct (RegisterMessageProcessor_answer (journal ++ [p2p.CallCreateTopic _ true])
              p2p.joinTopicName p2p.defaultTopicIdentifier) as [e2|] eqn:H2.
  { exists 1%nat. eexists. split_and!; [lia|done|by rewrite <- app_assoc| |done|done].
    intros i c Hi Hc. destruct i as [|i]; [|lia].
    simpl in Hc. injection Hc as <-. simpl. by rewrite app_nil_r. }
  destruct (CreateTopic_answer
              ((journal ++ [p2p.CallCreateTopic _ true])
               ++ [p2p.CallRegisterMessageProcessor _ _]) p2p.signTopicName true)
    as [e3|] eqn:H3.
  { exists 2%nat. eexists. split_and!; [lia|done|by rewrite <- !app_assoc| | |done].
    - intros i c Hi Hc. destruct i as [|[|i]]; [| |lia];
        simpl in Hc; injection Hc as <-; simpl; [by rewrite app_nil_r|done].
    - simpl. by rewrite <- H3, <- app_assoc. }
  exists 3%nat. eexists. split_and!; [lia|done| | | |].
  - destruct (RegisterMessageProcessor_answer _ p2p.signTopicName _);
      simpl; by rewrite <- !app_assoc.
  - intros i c Hi Hc. destruct i as [|[|[|i]]]; [| | |lia];
      simpl in Hc; injection Hc as <-; simpl;
      [by rewrite app_nil_r|done|by rewrite <- H3, <- app_assoc].
  - simpl. replace (journal ++ [_; _; _])
      with ((((journal ++ [p2p.CallCreateTopic p2p.joinTopicName true])
              ++ [p2p.CallRegisterMessageProcessor p2p.joinTopicName
                    p2p.defaultTopicIdentifier])
             ++ [p2p.CallCreateTopic p2p.signTopicName true]))
      by (by rewrite <- !app_assoc).
    by destruct (RegisterMessageProcessor_answer _ p2p.signTopicName _).
  - done.
Qed.

(** ** Batch processor: when it panics, what it allocates, address lengths *)

Section ExtractListMore.
Import batchProcessor.

Lemma ExtractList_loop_panics deposits arg h :
  Exists (fun dt => Amount dt = None) deposits ->
  ExtractList_loop deposits arg h = Panics NilPointerDereference.
Proof.
  revert arg h. induction deposits as [|dt rest IH]; intros arg h Hex.
  - by apply Exists_nil in Hex.
  - cbn [ExtractList_loop]. destruct (Amount dt) as [x|] eqn:Hx; [|done].
    apply Exists_cons in Hex as [Hdt|Hrest]; [congruence|].
    destruct (bigint_new (bigint_get h x) h) as [amount h1].
    destruct (bigint_new (clients.Nonce dt) h1) as [nonce h2]. by apply IH.
Qed.

(** What a run of the loop that returns has done, whether or not the
    amounts point to allocated integers. *)
Lemma ExtractList_loop_result deposits arg h arg' h' :
  ExtractList_loop deposits arg h = Returns (arg', h') ->
  Forall (fun dt => Amount dt <> None) deposits /\
  h_bytes h' = h_bytes h /\
  h_bigint h ⊆ h_bigint h' /\
  Tokens arg' = Tokens arg ++ tokens_of h deposits /\
  Recipients arg' = Recipients arg ++ recipients_of h deposits /\
  exists newAmounts newNonces,
    Amounts arg' = Amounts arg ++ newAmounts /\
    Nonces arg' = Nonces arg ++ newNonces /\
    length newAmounts = length deposits /\
    length newNonces = length deposits /\
    NoDup (newAmounts ++ newNonces) /\
    (forall x, x ∈ newAmounts ++ newNonces ->
       (x ∉ dom (h_bigint h)) /\ x ∈ dom (h_bigint h')).
Proof.
  revert arg h. induction deposits as [|dt rest IH]; intros arg h; cbn [ExtractList_loop].
  - intros [= <- <-]. unfold tokens_of, recipients_of. simpl. rewrite !app_nil_r.
    split_and!; try done. exists [], []. rewrite !app_nil_r.
    split_and!; try done; [constructor|]. intros x Hx. by apply elem_of_nil in Hx.
  - destruct (Amount dt) as [y|] eqn:Hy; [|done].
    pose proof (bigint_new_spec (bigint_get h y) h) as H1.
    destruct (bigint_new (bigint_get h y) h) as [amount h1].
    destruct H1 as (Hf1 & Hb1 & Hm1 & Hs1).
    pose proof (bigint_new_spec (clients.Nonce dt) h1) as H2.
    destruct (bigint_new (clients.Nonce dt) h1) as [nonce h2].
    destruct H2 as (Hf2 & Hb2 & Hm2 & Hs2).
    intros Hrun. apply IH in Hrun
      as (Hall & Hb & Hs & Ht & Hr & newA & newN & HA & HN & HlA & HlN & Hnd & Hfresh).
    cbn [Tokens Recipients Amounts Nonces] in *.
    assert (Ha1 : amount ∈ dom (h_bigint h1)).
    { rewrite Hm1. apply elem_of_dom. rewrite lookup_insert_eq. by eexists. }
    assert (Hn2 : nonce ∈ dom (h_bigint h2)).
    { rewrite Hm2. apply elem_of_dom. rewrite lookup_insert_eq. by eexists. }
    assert (Ha2 : amount ∈ dom (h_bigint h2)) by (by apply (subseteq_dom _ _ Hs2)).
    split_and!.
    + constructor; [congruence|done].
    + congruence.
    + by repeat (etrans; [eassumption|]).
    + rewrite Ht, <- app_assoc. f_equal. simpl. f_equal.
      apply list_fmap_ext. intros i d _. rewrite (read_slice_bytes h h2); [done|congruence].
    + rewrite Hr, <- app_assoc. f_equal. simpl. f_equal.
      apply list_fmap_ext. intros i d _. rewrite (read_slice_bytes h h2); [done|congruence].
    + exists (amount :: newA), (nonce :: newN).
      split; [by rewrite HA, <- app_assoc|]. split; [by rewrite HN, <- app_assoc|].
      split; [simpl; lia|]. split; [simpl; lia|].
      assert (HnotA : forall x, x ∈ newA ++ newN -> x <> amount /\ x <> nonce).
      { intros x Hx. apply Hfresh in Hx as [Hx _]. split; intros ->; done. }
      split.
      * simpl. apply NoDup_cons. split.
        { rewrite elem_of_app, elem_of_cons. intros [Hin|[->|Hin]]; [|done|].
          - by destruct (HnotA amount ltac:(apply elem_of_app; by left)).
          - by destruct (HnotA amount ltac:(apply elem_of_app; by right)). }
        apply NoDup_app in Hnd as (HndA & Hdisj & HndN).
        apply NoDup_app. split; [done|]. split.
        { intros x HxA. rewrite elem_of_cons. intros [->|HxN]; [|by eapply Hdisj].
          by destruct (HnotA nonce ltac:(apply elem_of_app; by left)). }
        apply NoDup_cons. split; [|done]. intros Hin.
        by destruct (HnotA nonce ltac:(apply elem_of_app; by right)).
      * intros x Hx.
        assert (Hcases : x = amount \/ x = nonce \/ x ∈ newA ++ newN).
        { simpl in Hx. rewrite elem_of_cons, elem_of_app, elem_of_cons in Hx.
          rewrite elem_of_app. tauto. }
        destruct Hcases as [->|[->|Hin]].
        { split; [done|]. by apply (subseteq_dom _ _ Hs). }
        { split; [by apply (dom_mono_bigint _ _ _ Hs1)|]. by apply (subseteq_dom _ _ Hs). }
        apply Hfresh in Hin as [Hnot Hin]. split; [|done].
        apply (dom_mono_bigint _ (h_bigint h2)); [by etrans|done].
Qed.

Lemma ExtractList_loop_total deposits arg h :
  Forall (fun dt => Amount dt <> None) deposits ->
  exists arg' h', ExtractList_loop deposits arg h = Returns (arg', h').
Proof.
  revert arg h. induction deposits as [|dt rest IH]; intros arg h Hall; cbn [ExtractList_loop].
  - by eexists _, _.
  - apply Forall_cons in Hall as [Hdt Hrest].
    destruct (Amount dt) as [y|]; [|done].
    destruct (bigint_new (bigint_get h y) h) as [amount h1].
    destruct (bigint_new (clients.Nonce dt) h1) as [nonce h2]. by apply IH.
Qed.

Lemma BytesToAddress_length (b : bytes) : length (BytesToAddress b) = AddressLength.
Proof.
  unfold BytesToAddress.
  destruct (Nat.ltb_spec AddressLength (length b));
    rewrite length_app, length_replicate, ?length_drop; lia.
Qed.

End ExtractListMore.

Section ExtractListProperties.
Import batchProcessor.

Lemma ExtractList_loop_onPointers_present deposits arg h :
  ExtractList_loop_onPointers (Some <$> deposits) arg h = ExtractList_loop deposits arg h.
Proof.
  revert arg h. induction deposits as [|dt rest IH]; intros arg h; [done|].
  rewrite fmap_cons. cbn [ExtractList_loop_onPointers ExtractList_loop].
  destruct (Amount dt) as [x|]; [|done].
  destruct (bigint_new (bigint_get h x) h) as [amount h1].
  destruct (bigint_new (clients.Nonce dt) h1) as [nonce h2]. apply IH.
Qed.

Lemma ExtractList_loop_onPointers_nil deposits arg h :
  holds_nil deposits ->
  ExtractList_loop_onPointers deposits arg h = Panics NilPointerDereference.
Proof.
  revert arg h. induction deposits as [|[dt|] rest IH]; intros arg h Hnil.
  - destruct Hnil as [Hin|(dt & Hin & _)]; by apply elem_of_nil in Hin.
  - cbn [ExtractList_loop_onPointers]. destruct (Amount dt) as [x|] eqn:Hx; [|done].
    destruct (bigint_new (bigint_get h x) h) as [amount h1].
    destruct (bigint_new (clients.Nonce dt) h1) as [nonce h2]. apply IH.
    destruct Hnil as [Hin|(dt' & Hin & Hdt')].
    + left. by apply elem_of_cons in Hin as [?|?].
    + apply elem_of_cons in Hin as [[= ->]|Hin]; [congruence|]. right. by exists dt'.
  - done.
Qed.

(** Either some pointer dereferenced by the loop is [nil], or the deposits
    are all there with their amounts. *)
Lemma holds_nil_or_present (deposits : list (option DepositTransfer)) :
  holds_nil deposits \/
  exists present,
    deposits = Some <$> present /\ Forall (fun dt => Amount dt <> None) present.
Proof.
  induction deposits as [|[dt|] rest IH].
  - right. exists []. split; [done|constructor].
  - destruct IH as [[Hin|(dt' & Hin & Hdt')]|(present & -> & Hall)].
    + left. left. by right.
    + left. right. exists dt'. split; [by right|done].
    + destruct (Amount dt) as [x|] eqn:Hx.
      * right. exists (dt :: present). split; [done|]. constructor; [congruence|done].
      * left. right. exists dt. split; [by left|done].
  - left. left. by left.
Qed.

Lemma holds_nil_present (present : list DepositTransfer) :
  Forall (fun dt => Amount dt <> None) present -> ~ holds_nil (Some <$> present).
Proof.
  intros Hall [Hin|(dt & Hin & Hdt)].
  - apply list_elem_of_fmap in Hin as (dt & [=] & _).
  - apply list_elem_of_fmap in Hin as (dt' & [= <-] & Hin).
    rewrite Forall_forall in Hall. by apply (Hall dt).
Qed.

(** X17.  With the deposits of the batch as the pointers they are,
    [ExtractList] never returns an error, and it panics, on a nil pointer,
    exactly when the batch is [nil], or one of its deposits is [nil], or
    one of its deposits has no amount, wherever in the batch that deposit
    is; in every other case, an empty batch included, it returns, having
    left every byte array and every integer allocated before the call as
    it was.  On a batch whose deposits are all there it is the function on
    the deposits themselves. *)
Theorem ExtractList_returns_or_panics
  (batch : option TransferBatchOfPointers) (h : heap) :
  (ExtractList_onPointers batch h = Panics NilPointerDereference <->
   batch = None \/ exists b, batch = Some b /\ holds_nil (DepositPointers b)) /\
  (forall p, ExtractList_onPointers batch h = Panics p -> p = NilPointerDereference) /\
  ((exists arg h', ExtractList_onPointers batch h = Returns ((arg, None), h')) <->
   exists b, batch = Some b /\ ~ holds_nil (DepositPointers b)) /\
  (forall arg err h', ExtractList_onPointers batch h = Returns ((arg, err), h') ->
     err = None /\ h_bytes h' = h_bytes h /\ h_bigint h ⊆ h_bigint h') /\
  (forall b, batch = Some (pointersTo b) ->
     ExtractList_onPointers batch h = ExtractList (Some b) h).
Proof.
  assert (Hcases :
    (batch = None /\ ExtractList_onPointers batch h = Panics NilPointerDereference) \/
    (exists b, batch = Some b /\ holds_nil (DepositPointers b) /\
               ExtractList_onPointers batch h = Panics NilPointerDereference) \/
    (exists b arg h', batch = Some b /\ ~ holds_nil (DepositPointers b) /\
               ExtractList_onPointers batch h = Returns ((arg, None), h') /\
               h_bytes h' = h_bytes h /\ h_bigint h ⊆ h_bigint h')).
  { destruct batch as [b|]; [right|by left].
    destruct (holds_nil_or_present (DepositPointers b)) as [Hnil|(present & Hp & Hall)].
    - left. exists b. split; [done|]. split; [done|]. unfold ExtractList_onPointers.
      by rewrite ExtractList_loop_onPointers_nil.
    - right. unfold ExtractList_onPointers. rewrite Hp, ExtractList_loop_onPointers_present.
      destruct (ExtractList_loop_total present emptyArgs h Hall) as (arg & h' & Hrun).
      rewrite Hrun. exists b, arg, h'. split; [done|].
      split; [rewrite Hp; by apply holds_nil_present|]. split; [done|].
      by apply ExtractList_loop_result in Hrun as (_ & Hb & Hs & _). }
  split_and!.
  - destruct Hcases as [[-> Hrun]|[(b & -> & Hnil & Hrun)|(b & arg & h' & -> & Hnot & Hrun & _)]].
    + split; [by left|done].
    + split; [|done]. intros _. right. by exists b.
    + rewrite Hrun. split; [done|]. intros [[=]|(b' & [= <-] & Hnil)]. done.
  - intros p.
    destruct Hcases as [[-> Hrun]|[(b & -> & Hnil & Hrun)|(b & arg & h' & -> & Hnot & Hrun & _)]];
      rewrite Hrun; [by intros [= <-]|by intros [= <-]|done].
  - destruct Hcases as [[-> Hrun]|[(b & -> & Hnil & Hrun)|(b & arg & h' & -> & Hnot & Hrun & _)]];
      rewrite Hrun.
    + split; [by intros (arg & h' & [=])|by intros (b & [=] & _)].
    + split; [by intros (arg & h' & [=])|]. by intros (b' & [= <-] & Hnot).
    + split; [intros _; by exists b|intros _; by exists arg, h'].
  - intros arg err h'.
    destruct Hcases as [[-> Hrun]|[(b & -> & Hnil & Hrun)|(b & arg0 & h0 & -> & Hnot & Hrun & Hb & Hs)]];
      rewrite Hrun; [done|done|]. by intros [= <- <- <-].
  - intros b ->. unfold ExtractList_onPointers, ExtractList, pointersTo.
    cbn [DepositPointers]. by rewrite ExtractList_loop_onPointers_present.
Qed.

(** X18.  The integers [ExtractList] returns in [Amounts] and [Nonces] are
    pairwise distinct pointers, none of them in use before the call: the
    result has its own integer for every amount and every nonce, one per
    deposit, so that setting one of them through the result changes no other
    integer of the result. *)
Theorem ExtractList_pointers_distinct (h : heap) (b : TransferBatch) :
  Forall (fun dt => Amount dt <> None) (Deposits b) ->
  exists arg h',
    ExtractList (Some b) h = Returns ((arg, None), h') /\
    length (Amounts arg) = length (Deposits b) /\
    length (Nonces arg) = length (Deposits b) /\
    NoDup (Amounts arg ++ Nonces arg) /\
    (forall x, x ∈ Amounts arg ++ Nonces arg ->
       (x ∉ dom (h_bigint h)) /\ x ∈ dom (h_bigint h')) /\
    (forall m i v x,
       (m = SetAmount i v /\ Amounts arg !! i = Some x) \/
       (m = SetNonce i v /\ Nonces arg !! i = Some x) ->
       exists h'',
         mutate m arg h' = Returns (arg, h'') /\
         h_bigint h'' !! x = Some v /\
         (forall y, y ∈ Amounts arg ++ Nonces arg -> y <> x ->
            h_bigint h'' !! y = h_bigint h' !! y)).
Proof.
  intros Hall. unfold ExtractList.
  destruct (ExtractList_loop_total (Deposits b) emptyArgs h Hall) as (arg & h' & Hrun).
  rewrite Hrun. exists arg, h'. split; [done|].
  apply ExtractList_loop_result in Hrun
    as (_ & _ & _ & _ & _ & newA & newN & HA & HN & HlA & HlN & Hnd & Hfresh).
  simpl in HA, HN. rewrite HA, HN. split_and!; try done.
  intros m i v x [[-> Hx]|[-> Hx]]; simpl; rewrite ?HA, ?HN, Hx;
    (eexists; split; [done|]; simpl; split; [by rewrite lookup_insert_eq|];
     intros y _ Hne; by rewrite lookup_insert_ne).
Qed.

(** X19.  Every recipient and every token [ExtractList] returns has exactly
    20 bytes, whatever the lengths of the deposit's byte strings: a string
    of 20 bytes or more gives its last 20 bytes, so that only these count,
    and a shorter one is padded with zero bytes on the left. *)
Theorem ExtractList_addresses (h : heap) (b : TransferBatch) :
  Forall (fun dt => Amount dt <> None) (Deposits b) ->
  exists arg h',
    ExtractList (Some b) h = Returns ((arg, None), h') /\
    Forall (fun a => length a = 20%nat) (Recipients arg ++ Tokens arg) /\
    (forall i dt,
       Deposits b !! i = Some dt ->
       exists recipient token,
         Recipients arg !! i = Some recipient /\ Tokens arg !! i = Some token /\
         let to := read_slice h (ToBytes dt) in
         let converted := read_slice h (clients.ConvertedTokenBytes dt) in
         ((20 <= length to)%nat -> recipient = drop (length to - 20) to) /\
         ((length to < 20)%nat -> recipient = replicate (20 - length to) x00 ++ to) /\
         ((20 <= length converted)%nat ->
          token = drop (length converted - 20) converted) /\
         ((length converted < 20)%nat ->
          token = replicate (20 - length converted) x00 ++ converted)).
Proof.
  intros Hall. unfold ExtractList.
  destruct (ExtractList_loop_total (Deposits b) emptyArgs h Hall) as (arg & h' & Hrun).
  rewrite Hrun. exists arg, h'. split; [done|].
  apply ExtractList_loop_result in Hrun as (_ & _ & _ & Ht & Hr & _).
  simpl in Ht, Hr. rewrite Ht, Hr. unfold tokens_of, recipients_of. split.
  - apply Forall_app. split; apply Forall_fmap, Forall_forall; intros dt _;
      apply BytesToAddress_length.
  - intros i dt Hdt. rewrite !list_lookup_fmap, Hdt. simpl. eexists _, _.
    split; [done|]. split; [done|].
    assert (Hlong : forall s : bytes, (20 <= length s)%nat ->
                                      BytesToAddress s = drop (length s - 20) s).
    { intros s Hs. unfold BytesToAddress, AddressLength.
      destruct (Nat.ltb_spec 20 (length s)).
      - rewrite length_drop. by replace (20 - (length s - (length s - 20)))%nat with 0%nat by lia.
      - replace (length s - 20)%nat with 0%nat by lia.
        by replace (20 - length s)%nat with 0%nat by lia. }
    assert (Hshort : forall s : bytes, (length s < 20)%nat ->
                                       BytesToAddress s = replicate (20 - length s) x00 ++ s).
    { intros s Hs. unfold BytesToAddress, AddressLength.
      by destruct (Nat.ltb_spec 20 (length s)); [lia|]. }
    split_and!; [apply Hlong|apply Hshort|apply Hlong|apply Hshort].
Qed.

End ExtractListProperties.

(** X18 on the batch of one deposit. *)
Lemma ExtractList_pointers_distinct_one_deposit :
  exists arg h',
    batchProcessor.ExtractList (Some examples.batchOnHeap) examples.heapOfBatch
      = Returns ((arg, None), h') /\
    NoDup (batchProcessor.Amounts arg ++ batchProcessor.Nonces arg).
Proof.
  destruct (ExtractList_pointers_distinct examples.heapOfBatch examples.batchOnHeap)
    as (arg & h' & Hrun & _ & _ & Hnd & _).
  - repeat constructor. discriminate.
  - exists arg, h'. split; [exact Hrun|exact Hnd].
Defined.

(** X19 on the batch of one deposit, whose byte strings have two bytes. *)
Lemma ExtractList_addresses_one_deposit :
  exists arg h',
    batchProcessor.ExtractList (Some examples.batchOnHeap) examples.heapOfBatch
      = Returns ((arg, None), h') /\
    Forall (fun a => length a = 20%nat)
      (batchProcessor.Recipients arg ++ batchProcessor.Tokens arg).
Proof.
  destruct (ExtractList_addresses examples.heapOfBatch examples.batchOnHeap)
    as (arg & h' & Hrun & Hlen & _).
  - repeat constructor. discriminate.
  - exists arg, h'. split; [exact Hrun|exact Hlen].
Defined.

(** ** Display of the token balances *)

Section TokensBalances.
Import ethereum.

Lemma len_append (a b : string) : len (a +:+ b) = len a + len b.
Proof.
  unfold len. induction a as [|c a IH]; simpl; [done|]. lia.
Qed.

Lemma len_repeated_space (n : nat) : len (repeated " " n) = Z.of_nat n.
Proof.
  induction n as [|n IH]; [done|].
  cbn [repeated]. rewrite len_append, IH. unfold len. simpl. lia.
Qed.

(** [strings.Split] returns at least one string. *)
Lemma Split_first (s : string) (sep : Ascii.ascii) :
  exists first others, Split s sep = first :: others.
Proof.
  induction s as [|c s (first & others & IH)]; simpl; [by eexists _, _|].
  destruct (Ascii.eqb c sep); [by eexists _, _|]. rewrite IH. by eexists _, _.
Qed.

Lemma integerPartOf_lookup (d : DepositInfo) :
  Split (DenominatedAmountString d) decimalSeparator !! integerIndex
  = Some (integerPartOf d).
Proof.
  unfold integerPartOf.
  by destruct (Split_first (DenominatedAmountString d) decimalSeparator)
    as (first & others & ->).
Qed.

Lemma measure_loop_spec (deposits : list DepositInfo) (m : measures) :
  measures_cover m ->
  exists m',
    measure_loop (Some <$> deposits) m = Value m' /\
    measures_cover m' /\
    maxTokenLen m <= maxTokenLen m' /\
    maxIntegerValueLen m <= maxIntegerValueLen m' /\
    (forall d, d ∈ deposits ->
       len (Token d) <= maxTokenLen m' /\
       len (integerPartOf d) <= maxIntegerValueLen m' /\
       is_Some (tokenIntegerSpace m' !! Token d)) /\
    (forall t, t ∉ Token <$> deposits ->
       tokenIntegerSpace m' !! t = tokenIntegerSpace m !! t) /\
    (NoDup (Token <$> deposits) ->
     forall d, d ∈ deposits ->
       tokenIntegerSpace m' !! Token d = Some (len (integerPartOf d))).
Proof.
  revert m. induction deposits as [|d rest IH]; intros m Hm.
  - exists m. split_and!; try done; try lia.
    + intros d Hd. by apply elem_of_nil in Hd.
    + intros _ d Hd. by apply elem_of_nil in Hd.
  - rewrite (fmap_cons Some). cbn [measure_loop]. rewrite integerPartOf_lookup.
    set (m1 := mkMeasures _ _ _).
    assert (Hlen : 0 <= len (integerPartOf d)) by (unfold len; lia).
    assert (Hm1 : measures_cover m1).
    { intros t v. subst m1. cbn [tokenIntegerSpace maxIntegerValueLen].
      destruct (Z.gtb_spec (len (integerPartOf d)) (maxIntegerValueLen m));
        (destruct (decide (t = Token d)) as [->|Hne];
         [rewrite lookup_insert_eq; intros [= <-]; lia
         |rewrite lookup_insert_ne by done; intros Hv; apply Hm in Hv; lia]). }
    destruct (IH m1 Hm1) as (m' & Hrun & Hcover & Hmt & Hmi & Hall & Hother & Hnd).
    rewrite Hrun.
    assert (Hmt1 : len (Token d) <= maxTokenLen m1 /\ maxTokenLen m <= maxTokenLen m1).
    { subst m1. cbn [maxTokenLen].
      destruct (Z.gtb_spec (len (Token d)) (maxTokenLen m)); lia. }
    assert (Hmi1 : len (integerPartOf d) <= maxIntegerValueLen m1 /\
                   maxIntegerValueLen m <= maxIntegerValueLen m1).
    { subst m1. cbn [maxIntegerValueLen].
      destruct (Z.gtb_spec (len (integerPartOf d)) (maxIntegerValueLen m)); lia. }
    assert (Hd1 : tokenIntegerSpace m1 !! Token d = Some (len (integerPartOf d))).
    { subst m1. cbn [tokenIntegerSpace]. by rewrite lookup_insert_eq. }
    exists m'. split_and!; try done; try lia.
    + intros d' [->|Hin]%elem_of_cons; [|by apply Hall].
      split; [lia|]. split; [lia|].
      destruct (decide (Token d ∈ Token <$> rest)) as [Hin|Hnot].
      * apply list_elem_of_fmap in Hin as (d'' & -> & Hin). by apply Hall.
      * rewrite (Hother _ Hnot), Hd1. by eexists.
    + intros t Ht. rewrite fmap_cons, not_elem_of_cons in Ht. destruct Ht as [Hne Hnot].
      rewrite (Hother _ Hnot). subst m1. cbn [tokenIntegerSpace].
      by rewrite lookup_insert_ne.
    + rewrite fmap_cons. intros [Hnot Hnd']%NoDup_cons d' [->|Hin]%elem_of_cons.
      * by rewrite (Hother _ Hnot).
      * by apply Hnd.
Qed.

Lemma format_loop_spec (deposits : list DepositInfo) (m : measures) (tokens : list string) :
  (forall d, d ∈ deposits ->
     exists v, tokenIntegerSpace m !! Token d = Some v /\
               0 <= maxTokenLen m - len (Token d) + maxIntegerValueLen m - v) ->
  format_loop (Some <$> deposits) m tokens
  = Value (tokens ++
           ((fun d => tokenInfo (Token d)
                        (repeated " "
                           (Z.to_nat (maxTokenLen m - len (Token d) + maxIntegerValueLen m
                                      - default 0 (tokenIntegerSpace m !! Token d))))
                        (DenominatedAmountString d)) <$> deposits)).
Proof.
  revert tokens. induction deposits as [|d rest IH]; intros tokens Hall.
  - simpl. by rewrite app_nil_r.
  - rewrite (fmap_cons Some), fmap_cons. cbn [format_loop].
    destruct (Hall d ltac:(by left)) as (v & Hv & Hpos). rewrite Hv.
    change (default 0 (Some v)) with v.
    unfold Repeat. destruct (Z.ltb_spec (maxTokenLen m - len (Token d)
                                         + maxIntegerValueLen m - v) 0); [lia|].
    cbv beta iota.
    rewrite IH by (intros d' Hd'; apply Hall; by right).
    by rewrite <- app_assoc.
Qed.

(** A loop that stops does so on a [nil] deposit. *)
Lemma measure_loop_fault (deposits : list (option DepositInfo)) (m : measures) (f : fault) :
  measure_loop deposits m = Fault f ->
  f = Runtime NilPointerDereference /\ None ∈ deposits.
Proof.
  revert m. induction deposits as [|[d|] rest IH]; intros m; cbn [measure_loop].
  - done.
  - rewrite integerPartOf_lookup. intros Hrun. apply IH in Hrun as [-> Hin].
    split; [done|by right].
  - intros [= <-]. split; [done|by left].
Qed.

End TokensBalances.

Section TokensBalancesDisplay.
Import ethereum.

Lemma measure_loop_nil (deposits : list (option DepositInfo)) (m : measures) :
  None ∈ deposits -> measure_loop deposits m = Fault (Runtime NilPointerDereference).
Proof.
  revert m. induction deposits as [|[d|] rest IH]; intros m Hin; cbn [measure_loop].
  - by apply elem_of_nil in Hin.
  - rewrite integerPartOf_lookup. apply IH.
    by apply elem_of_cons in Hin as [?|?].
  - done.
Qed.

Lemma nil_or_all_present (deposits : list (option DepositInfo)) :
  None ∈ deposits \/ exists present, deposits = Some <$> present.
Proof.
  induction deposits as [|[d|] rest [Hin|[present ->]]].
  - right. by exists [].
  - left. by right.
  - right. by exists (d :: present).
  - left. by left.
  - left. by left.
Qed.

(** X20.  [TokensBalancesDisplayString] stops exactly when the batch or one
    of its deposits is [nil], on that nil pointer; in particular the count
    it hands to [strings.Repeat] is never negative and the split amount
    always has a first part.  Otherwise it returns one line per deposit, in
    order, joined by newlines, each made of a space, the token, a colon and
    a space, some spaces, and the amount.  When the tokens of the batch are
    pairwise distinct, the integer parts of all amounts end in the same
    column. *)
Theorem TokensBalancesDisplayString_aligned (batchInfo : option BatchInfo) :
  (forall deposits,
     batchInfo = Some (mkBatchInfo (Some <$> deposits)) ->
     exists lines (column : Z),
       TokensBalancesDisplayString batchInfo = Value (Join lines newline) /\
       length lines = length deposits /\
       (forall i d,
          deposits !! i = Some d ->
          exists n : nat,
            lines !! i
            = Some (tokenInfo (Token d) (repeated " " n) (DenominatedAmountString d)) /\
            (NoDup (Token <$> deposits) ->
             len (" " +:+ Token d +:+ ": " +:+ repeated " " n +:+ integerPartOf d)
             = column))) /\
  (batchInfo = None \/ (exists info, batchInfo = Some info /\ None ∈ DepositsInfo info) ->
   TokensBalancesDisplayString batchInfo = Fault (Runtime NilPointerDereference)) /\
  (forall f,
     TokensBalancesDisplayString batchInfo = Fault f ->
     f = Runtime NilPointerDereference /\
     (batchInfo = None \/ exists info, batchInfo = Some info /\ None ∈ DepositsInfo info)).
Proof.
  assert (Hok : forall deposits,
            exists m', measure_loop (Some <$> deposits) (mkMeasures 0 0 ∅) = Value m' /\
              format_loop (Some <$> deposits) m' []
              = Value ((fun d => tokenInfo (Token d)
                          (repeated " "
                             (Z.to_nat (maxTokenLen m' - len (Token d) + maxIntegerValueLen m'
                                        - default 0 (tokenIntegerSpace m' !! Token d))))
                          (DenominatedAmountString d)) <$> deposits) /\
              (forall d, d ∈ deposits ->
                 0 <= maxTokenLen m' - len (Token d) + maxIntegerValueLen m'
                      - default 0 (tokenIntegerSpace m' !! Token d)) /\
              (NoDup (Token <$> deposits) -> forall d, d ∈ deposits ->
                 tokenIntegerSpace m' !! Token d = Some (len (integerPartOf d)))).
  { intros deposits.
    destruct (measure_loop_spec deposits (mkMeasures 0 0 ∅))
      as (m' & Hrun & Hcover & _ & _ & Hall & _ & Hnd); [done|].
    assert (Hn : forall d, d ∈ deposits ->
              exists v, tokenIntegerSpace m' !! Token d = Some v /\
                        0 <= maxTokenLen m' - len (Token d) + maxIntegerValueLen m' - v).
    { intros d Hd. destruct (Hall d Hd) as (Ht & _ & v & Hv).
      exists v. split; [done|]. apply Hcover in Hv. lia. }
    exists m'. split; [done|]. split; [by rewrite format_loop_spec|]. split; [|done].
    intros d Hd. destruct (Hn d Hd) as (v & -> & Hpos). done. }
  split_and!.
  - intros deposits ->. destruct (Hok deposits) as (m' & Hrun & Hfmt & Hpos & Hnd).
    unfold TokensBalancesDisplayString, tokensBalancesLines. cbn [DepositsInfo].
    rewrite Hrun, Hfmt. eexists _, (3 + maxTokenLen m' + maxIntegerValueLen m').
    split; [done|]. split; [by rewrite length_fmap|].
    intros i d Hd. eexists. rewrite list_lookup_fmap, Hd. split; [done|].
    intros HNoDup. pose proof (list_elem_of_lookup_2 _ _ _ Hd) as Hin.
    specialize (Hpos d Hin). rewrite (Hnd HNoDup d Hin) in *. simpl in Hpos |- *.
    rewrite !len_append, len_repeated_space, Z2Nat.id by done.
    change (len " ") with 1. change (len ": ") with 2. lia.
  - unfold TokensBalancesDisplayString, tokensBalancesLines.
    intros [->|(info & -> & Hin)]; [done|]. by rewrite measure_loop_nil.
  - intros f. unfold TokensBalancesDisplayString, tokensBalancesLines.
    destruct batchInfo as [info|]; [|intros [= <-]; split; [done|by left]].
    destruct (nil_or_all_present (DepositsInfo info)) as [Hin|[present Hp]].
    + rewrite measure_loop_nil by done. intros [= <-]. split; [done|].
      right. by exists info.
    + rewrite Hp. destruct (Hok present) as (m' & -> & -> & _). done.
Qed.

End TokensBalancesDisplay.

Example TokensBalancesDisplayString_distinct_tokens :
  ethereum.tokensBalancesLines
    (Some (ethereum.mkBatchInfo
             [Some (ethereum.mkDepositInfo "A" "1.5");
              Some (ethereum.mkDepositInfo "BCD" "100.25")]))
  = ethereum.Value [" A:     1.5"; " BCD: 100.25"].
Proof. vm_compute. reflexivity. Qed.

(** A token that comes twice takes the space of its last amount. *)
Example TokensBalancesDisplayString_repeated_token :
  ethereum.tokensBalancesLines
    (Some (ethereum.mkBatchInfo
             [Some (ethereum.mkDepositInfo "A" "1.5");
              Some (ethereum.mkDepositInfo "A" "100.25")]))
  = ethereum.Value [" A: 1.5"; " A: 100.25"].
Proof. vm_compute. reflexivity. Qed.

(** ** Parsing of a partial migration *)

Section PartialMigration.
Import ethereum.

Variable Float : Type.
Variable SetString : string -> option Float.
Variable SetCopy : Float -> Float.
Variable Add : Float -> Float -> option Float.

Local Abbreviation loop := (convert_loop Float SetString SetCopy Add).
Local Abbreviation read := (readPart Float SetString).
Local Abbreviation readAs :=
  (fun (part : string) (entry : string * Float) => readPart Float SetString part = inl entry).
Local Abbreviation sums := (addedUp Float SetCopy Add).
Local Abbreviation put := (addEntries Float SetCopy Add).

(** The body of the loop on a part that reads. *)
Lemma convert_loop_reads part rest token amount (partialMap : gmap string Float) :
  read part = inl (token, amount) ->
  loop (part :: rest) partialMap
  = match partialMap !! token with
    | None => loop rest (<[ token := SetCopy amount ]> partialMap)
    | Some current =>
        match Add current amount with
        | None => PanicsErrNaN
        | Some sum => loop rest (<[ token := sum ]> partialMap)
        end
    end.
Proof.
  unfold readPart. cbn [convert_loop].
  destruct (Split (Trim part) tokenAmountSeparator) as [|t [|a [|x splt]]]; try done.
  destruct (SetString a) as [amount'|] eqn:Ha; [|done]. intros [= -> ->].
  simpl. by rewrite Ha.
Qed.

(** The body of the loop on a part that does not. *)
Lemma convert_loop_fails part rest err (partialMap : gmap string Float) :
  read part = inr err -> loop (part :: rest) partialMap = Refused err.
Proof.
  unfold readPart. cbn [convert_loop].
  destruct (Split (Trim part) tokenAmountSeparator) as [|t [|a [|x splt]]];
    try (by intros [= <-]).
  simpl. by destruct (SetString a); [|intros [= <-]].
Qed.

Lemma amountsOf_cons token t a (entries : list (string * Float)) :
  amountsOf Float token ((t, a) :: entries)
  = if decide (t = token) then a :: amountsOf Float token entries
    else amountsOf Float token entries.
Proof.
  unfold amountsOf. rewrite filter_cons. simpl. by destruct (decide (t = token)).
Qed.

(** The loop on parts that read is the entries put into the map, for as
    long as the sums are numbers. *)
Lemma convert_loop_entries parts entries rest (partialMap : gmap string Float) :
  Forall2 readAs parts entries ->
  loop (parts ++ rest) partialMap
  = match put entries partialMap with
    | None => PanicsErrNaN
    | Some partialMap' => loop rest partialMap'
    end.
Proof.
  intros Hread. revert partialMap.
  induction Hread as [|part [t a] parts entries Hpart Hread IH]; intros partialMap; [done|].
  rewrite <- app_comm_cons, (convert_loop_reads _ _ _ _ _ Hpart). cbn [addEntries].
  destruct (partialMap !! t) as [current|]; [|apply IH].
  destruct (Add current a); [apply IH|done].
Qed.

(** One entry put into the map, seen from a token. *)
Lemma addedUp_step t a (entries : list (string * Float)) (partialMap : gmap string Float)
  token :
  sums (partialMap !! token) (amountsOf Float token ((t, a) :: entries))
  = match partialMap !! t with
    | None => sums (<[ t := SetCopy a ]> partialMap !! token) (amountsOf Float token entries)
    | Some current =>
        match Add current a with
        | Some sum => sums (<[ t := sum ]> partialMap !! token) (amountsOf Float token entries)
        | None => if decide (t = token) then None
                  else sums (partialMap !! token) (amountsOf Float token entries)
        end
    end.
Proof.
  rewrite amountsOf_cons. destruct (decide (t = token)) as [->|Hne].
  - destruct (partialMap !! token) as [current|] eqn:Hc.
    + cbn [addedUp addAll]. destruct (Add current a) as [sum|]; [|done].
      by rewrite lookup_insert_eq.
    + rewrite lookup_insert_eq. done.
  - destruct (partialMap !! t) as [current|].
    + destruct (Add current a) as [sum|]; [|done]. by rewrite lookup_insert_ne.
    + by rewrite lookup_insert_ne.
Qed.

Lemma addEntries_sums (entries : list (string * Float)) (partialMap : gmap string Float) :
  match put entries partialMap with
  | Some partialMap' =>
      forall token,
        sums (partialMap !! token) (amountsOf Float token entries) = Some (partialMap' !! token)
  | None =>
      exists token, sums (partialMap !! token) (amountsOf Float token entries) = None
  end.
Proof.
  revert partialMap. induction entries as [|[t a] entries IH]; intros partialMap.
  - cbn [addEntries]. intros token. unfold amountsOf. simpl.
    by destruct (partialMap !! token).
  - cbn [addEntries].
    destruct (partialMap !! t) as [current|] eqn:Hc.
    + destruct (Add current a) as [sum|] eqn:Hsum.
      * specialize (IH (<[ t := sum ]> partialMap)).
        destruct (put entries (<[ t := sum ]> partialMap)) as [partialMap'|].
        -- intros token. by rewrite addedUp_step, Hc, Hsum.
        -- destruct IH as [token IH]. exists token. by rewrite addedUp_step, Hc, Hsum.
      * exists t. rewrite addedUp_step, Hc, Hsum. by rewrite decide_True.
    + specialize (IH (<[ t := SetCopy a ]> partialMap)).
      destruct (put entries (<[ t := SetCopy a ]> partialMap)) as [partialMap'|].
      * intros token. by rewrite addedUp_step, Hc.
      * destruct IH as [token IH]. exists token. by rewrite addedUp_step, Hc.
Qed.

(** How the loop can end, read back. *)
Lemma convert_loop_ends parts (partialMap : gmap string Float) :
  match loop parts partialMap with
  | Converted partialMap' =>
      exists entries, Forall2 readAs parts entries /\ put entries partialMap = Some partialMap'
  | Refused err =>
      exists readable entries part rest,
        parts = readable ++ part :: rest /\ Forall2 readAs readable entries /\
        is_Some (put entries partialMap) /\ read part = inr err
  | PanicsErrNaN =>
      exists readable entries rest,
        parts = readable ++ rest /\ Forall2 readAs readable entries /\
        put entries partialMap = None
  end.
Proof.
  revert partialMap. induction parts as [|part parts IH]; intros partialMap.
  - exists []. split; [constructor|done].
  - destruct (read part) as [[t a]|err] eqn:Hpart.
    + rewrite (convert_loop_reads _ _ _ _ _ Hpart).
      assert (Hnext : forall partialMap1,
                put [(t, a)] partialMap = Some partialMap1 ->
                match loop parts partialMap1 with
                | Converted partialMap' =>
                    exists entries, Forall2 readAs (part :: parts) entries /\
                                    put entries partialMap = Some partialMap'
                | Refused err =>
                    exists readable entries part' rest,
                      part :: parts = readable ++ part' :: rest /\
                      Forall2 readAs readable entries /\
                      is_Some (put entries partialMap) /\ read part' = inr err
                | PanicsErrNaN =>
                    exists readable entries rest,
                      part :: parts = readable ++ rest /\ Forall2 readAs readable entries /\
                      put entries partialMap = None
                end).
      { intros partialMap1 Hput. specialize (IH partialMap1).
        assert (Hcons : forall entries,
                  put ((t, a) :: entries) partialMap = put entries partialMap1).
        { intros entries. cbn [addEntries] in Hput |- *.
          destruct (partialMap !! t) as [current|]; [|by injection Hput as ->].
          destruct (Add current a); [by injection Hput as ->|done]. }
        destruct (loop parts partialMap1) as [partialMap'|err|].
        - destruct IH as (entries & Hread & Hp). exists ((t, a) :: entries).
          split; [by constructor|]. by rewrite Hcons.
        - destruct IH as (readable & entries & part' & rest & -> & Hread & Hp & Herr).
          exists (part :: readable), ((t, a) :: entries), part', rest.
          split; [done|]. split; [by constructor|]. split; [by rewrite Hcons|done].
        - destruct IH as (readable & entries & rest & -> & Hread & Hp).
          exists (part :: readable), ((t, a) :: entries), rest.
          split; [done|]. split; [by constructor|]. by rewrite Hcons. }
      destruct (partialMap !! t) as [current|] eqn:Hc.
      * destruct (Add current a) as [sum|] eqn:Hsum.
        -- apply Hnext. cbn [addEntries]. by rewrite Hc, Hsum.
        -- exists [part], [(t, a)], parts. split; [done|]. split; [by repeat constructor|].
           cbn [addEntries]. by rewrite Hc, Hsum.
      * apply Hnext. cbn [addEntries]. by rewrite Hc.
    + rewrite (convert_loop_fails _ _ _ _ Hpart).
      exists [], [], part, parts. split; [done|]. split; [constructor|]. split; [by eexists|done].
Qed.

(** [strings.Split] of a string that ends in the separator ends in the
    empty string. *)
Lemma Split_trailing (s : string) (sep : Ascii.ascii) :
  exists first init,
    Split (s +:+ String sep EmptyString) sep = (first :: init) ++ [EmptyString].
Proof.
  assert (Hnil : forall x, EmptyString +:+ x = x) by reflexivity.
  assert (Hcons : forall c s x, String c s +:+ x = String c (s +:+ x)) by reflexivity.
  induction s as [|c s (first & init & IH)].
  - rewrite Hnil. cbn [Split]. rewrite Ascii.eqb_refl. by exists EmptyString, [].
  - rewrite Hcons. cbn [Split]. rewrite IH.
    destruct (Ascii.eqb c sep).
    + by exists EmptyString, (first :: init).
    + by exists (String c first), init.
Qed.

(** X21.  [ConvertPartialMigrationStringToMap] reads the parts between
    commas from left to right, adding each amount to what the map holds for
    its token, and ends at the first part that stops it.  A part that, once
    trimmed, is not of the form token, colon, amount with an amount that
    parses ends it with the error of that part: so the empty string is
    refused, and a string that ends in a comma never gives a map.  A part
    whose amount added to the token's sum is not a number (infinities of
    opposite signs, which both parse) ends it with the panic of the
    addition.  It returns a map exactly when every part reads and every
    token's amounts add up; the map is then not empty and holds, for every
    token, the amounts of that token added up in their order, starting from
    a copy of the first, and nothing for any other token. *)
Theorem ConvertPartialMigrationStringToMap_adds_up (partialMigration : string) :
  let parts := Split partialMigration partsSeparator in
  let result :=
    ConvertPartialMigrationStringToMap Float SetString SetCopy Add partialMigration in
  (forall entries,
     Forall2 readAs parts entries ->
     addsUp Float SetCopy Add entries ->
     exists partialMap,
       result = Converted partialMap /\
       partialMap <> ∅ /\
       forall token, sums None (amountsOf Float token entries) = Some (partialMap !! token)) /\
  (forall readable entries part rest err,
     parts = readable ++ part :: rest ->
     Forall2 readAs readable entries ->
     addsUp Float SetCopy Add entries ->
     read part = inr err ->
     result = Refused err) /\
  (forall readable entries rest,
     parts = readable ++ rest ->
     Forall2 readAs readable entries ->
     addsToNaN Float SetCopy Add entries ->
     result = PanicsErrNaN) /\
  (forall partialMap,
     result = Converted partialMap ->
     exists entries, Forall2 readAs parts entries /\ addsUp Float SetCopy Add entries) /\
  (result = PanicsErrNaN ->
   exists readable entries rest,
     parts = readable ++ rest /\ Forall2 readAs readable entries /\
     addsToNaN Float SetCopy Add entries) /\
  (forall err,
     result = Refused err ->
     exists readable entries part rest,
       parts = readable ++ part :: rest /\ Forall2 readAs readable entries /\
       addsUp Float SetCopy Add entries /\ read part = inr err) /\
  (partialMigration = EmptyString -> result = Refused (InvalidFormat EmptyString)) /\
  (forall before partialMap,
     partialMigration = before +:+ String partsSeparator EmptyString ->
     result <> Converted partialMap).
Proof.
  intros parts result.
  assert (Hdefined : forall entries (partialMap' : gmap string Float),
            put entries ∅ = Some partialMap' ->
            addsUp Float SetCopy Add entries /\
            forall token, sums None (amountsOf Float token entries) = Some (partialMap' !! token)).
  { intros entries partialMap' Hput. pose proof (addEntries_sums entries ∅) as H.
    rewrite Hput in H. split; [|by intros token; rewrite <- H, lookup_empty].
    intros token. specialize (H token). rewrite lookup_empty in H. by rewrite H. }
  assert (Hnan : forall entries,
            put entries ∅ = None -> addsToNaN Float SetCopy Add entries).
  { intros entries Hput. pose proof (addEntries_sums entries ∅) as H.
    rewrite Hput in H. destruct H as [token H]. exists token.
    by rewrite lookup_empty in H. }
  assert (Hput : forall entries,
            (addsUp Float SetCopy Add entries -> is_Some (put entries ∅)) /\
            (addsToNaN Float SetCopy Add entries -> put entries ∅ = None)).
  { intros entries. destruct (put entries ∅) as [partialMap'|] eqn:Hp.
    - split; [by eexists|]. intros [token Htoken].
      by destruct (proj1 (Hdefined _ _ Hp) token).
    - split; [|done]. intros Hup. destruct (Hnan _ Hp) as [token Htoken].
      by destruct (Hup token). }
  assert (Hresult : result = loop parts ∅) by done.
  split_and!.
  - intros entries Hread Hup. destruct (proj1 (Hput entries) Hup) as [partialMap' Hp].
    exists partialMap'. rewrite Hresult, <- (app_nil_r parts).
    rewrite (convert_loop_entries _ _ _ _ Hread), Hp. split; [done|].
    split; [|by apply Hdefined].
    destruct (Split_first partialMigration partsSeparator) as (first & others & Hparts).
    fold parts in Hparts. rewrite Hparts in Hread.
    apply Forall2_cons_inv_l in Hread as ([t a] & es & _ & _ & ->).
    intros Hempty. pose proof (proj2 (Hdefined _ _ Hp) t) as Ht.
    rewrite Hempty, lookup_empty, amountsOf_cons, decide_True in Ht by done.
    cbn [addedUp] in Ht. by destruct (addAll _ _ _ _).
  - intros readable entries part rest err Hparts Hread Hup Herr.
    destruct (proj1 (Hput entries) Hup) as [partialMap' Hp].
    rewrite Hresult, Hparts, (convert_loop_entries _ _ _ _ Hread), Hp.
    by apply convert_loop_fails.
  - intros readable entries rest Hparts Hread Hnot.
    rewrite Hresult, Hparts, (convert_loop_entries _ _ _ _ Hread).
    by rewrite (proj2 (Hput entries) Hnot).
  - intros partialMap Hres. pose proof (convert_loop_ends parts ∅) as H.
    rewrite <- Hresult, Hres in H. destruct H as (entries & Hread & Hp).
    exists entries. split; [done|]. by apply (Hdefined _ _ Hp).
  - intros Hres. pose proof (convert_loop_ends parts ∅) as H.
    rewrite <- Hresult, Hres in H. destruct H as (readable & entries & rest & Hparts & Hread & Hp).
    exists readable, entries, rest. split; [done|]. split; [done|]. by apply Hnan.
  - intros err Hres. pose proof (convert_loop_ends parts ∅) as H.
    rewrite <- Hresult, Hres in H.
    destruct H as (readable & entries & part & rest & Hparts & Hread & [partialMap' Hp] & Herr).
    exists readable, entries, part, rest. split; [done|]. split; [done|].
    split; [by apply (Hdefined _ _ Hp)|done].
  - subst result parts. by intros ->.
  - intros before partialMap Hbefore Hres.
    pose proof (convert_loop_ends parts ∅) as H.
    rewrite <- Hresult, Hres in H. destruct H as (entries & Hread & _).
    subst parts. rewrite Hbefore in Hread.
    destruct (Split_trailing before partsSeparator) as (first & init & Hsplit).
    rewrite Hsplit in Hread.
    apply Forall2_app_inv_l in Hread as (es1 & es2 & _ & Hlast & _).
    apply Forall2_cons_inv_l in Hlast as (entry & es & Hentry & _ & _).
    by vm_compute in Hentry.
Qed.

End PartialMigration.

Example ConvertPartialMigrationStringToMap_two_tokens :
  match examples.toyConvert "a:1, b:2 ,a:2" with
  | ethereum.Converted partialMap =>
      [partialMap !! "a"; partialMap !! "b"; partialMap !! "c"]
  | _ => []
  end = [Some (examples.Finite 3); Some (examples.Finite 2); None].
Proof. vm_compute. reflexivity. Qed.

Example ConvertPartialMigrationStringToMap_space_before_amount :
  examples.toyConvert "a: 1" = ethereum.Refused (ethereum.NotANumber "a: 1").
Proof. vm_compute. reflexivity. Qed.

Example ConvertPartialMigrationStringToMap_two_colons :
  examples.toyConvert "a:1,b:1:2" = ethereum.Refused (ethereum.InvalidFormat "b:1:2").
Proof. vm_compute. reflexivity. Qed.

(** Infinities of opposite signs for one token: the addition panics, also
    when a later part would not read. *)
Example ConvertPartialMigrationStringToMap_opposite_infinities :
  examples.toyConvert "a:Inf,a:-Inf" = ethereum.PanicsErrNaN /\
  examples.toyConvert "a:Inf,b:1,a:-Inf,c" = ethereum.PanicsErrNaN.
Proof. split; vm_compute; reflexivity. Qed.

(** ** Bridge components: start and close *)

Section Components.
Import factory.

Variable answer : list event -> event -> option error.

Lemma untilFirstError_app f (xs ys : list event) (journal : list event) :
  untilFirstError f (xs ++ ys) journal
  = match untilFirstError f xs journal with
    | (Some err, journal') => (Some err, journal')
    | (None, journal') => untilFirstError f ys journal'
    end.
Proof.
  revert journal. induction xs as [|x xs IH]; intros journal; simpl; [done|].
  destruct (f journal x); [done|]. apply IH.
Qed.

Lemma startPollingHandlers_loop_calls (handlers : list nat) (journal : list event) :
  startPollingHandlers_loop answer handlers journal
  = untilFirstError (answerTo answer) (StartProcessingLoop <$> handlers) journal.
Proof.
  revert journal. induction handlers as [|h rest IH]; intros journal; simpl; [done|].
  destruct (answer journal (StartProcessingLoop h)); [done|]. apply IH.
Qed.

Lemma Start_calls (components : ethElrondBridgeComponents) (journal : list event) :
  Start answer components journal
  = untilFirstError (answerTo answer) (startCalls components) journal.
Proof.
  unfold Start, startCalls, startPollingHandlers. simpl.
  destruct (answer journal Bootstrap); [done|].
  destruct (answer _ RegisterOnTopics); [done|].
  rewrite untilFirstError_app, startPollingHandlers_loop_calls.
  destruct (untilFirstError _ (StartProcessingLoop <$> _) _) as [[err|] journal5]; done.
Qed.

Lemma untilFirstError_stops f (calls : list event) (journal : list event) :
  calls <> [] ->
  exists (n : nat) (last : event),
    calls !! n = Some last /\
    (untilFirstError f calls journal).2 = journal ++ take (S n) calls /\
    (forall (i : nat) call, (i < n)%nat -> calls !! i = Some call ->
       f (journal ++ take i calls) call = None) /\
    (untilFirstError f calls journal).1 = f (journal ++ take n calls) last /\
    ((untilFirstError f calls journal).1 = None -> S n = length calls).
Proof.
  revert journal. induction calls as [|call rest IH]; intros journal Hne; [done|].
  cbn [untilFirstError].
  destruct (f journal call) as [err|] eqn:Hcall.
  { exists 0%nat, call. simpl. rewrite app_nil_r. split_and!; try done. intros; lia. }
  destruct rest as [|call' rest'].
  { exists 0%nat, call. simpl. rewrite app_nil_r. split_and!; try done. intros; lia. }
  destruct (IH (journal ++ [call]) ltac:(done)) as (n & last & Hlast & Hj & Hbefore & Hres & Hall).
  exists (S n), last. split_and!.
  - done.
  - rewrite Hj, <- app_assoc. done.
  - intros [|i] c Hi Hc.
    + simpl in Hc. injection Hc as <-. simpl. by rewrite app_nil_r.
    + simpl in Hc. rewrite firstn_cons, cons_middle, app_assoc. apply Hbefore; [lia|done].
  - rewrite Hres. f_equal. by rewrite firstn_cons, <- app_assoc.
  - intros Hnone. apply Hall in Hnone. simpl in *. lia.
Qed.

Lemma startCalls_length (components : ethElrondBridgeComponents) :
  length (startCalls components) = (5 + length (pollingHandlers components))%nat.
Proof. unfold startCalls. rewrite !length_app, length_fmap. simpl. lia. Qed.

Lemma startCalls_lookup (components : ethElrondBridgeComponents) (i : nat) (call : event) :
  startCalls components !! i = Some call ->
  (i = 0%nat /\ call = Bootstrap) \/
  (i = 1%nat /\ call = Sleep (timeForBootstrap components)) \/
  (i = 2%nat /\ call = RegisterOnTopics) \/
  (i = 3%nat /\ call = BroadcastJoinTopic) \/
  ((4 <= i < 4 + length (pollingHandlers components))%nat /\
   exists pollingHandler, call = StartProcessingLoop pollingHandler) \/
  (i = (4 + length (pollingHandlers components))%nat /\ call = GoBroadcastJoinRetriesLoop).
Proof.
  unfold startCalls. intros Hi.
  destruct i as [|[|[|[|i]]]]; simpl in Hi.
  - injection Hi as <-. tauto.
  - injection Hi as <-. tauto.
  - injection Hi as <-. tauto.
  - injection Hi as <-. tauto.
  - apply lookup_app_Some in Hi as [Hi|[Hge Hi]].
    + do 4 right. left. pose proof (lookup_lt_Some _ _ _ Hi) as Hlt.
      rewrite length_fmap in Hlt. split; [lia|].
      rewrite list_lookup_fmap in Hi.
      destruct (pollingHandlers components !! i) as [h|]; [|done].
      injection Hi as <-. by exists h.
    + do 5 right. rewrite length_fmap in Hge, Hi.
      pose proof (lookup_lt_Some _ _ _ Hi) as Hlt. simpl in Hlt.
      replace (i - length (pollingHandlers components))%nat with 0%nat in Hi by lia.
      injection Hi as <-. split; [lia|done].
Qed.

(** X22.  [Start] makes its calls in a fixed order: bootstrap of the
    messenger, the wait, registration on the topics, the join broadcast,
    then the processing loop of each polling handler, then the background
    loop that repeats the join.  It makes a call only after every earlier
    one succeeded, stops at the first error and returns it, without undoing
    what was started: so the join is broadcast only after the bootstrap and
    the registration succeeded, a polling handler that fails leaves the
    earlier ones running, and [nil] is returned only after every call was
    made, the background loop included. *)
Theorem Start_stops_at_first_error
  (components : ethElrondBridgeComponents) (journal : list event) :
  let calls := startCalls components in
  let result := Start answer components journal in
  exists (n : nat) (last : event),
    calls !! n = Some last /\
    result.2 = journal ++ take (S n) calls /\
    (forall (i : nat) call, (i < n)%nat -> calls !! i = Some call ->
       answerTo answer (journal ++ take i calls) call = None) /\
    result.1 = answerTo answer (journal ++ take n calls) last /\
    (result.1 = None <-> S n = length calls) /\
    (BroadcastJoinTopic ∈ take (S n) calls <-> (3 <= n)%nat) /\
    (GoBroadcastJoinRetriesLoop ∈ take (S n) calls <-> result.1 = None).
Proof.
  intros calls result. subst result. rewrite Start_calls. fold calls.
  destruct (untilFirstError_stops (answerTo answer) calls journal)
    as (n & last & Hlast & Hj & Hbefore & Hres & Hall); [done|].
  pose proof (startCalls_length components) as Hlen. fold calls in Hlen.
  assert (Hend : S n = length calls -> last = GoBroadcastJoinRetriesLoop).
  { intros Hn. apply startCalls_lookup in Hlast.
    destruct Hlast as [[? ?]|[[? ?]|[[? ?]|[[? ?]|[[? ?]|[? ?]]]]]]; try done; lia. }
  assert (Hnone : (untilFirstError (answerTo answer) calls journal).1 = None
                  <-> S n = length calls).
  { split; [done|]. intros Hn. by rewrite Hres, (Hend Hn). }
  exists n, last. split_and!; try done.
  - split.
    + intros Hin. apply list_elem_of_lookup_1 in Hin as [i Hi].
      pose proof (lookup_lt_Some _ _ _ Hi) as Hlt. rewrite length_take in Hlt.
      rewrite lookup_take_lt in Hi by lia.
      apply startCalls_lookup in Hi.
      destruct Hi as [[? ?]|[[? ?]|[[? ?]|[[? ?]|[[? [h ?]]|[? ?]]]]]]; try done; lia.
    + intros Hn. apply (list_elem_of_lookup_2 _ 3%nat).
      rewrite lookup_take_lt by lia. done.
  - rewrite Hnone. split.
    + intros Hin. apply list_elem_of_lookup_1 in Hin as [i Hi].
      pose proof (lookup_lt_Some _ _ _ Hi) as Hlt. rewrite length_take in Hlt.
      rewrite lookup_take_lt in Hi by lia.
      apply startCalls_lookup in Hi.
      destruct Hi as [[? ?]|[[? ?]|[[? ?]|[[? ?]|[[? [h ?]]|[? ?]]]]]]; try done.
      apply lookup_lt_Some in Hlast. lia.
    + intros Hn. apply (list_elem_of_lookup_2 _ n). rewrite lookup_take_lt by lia.
      by rewrite Hlast, (Hend Hn).
Qed.

End Components.

Section ComponentsClose.
Import factory.

Variable answer : list event -> event -> option error.

Lemma Close_loop_spec (closables : list (option nat)) (lastError : option error)
  (journal : list event) :
  let calls := CloseCall <$> omap id closables in
  let result := Close_loop answer closables lastError journal in
  result.2 = journal ++ calls /\
  ((forall (k : nat) call, calls !! k = Some call ->
      answerTo answer (journal ++ take k calls) call = None) ->
   result.1 = lastError) /\
  (forall (k : nat) call err,
     calls !! k = Some call ->
     answerTo answer (journal ++ take k calls) call = Some err ->
     (forall (k' : nat) call', (k < k')%nat -> calls !! k' = Some call' ->
        answerTo answer (journal ++ take k' calls) call' = None) ->
     result.1 = Some err).
Proof.
  revert lastError journal.
  induction closables as [|[closable|] rest IH]; intros lastError journal.
  - simpl. rewrite app_nil_r. split_and!; try done.
  - cbn [Close_loop omap list_omap id fmap list_fmap].
    change (list_fmap _ _ CloseCall (list_omap _ _ id rest))
      with (CloseCall <$> omap id rest).
    set (calls := CloseCall <$> omap id rest).
    assert (Hstep : forall last',
              let result := Close_loop answer rest last' (journal ++ [CloseCall closable]) in
              result.2 = journal ++ CloseCall closable :: calls /\
              ((forall (k : nat) call, calls !! k = Some call ->
                  answerTo answer (journal ++ take (S k) (CloseCall closable :: calls)) call
                  = None) -> result.1 = last') /\
              (forall (k : nat) call err,
                 calls !! k = Some call ->
                 answerTo answer (journal ++ take (S k) (CloseCall closable :: calls)) call
                 = Some err ->
                 (forall (k' : nat) call', (k < k')%nat -> calls !! k' = Some call' ->
                    answerTo answer (journal ++ take (S k') (CloseCall closable :: calls)) call'
                    = None) ->
                 result.1 = Some err)).
    { intros last'. destruct (IH last' (journal ++ [CloseCall closable])) as (Hj & Hnone & Hsome).
      fold calls in Hj, Hnone, Hsome. cbv zeta. split_and!.
      - by rewrite Hj, <- app_assoc.
      - intros Hall. apply Hnone. intros k call Hk.
        rewrite <- app_assoc. by apply Hall.
      - intros k call err Hk Herr Hlater. apply (Hsome k call err Hk).
        + by rewrite <- app_assoc.
        + intros k' call' Hlt Hk'. rewrite <- app_assoc. by apply Hlater. }
    cbv zeta. destruct (answer journal (CloseCall closable)) as [e|] eqn:Hfirst.
    + destruct (Hstep (Some e)) as (Hj & Hnone & Hsome). split_and!; [done| |].
      * intros Hall. specialize (Hall 0%nat (CloseCall closable) eq_refl).
        simpl in Hall. rewrite app_nil_r in Hall. congruence.
      * intros [|k] call err Hk Herr Hlater.
        -- simpl in Hk, Herr. injection Hk as <-. rewrite app_nil_r in Herr.
           simpl in Herr. rewrite Hfirst in Herr. injection Herr as <-.
           apply Hnone. intros k call Hk. apply (Hlater (S k)); [lia|done].
        -- apply (Hsome k call err Hk Herr).
           intros k' call' Hlt Hk'. apply (Hlater (S k')); [lia|done].
    + destruct (Hstep lastError) as (Hj & Hnone & Hsome). split_and!; [done| |].
      * intros Hall. apply Hnone. intros k call Hk. by apply (Hall (S k)).
      * intros [|k] call err Hk Herr Hlater.
        -- simpl in Hk, Herr. injection Hk as <-. rewrite app_nil_r in Herr.
           simpl in Herr. congruence.
        -- apply (Hsome k call err Hk Herr).
           intros k' call' Hlt Hk'. apply (Hlater (S k')); [lia|done].
  - cbn [Close_loop omap list_omap id fmap list_fmap]. apply IH.
Qed.

(** X23.  [Close] calls the cancel function when it is set, and then closes
    every closable component that is not [nil], each exactly once and in
    the order in which they were added, whether or not an earlier one
    failed; [nil] components are skipped.  It returns the error of the last
    component that failed, and [nil] exactly when none did. *)
Theorem Close_closes_every_component
  (components : ethElrondBridgeComponents) (journal : list event) :
  let calls := closeCalls components in
  let result := Close answer components journal in
  result.2 = journal ++ calls /\
  (result.1 = None <->
   forall (k : nat) call, calls !! k = Some call ->
     answerTo answer (journal ++ take k calls) call = None) /\
  (forall err,
     result.1 = Some err <->
     exists (k : nat) call,
       calls !! k = Some call /\
       answerTo answer (journal ++ take k calls) call = Some err /\
       forall (k' : nat) call', (k < k')%nat -> calls !! k' = Some call' ->
         answerTo answer (journal ++ take k' calls) call' = None).
Proof.
  intros calls result.
  assert (Hspec :
    result.2 = journal ++ calls /\
    ((forall (k : nat) call, calls !! k = Some call ->
        answerTo answer (journal ++ take k calls) call = None) -> result.1 = None) /\
    (forall (k : nat) call err,
       calls !! k = Some call ->
       answerTo answer (journal ++ take k calls) call = Some err ->
       (forall (k' : nat) call', (k < k')%nat -> calls !! k' = Some call' ->
          answerTo answer (journal ++ take k' calls) call' = None) ->
       result.1 = Some err)).
  { subst calls result. unfold Close, closeCalls.
    destruct (cancelFunc components).
    - destruct (Close_loop_spec (closableHandlers components) None (journal ++ [CancelFunc]))
        as (Hj & Hnone & Hsome).
      set (closes := CloseCall <$> omap id (closableHandlers components)) in *.
      split_and!.
      + by rewrite Hj, <- app_assoc.
      + intros Hall. apply Hnone. intros k call Hk. rewrite <- app_assoc.
        by apply (Hall (S k)).
      + intros [|k] call err Hk Herr Hlater.
        * simpl in Hk. injection Hk as <-. done.
        * apply (Hsome k call err Hk).
          -- by rewrite <- app_assoc.
          -- intros k' call' Hlt Hk'. rewrite <- app_assoc.
             apply (Hlater (S k')); [lia|done].
    - apply Close_loop_spec. }
  destruct Hspec as (Hj & Hnone & Hsome).
  (* some call fails last, or none fails *)
  assert (Hcases : forall (l : list event) (P : nat -> event -> option error),
            (forall (k : nat) call, l !! k = Some call -> P k call = None) \/
            exists (k : nat) call err,
              l !! k = Some call /\ P k call = Some err /\
              forall (k' : nat) call', (k < k')%nat -> l !! k' = Some call' ->
                P k' call' = None).
  { intros l P. induction l as [|x l IH] using rev_ind.
    - left. intros k call Hk. by rewrite lookup_nil in Hk.
    - destruct (P (length l) x) as [e|] eqn:Hx.
      + right. exists (length l), x, e. split; [by rewrite list_lookup_middle|].
        split; [done|]. intros k' call' Hlt Hk'.
        apply lookup_lt_Some in Hk'. rewrite length_app in Hk'. simpl in Hk'. lia.
      + destruct IH as [Hall|(k & call & err & Hk & Herr & Hlater)].
        * left. intros k call Hk.
          apply lookup_app_Some in Hk as [Hk|[Hge Hk]]; [by apply Hall|].
          destruct (k - length l)%nat as [|d] eqn:Hd; [|done].
          simpl in Hk. injection Hk as <-.
          by replace k with (length l) by lia.
        * right. exists k, call, err. split; [by apply lookup_app_l_Some|].
          split; [done|]. intros k' call' Hlt Hk'.
          apply lookup_app_Some in Hk' as [Hk'|[Hge Hk']]; [by eapply Hlater|].
          destruct (k' - length l)%nat as [|d] eqn:Hd; [|done].
          simpl in Hk'. injection Hk' as <-.
          by replace k' with (length l) by lia. }
  destruct (Hcases calls (fun k call => answerTo answer (journal ++ take k calls) call))
    as [Hall|(k & call & err & Hk & Herr & Hlater)].
  - split_and!; [done|by split| ].
    intros err. split; [by rewrite (Hnone Hall)|].
    intros (k & call & Hk & Herr & _). rewrite (Hall k call Hk) in Herr. done.
  - pose proof (Hsome k call err Hk Herr Hlater) as Hres.
    split_and!; [done| |].
    + split; [by rewrite Hres|]. intros Hall. rewrite (Hall k call Hk) in Herr. done.
    + intros err'. split.
      * intros He. rewrite Hres in He. injection He as <-. by exists k, call.
      * intros (k2 & call2 & Hk2 & Herr2 & Hlater2). rewrite Hres. f_equal.
        destruct (Nat.lt_trichotomy k k2) as [Hlt|[->|Hgt]].
        -- rewrite (Hlater k2 call2 Hlt Hk2) in Herr2. done.
        -- congruence.
        -- rewrite (Hlater2 k call Hgt Hk) in Herr. done.
Qed.

End ComponentsClose.

(** ** The monitor of the relay *)

Section Monitor.
Import relay.

Variable Executed : Z.
Variable Rejected : Z.
Variable minCountRequired : Z -> Z.

Local Abbreviation ready := (relay.ready Executed Rejected).
Local Abbreviation final := (relay.proposesFinalStatuses Executed Rejected).

Lemma final_logged (m : Monitor) (call : bridgeCall) :
  final m ->
  (forall status nonce, call = CallProposeSetStatus status nonce ->
     status = Executed \/ status = Rejected) ->
  final (logged call m).
Proof.
  intros Hm Hcall status nonce. unfold logged. cbn [journal].
  rewrite elem_of_app, elem_of_cons. intros [Hin|[Heq|Hin]].
  - by eapply Hm.
  - by eapply Hcall.
  - by apply elem_of_nil in Hin.
Qed.

(** One handler, run on a monitor that is ready for its state. *)
Lemma handler_step (state : State) (h : handler) (m : Monitor) (env : answers) :
  handlerOf Executed Rejected minCountRequired state = Some h ->
  ready state m -> final m ->
  exists state' m',
    h m env = Returns (Some state', m') /\ ready state' m' /\ final m'.
Proof.
  intros Hh Hready Hfinal.
  assert (Hsame : forall p a b j, final (mkMonitor p a b j) <-> final (mkMonitor None 0 None j)).
  { intros p a b j. unfold proposesFinalStatuses. done. }
  destruct state; cbn [handlerOf] in Hh; try discriminate Hh; injection Hh as <-;
    cbn [relay.ready] in Hready.
  - (* getPendingTransaction *)
    unfold getPendingTransaction. cbn [pendingTransaction logged actionId executingBridge journal].
    destruct (pendingAnswer env) as [tx|].
    + eexists _, _. split; [done|]. split; [by eexists|].
      apply final_logged; [|by intros ? ? [=]].
      apply (Hsame _ _ _ _). apply (Hsame None 0 None).
      apply (final_logged m CallGetPendingDepositTransaction Hfinal). by intros ? ? [=].
    + destruct (timerFirst env); eexists _, _; (split; [done|]); (split; [done|]);
        apply (Hsame _ _ _ _); apply (Hsame None 0 None);
        apply (final_logged m CallGetPendingDepositTransaction Hfinal); by intros ? ? [=].
  - (* proposeTransfer *)
    unfold proposeTransfer. destruct Hready as [tx Htx]. rewrite Htx.
    destruct (AmITheLeader env); [|eexists _, _; split; [done|]; split; [by eexists|done]].
    destruct (errorAnswer env) as [err|]; eexists _, _; (split; [done|]).
    + split; [eexists; split; [done|]; by right|].
      apply (Hsame _ _ _ _). apply (Hsame None 0 None).
      apply (final_logged m (CallProposeTransfer tx) Hfinal). by intros ? ? [=].
    + split; [by eexists|]. apply final_logged; [done|by intros ? ? [=]].
  - (* waitForSignatures *)
    unfold waitForSignatures. destruct Hready as [Htx [b Hb]]. rewrite Hb.
    destruct (timerFirst env); [|eexists _, _; split; [done|]; by split].
    destruct (_ && _); eexists _, _; (split; [done|]);
      (split; [split; [done|by eexists]|]); apply final_logged; [done| |done|];
      by intros ? ? [=].
  - (* execute *)
    unfold execute. destruct Hready as [[tx Htx] [b Hb]]. rewrite Htx, Hb.
    destruct (AmITheLeader env); eexists _, _; (split; [done|]).
    + split; [split; by eexists|]. apply final_logged; [done|by intros ? ? [=]].
    + split; [split; by eexists|done].
  - (* waitForTransferProposal *)
    unfold waitForTransferProposal. destruct Hready as [tx Htx]. rewrite Htx.
    destruct (timerFirst env); [|eexists _, _; split; [done|]; by split].
    destruct (boolAnswer env); eexists _, _; (split; [done|]).
    + split; [split; by eexists|].
      cbn [logged pendingTransaction actionId executingBridge journal].
      apply (Hsame _ _ _ _).
      apply (Hsame None 0 None
               (journal (logged (CallSign destinationBridge (actionIdAnswer env))
                  (logged (CallGetActionIdForProposeTransfer (DepositNonce tx))
                     (logged (CallWasProposedTransfer (DepositNonce tx)) m))))).
      repeat (apply final_logged; [|by intros ? ? [=]]). done.
    + split; [by eexists|]. apply final_logged; [done|by intros ? ? [=]].
  - (* waitForExecute *)
    unfold waitForExecute. destruct Hready as [[tx Htx] [b Hb]]. rewrite Htx, Hb.
    destruct (timerFirst env); [|eexists _, _; split; [done|]; by split].
    cbn [logged pendingTransaction actionId executingBridge journal]. rewrite ?Hb.
    destruct (boolAnswer env).
    + destruct b; eexists _, _; (split; [done|]).
      * split; [done|]. apply (Hsame _ _ _ _). apply (Hsame None 0 None).
        apply (final_logged m (CallWasExecuted sourceBridge (actionId m) (DepositNonce tx)) Hfinal).
        by intros ? ? [=].
      * split; [eexists; split; [done|]; by left|].
        apply (Hsame _ _ _ _). apply (Hsame None 0 None).
        apply (final_logged m (CallWasExecuted destinationBridge (actionId m) (DepositNonce tx))
                 Hfinal).
        by intros ? ? [=].
    + eexists _, _. split; [done|]. split; [split; by eexists|].
      apply (final_logged m (CallWasExecuted b (actionId m) (DepositNonce tx)) Hfinal).
      by intros ? ? [=].
  - (* proposeSetStatus *)
    unfold proposeSetStatus. destruct Hready as (tx & Htx & Hstatus). rewrite Htx.
    destruct (AmITheLeader env); eexists _, _; (split; [done|]).
    + split; [by exists tx|]. apply final_logged; [done|]. by intros ? ? [= <- _].
    + split; [by exists tx|done].
  - (* waitForSetStatusProposal *)
    unfold waitForSetStatusProposal. destruct Hready as (tx & Htx & Hstatus). rewrite Htx.
    destruct (timerFirst env); [|eexists _, _; split; [done|]; by split].
    destruct (boolAnswer env); eexists _, _; (split; [done|]).
    + split; [split; by eexists|].
      cbn [logged pendingTransaction actionId executingBridge journal].
      apply (Hsame _ _ _ _).
      apply (Hsame None 0 None
               (journal (logged (CallSign sourceBridge (actionIdAnswer env))
                  (logged CallGetActionIdForSetStatusOnPendingTransfer
                     (logged CallWasProposedSetStatusSuccessOnPendingTransfer m))))).
      repeat (apply final_logged; [|by intros ? ? [=]]). done.
    + split; [by exists tx|]. apply final_logged; [done|by intros ? ? [=]].
Qed.

Lemma Start_loop_ready (envs : list answers) (state : State) (m : Monitor) :
  ready state m -> final m ->
  exists state' m',
    Start_loop Executed Rejected minCountRequired envs state m = Returns (Some state', m') /\
    ready state' m' /\ final m'.
Proof.
  revert state m. induction envs as [|env rest IH]; intros state m Hready Hfinal.
  - by exists state, m.
  - cbn [Start_loop].
    destruct (handlerOf Executed Rejected minCountRequired state) as [h|] eqn:Hh.
    + destruct (handler_step state h m env Hh Hready Hfinal)
        as (state' & m' & -> & Hready' & Hfinal').
      by apply IH.
    + by exists state, m.
Qed.

(** X24.  A monitor as [NewMonitor] makes it, started in its initial state,
    never panics and never ends a handler without a next state, whatever the
    bridges, the topology provider, the timer and the context answer and
    however long it runs: whenever a state is on the channel, the pending
    transaction and the executing bridge that the handler of that state
    dereferences are set, and the [switch] on the executing bridge finds its
    case.  Every status it has proposed to the source bridge is [Executed]
    or [Rejected]. *)
Theorem Start_never_panics (envs : list answers) :
  exists state m,
    Start Executed Rejected minCountRequired envs = Returns (Some state, m) /\
    ready state m /\
    final m.
Proof.
  apply Start_loop_ready; [done|]. intros status nonce Hin. by apply elem_of_nil in Hin.
Qed.

End Monitor.

(** Started in another state, a fresh monitor that is the leader
    dereferences the pending transaction it does not have. *)
Example Start_loop_other_state_panics :
  relay.Start_loop 3 4 (fun peerCount => peerCount)
    [relay.mkAnswers true true None None false 0 0 0] relay.ProposeTransfer relay.NewMonitor
  = Panics NilPointerDereference.
Proof. reflexivity. Qed.
